(** * WaykiChain contract transactions: deploy and invoke

    A shallow embedding of [src/tx/contracttx.cpp]: the string-based
    identifier resolver [GetKeyId], and [CheckTx], [ExecuteTx] and
    [GetInvolvedKeyIds] of [CContractDeployTx] and [CContractInvokeTx].

    The account ledger view, the contract registry view, the Lua engine and
    the helper macros of [tx.h] are collaborators whose code is not part of
    this translation unit; they enter as the fields of the classes
    [Primitives], [Ledger] and [Engine]. *)

From Stdlib Require Import ZArith List Ascii String Bool Lia.
From Corelib Require Import SpecFloat.
From stdpp Require Import base gmap strings sets.
Import ListNotations.

#[local] Open Scope string_scope.
#[local] Open Scope Z_scope.

(** ** Machine integers *)

Module Uint64.
Definition modulus : Z := 2 ^ 64.
Definition wrap (z : Z) : Z := z mod modulus.
(** [a + b] and [a - b] on [uint64_t] operands. *)
Definition add (a b : Z) : Z := wrap (a + b).
Definition sub (a b : Z) : Z := wrap (a - b).
End Uint64.

(** ** IEEE 754 binary64, the C++ [double] *)

Module Double.
Definition prec : Z := 53.
Definition emax : Z := 1024.
(** Conversion of an integer, rounding to nearest even. *)
Definition of_Z (z : Z) : spec_float := binary_normalize prec emax z 0 false.
Definition div (x y : spec_float) : spec_float := SFdiv prec emax x y.
Definition ltb (x y : spec_float) : bool := SFltb x y.
End Double.

(** ** Identifiers *)

(** Modelled from the spec: [CKeyID] (entities/id.h, not part of this
    translation unit), "the canonical, stable identifier for an account,
    derived from a public key or a deployment hash".  It is the value of a
    160-bit hash; the empty (null) identifier is the all-zero one. *)
Definition CKeyID : Type := Z.

#[global] Instance CKeyID_eq_dec : EqDecision CKeyID := Z.eq_dec.
#[global] Instance CKeyID_countable : Countable CKeyID := Z_countable.

Definition CKeyID_IsEmpty (k : CKeyID) : bool := k =? 0.
Definition CKeyID_IsNull (k : CKeyID) : bool := k =? 0.

(** Modelled from the spec: [CRegID] (entities/id.h), "a compact, immutable
    alias for an account or contract, minted once from a (block height,
    in-block index) pair". *)
Record CRegID : Type := mkCRegID { reg_height : Z; reg_index : Z }.

Definition CPubKey : Type := string.
Definition CNickID : Type := string.
Definition uint256 : Type := Z.

(** The polymorphic user identifier, a tagged variant. *)
Inductive CUserID : Type :=
| UidNull
| UidRegID (r : CRegID)
| UidKeyID (k : CKeyID)
| UidPubKey (p : CPubKey)
| UidNickID (n : CNickID).

Inductive UidType : Type := TNull | TRegID | TKeyID | TPubKey | TNickID.

(** [uid.type()] *)
Definition uid_type (u : CUserID) : UidType :=
  match u with
  | UidNull => TNull
  | UidRegID _ => TRegID
  | UidKeyID _ => TKeyID
  | UidPubKey _ => TPubKey
  | UidNickID _ => TNickID
  end.

Definition is_TPubKey (t : UidType) : bool :=
  match t with TPubKey => true | _ => false end.

(** [uid.get<CRegID>()] and [uid.get<CPubKey>()]: [None] is the variant
    holding another alternative, where the accessor throws. *)
Definition get_CRegID (u : CUserID) : option CRegID :=
  match u with UidRegID r => Some r | _ => None end.

Definition get_CPubKey (u : CUserID) : option CPubKey :=
  match u with UidPubKey p => Some p | _ => None end.

(** ** Accounts *)

Definition TokenSymbol : Type := string.

Module SYMB.
Definition WICC : TokenSymbol := "WICC".
End SYMB.

Inductive BalanceOpType : Type := ADD_FREE | SUB_FREE.

(** Modelled from the spec: [CAccount] (entities/account.h), the
    AccountRecord: "key identifier, optional registration identifier,
    optional nickname alias, owner public key, balance ledger keyed by asset
    symbol".  [None] stands for the empty, default-constructed field;
    [tokens] holds the free amounts. *)
Record CAccount : Type := mkCAccount {
  keyid : CKeyID;
  regid : option CRegID;
  nickid : option CNickID;
  owner_pubkey : option CPubKey;
  tokens : gmap TokenSymbol Z
}.

(** The default-constructed [CAccount]. *)
Definition CAccount_default : CAccount :=
  {| keyid := 0; regid := None; nickid := None; owner_pubkey := None;
     tokens := ∅ |}.

Definition free_amount (a : CAccount) (symbol : TokenSymbol) : Z :=
  default 0 (tokens a !! symbol).

Definition set_free_amount (a : CAccount) (symbol : TokenSymbol) (v : Z) : CAccount :=
  {| keyid := keyid a; regid := regid a; nickid := nickid a;
     owner_pubkey := owner_pubkey a; tokens := <[symbol := v]> (tokens a) |}.

Definition set_owner_pubkey (a : CAccount) (p : CPubKey) : CAccount :=
  {| keyid := keyid a; regid := regid a; nickid := nickid a;
     owner_pubkey := Some p; tokens := tokens a |}.

Definition set_regid (a : CAccount) (r : CRegID) : CAccount :=
  {| keyid := keyid a; regid := Some r; nickid := nickid a;
     owner_pubkey := owner_pubkey a; tokens := tokens a |}.

(** Modelled from the spec: [CAccount::OperateBalance] (entities/account.cpp).
    "debit ... from the sender's free balance -- insufficient funds is fatal";
    "credit [transferValue] to the destination's free balance".  [None] is the
    call returning false, the account left as it was. *)
Definition OperateBalance (a : CAccount) (symbol : TokenSymbol)
    (opType : BalanceOpType) (value : Z) : option CAccount :=
  match opType with
  | ADD_FREE => Some (set_free_amount a symbol (free_amount a symbol + value))
  | SUB_FREE =>
      if free_amount a symbol <? value then None
      else Some (set_free_amount a symbol (free_amount a symbol - value))
  end.

(** Modelled from the spec: [CAccount::HaveOwnerPubKey], "require the sender
    account to already hold a registered owner public key". *)
Definition HaveOwnerPubKey (a : CAccount) : bool :=
  match owner_pubkey a with Some _ => true | None => false end.

(** ** Contracts and transactions *)

Inductive VMType : Type := NULL_VM | LUA_VM.

(** The payload of a deploy transaction: bytecode and memo. *)
Record CLuaContract : Type := mkCLuaContract {
  code : string;
  memo : string
}.

(** The ContractRecord: "VM-kind tag, bytecode, an optional source-info
    string, a memo". *)
Record CContract : Type := mkCContract {
  vm_type : VMType;
  c_code : string;
  c_abi : string;
  c_memo : string
}.

(** The fields every transaction has; the fee [llFees] is a [uint64_t]. *)
Record CBaseTx : Type := mkCBaseTx {
  nVersion : Z;
  nValidHeight : Z;
  txUid : CUserID;
  llFees : Z;
  signature : string
}.

Record CContractDeployTx : Type := mkDeployTx {
  d_base : CBaseTx;
  contract : CLuaContract
}.

(** The value [bcoins] to transfer is a [uint64_t]. *)
Record CContractInvokeTx : Type := mkInvokeTx {
  i_base : CBaseTx;
  appUid : CUserID;
  bcoins : Z;
  arguments : string
}.

(** A transaction behind a [CBaseTx] pointer. *)
Inductive Tx : Type :=
| DeployTx (tx : CContractDeployTx)
| InvokeTx (tx : CContractInvokeTx).

(** ** The validation-state sink *)

Inductive RejectCode : Type :=
| REJECT_INVALID
| READ_ACCOUNT_FAIL
| WRITE_ACCOUNT_FAIL
| UPDATE_ACCOUNT_FAIL.

(** What one call of [state.DoS] carries: severity, code and reason. *)
Record Rejection : Type := mkRejection {
  rej_level : Z;
  rej_code : RejectCode;
  rej_reason : string
}.

(** Modelled from the spec: [CValidationState] (main.h), which "accumulates a
    rejection code, reason string, and severity (DoS score) when a check
    fails".  [entry] is the last code and reason recorded, [None] while the
    sink is unpopulated. *)
Record CValidationState : Type := mkState {
  nDoS : Z;
  entry : option (RejectCode * string)
}.

Definition CValidationState_init : CValidationState :=
  {| nDoS := 0; entry := None |}.

(** [state.DoS(level, ret, code, reason)]; its result is [ret], which is the
    [false] of [ERRORMSG] at every call site. *)
Definition DoS (r : Rejection) (st : CValidationState) : CValidationState :=
  {| nDoS := nDoS st + rej_level r;
     entry := Some (rej_code r, rej_reason r) |}.

Definition populated (st : CValidationState) : bool :=
  match entry st with Some _ => true | None => false end.

(** ** Collaborators *)

(** An application sub-account of the engine's output; only its owner
    identifier is read here. *)
Record CAppUserAccount : Type := mkCAppUserAccount {
  GetAccUserId : string
}.

(** Functions, constants and macros of other translation units. *)
Class Primitives : Type := {
  (** crypto/hash.h *)
  Hash160 : string -> CKeyID;
  (** entities/id.h *)
  GetRegIdRaw : CRegID -> string;
  CRegID_of_string : string -> CRegID;
  CKeyID_of_address : string -> CKeyID;
  CPubKey_IsFullyValid : CPubKey -> bool;
  (** entities/contract.h *)
  CLuaContract_IsValid : CLuaContract -> bool;
  GetContractSize : CLuaContract -> Z;
  (** config/version.h *)
  GetFeatureForkVersion : Z -> Z;
  MAJOR_VER_R2 : Z;
  (** tx.h: [CBaseTx::nMinRelayTxFee], [GetSerializeSize], [GetHash] and
      [GetFuel], the last one reading the step count of the transaction *)
  nMinRelayTxFee : Z;
  GetSerializeSize : Tx -> Z;
  GetHash : Tx -> uint256;
  GetFuel : Tx -> Z -> Z -> Z;
  (** tx.h: the checking macros; [Some r] is the macro leaving the function
      through [return state.DoS(...)] with the entry [r] *)
  IMPLEMENT_CHECK_TX_FEE : Z -> Tx -> option Rejection;
  IMPLEMENT_CHECK_TX_ARGUMENTS : Tx -> option Rejection;
  IMPLEMENT_CHECK_TX_REGID : UidType -> option Rejection;
  IMPLEMENT_CHECK_TX_REGID_OR_PUBKEY : UidType -> option Rejection;
  IMPLEMENT_CHECK_TX_APPID : UidType -> option Rejection;
  IMPLEMENT_CHECK_TX_SIGNATURE : Tx -> option CPubKey -> option Rejection
}.

(** The account ledger view and the contract registry view.  A read gives
    [None] where the C++ method returns false; a write gives its boolean and
    the view after it. *)
Class Ledger : Type := {
  CAccountDBCache : Type;
  CContractDBCache : Type;
  accountCache_GetAccount : CAccountDBCache -> CUserID -> option CAccount;
  accountCache_GetKeyId : CAccountDBCache -> CUserID -> option CKeyID;
  accountCache_GetRegId : CAccountDBCache -> CUserID -> option CRegID;
  accountCache_SetAccount :
    CAccountDBCache -> CUserID -> CAccount -> bool * CAccountDBCache;
  accountCache_SaveAccount : CAccountDBCache -> CAccount -> bool * CAccountDBCache;
  (** [regId.GetKeyId(view)] *)
  CRegID_GetKeyId : CRegID -> CAccountDBCache -> CKeyID;
  contractCache_GetContract : CContractDBCache -> CRegID -> option CContract;
  contractCache_SaveContract :
    CContractDBCache -> CRegID -> CContract -> bool * CContractDBCache;
  contractCache_SetTxRelAccout :
    CContractDBCache -> uint256 -> gset CKeyID -> bool * CContractDBCache;
  GetFuelRate : CContractDBCache -> Z
}.

Record CCacheWrapper {L : Ledger} : Type := mkCCacheWrapper {
  accountCache : CAccountDBCache;
  contractCache : CContractDBCache
}.

(** What [CVmRunEnv::ExecuteContract] leaves behind: the returned tuple, the
    views and the step count it was given by reference, and the two vectors
    read back through [GetNewAccount] and [GetRawAppUserAccount]. *)
Record VmOutcome {L : Ledger} : Type := mkVmOutcome {
  vm_success : bool;
  vm_fuel : Z;
  vm_error : string;
  vm_cw : CCacheWrapper;
  vm_nRunStep : Z;
  GetNewAccount : list CAccount;
  GetRawAppUserAccount : list CAppUserAccount
}.

(** The execution engine, and [CBaseTx::SaveTxAddresses], which is handed
    the views and the sink. *)
Class Engine {L : Ledger} : Type := {
  ExecuteContract : Tx -> Z -> CCacheWrapper -> Z -> Z -> VmOutcome;
  SaveTxAddresses :
    Z -> Z -> CCacheWrapper -> CValidationState -> list CUserID ->
    bool * CCacheWrapper * CValidationState
}.

(** ** Execution state *)

(** The calls that write to a view or run the engine, with their
    arguments, in the order made. *)
Inductive Event {L : Ledger} : Type :=
| EvSetAccount (uid : CUserID) (a : CAccount)
| EvSaveAccount (a : CAccount)
| EvSaveContract (r : CRegID) (c : CContract)
| EvExecuteContract (pTx : Tx) (height : Z) (c : CCacheWrapper) (fuelRate nRunStep : Z)
| EvSetTxRelAccout (h : uint256) (vAddress : gset CKeyID)
| EvSaveTxAddresses (height index : Z) (uids : list CUserID).

(** How a member function ends: by [return true] (with a value, for the
    steps inside it), by [return false], or by a C++ exception. *)
Inductive Res (A : Type) : Type :=
| Ok (a : A)
| RetFalse
| Thrown.
Arguments Ok {A} a.
Arguments RetFalse {A}.
Arguments Thrown {A}.

Section Exec.
Context {P : Primitives} {L : Ledger} {E : Engine}.

(** What a member function of a transaction reads and writes: the views
    [cw], the sink [state] and the step count [nRunStep] of the transaction
    object; [trace] is the history of the writes made so far, kept here to
    state in which order they happen (the code keeps no such log). *)
Record World : Type := mkWorld {
  cw : CCacheWrapper;
  state : CValidationState;
  nRunStep : Z;
  trace : list Event
}.

Definition M (A : Type) : Type := World -> World * Res A.

#[global] Instance M_ret : MRet M := fun A a w => (w, Ok a).

#[global] Instance M_bind : MBind M := fun A B f m w =>
  match m w with
  | (w', Ok a) => f a w'
  | (w', RetFalse) => (w', RetFalse)
  | (w', Thrown) => (w', Thrown)
  end.

(** [return state.DoS(level, ERRORMSG(...), code, reason);] *)
Definition reject {A} (level : Z) (c : RejectCode) (reason : string) : M A :=
  fun w =>
    ({| cw := cw w; state := DoS (mkRejection level c reason) (state w);
        nRunStep := nRunStep w; trace := trace w |}, RetFalse).

(** [return ERRORMSG(...);] and [return false;] *)
Definition return_false {A} : M A := fun w => (w, RetFalse).

Definition throw {A} : M A := fun w => (w, Thrown).

(** A checking macro of [tx.h]. *)
Definition check (o : option Rejection) : M unit :=
  match o with
  | None => mret tt
  | Some r => reject (rej_level r) (rej_code r) (rej_reason r)
  end.

(** [if (!b) return state.DoS(...)] *)
Definition require (b : bool) (level : Z) (c : RejectCode) (reason : string) : M unit :=
  if b then mret tt else reject level c reason.

Definition require_some {A} (o : option A) (level : Z) (c : RejectCode)
    (reason : string) : M A :=
  match o with Some a => mret a | None => reject level c reason end.

(** An accessor of a variant that throws on the wrong alternative. *)
Definition get_or_throw {A} (o : option A) : M A :=
  match o with Some a => mret a | None => throw end.

(** [if (!found) return state.DoS(level, ERRORMSG(fmt, arg), code, reason);]
    where the argument [arg] of the message goes through such an accessor:
    the arguments of [ERRORMSG] are evaluated before [state.DoS] is called,
    so on the wrong alternative the exception leaves the function first. *)
Definition require_some_logging {A B} (o : option A) (arg : option B)
    (level : Z) (c : RejectCode) (reason : string) : M A :=
  match o with
  | Some a => mret a
  | None => get_or_throw arg ;; reject level c reason
  end.

Definition emit (e : Event) (w : World) : World :=
  {| cw := cw w; state := state w; nRunStep := nRunStep w;
     trace := trace w ++ [e] |}.

Definition with_cw (c : CCacheWrapper) (w : World) : World :=
  {| cw := c; state := state w; nRunStep := nRunStep w; trace := trace w |}.

Definition with_accountCache (a : CAccountDBCache) (w : World) : World :=
  with_cw {| accountCache := a; contractCache := contractCache (cw w) |} w.

Definition with_contractCache (c : CContractDBCache) (w : World) : World :=
  with_cw {| accountCache := accountCache (cw w); contractCache := c |} w.

(** *** Calls on [cw.accountCache] and [cw.contractCache] *)

Definition GetAccount (uid : CUserID) : M (option CAccount) :=
  fun w => (w, Ok (accountCache_GetAccount (accountCache (cw w)) uid)).

Definition SetAccount (uid : CUserID) (a : CAccount) : M bool :=
  fun w =>
    let '(ok, ac) := accountCache_SetAccount (accountCache (cw w)) uid a in
    (with_accountCache ac (emit (EvSetAccount uid a) w), Ok ok).

Definition SaveAccount (a : CAccount) : M bool :=
  fun w =>
    let '(ok, ac) := accountCache_SaveAccount (accountCache (cw w)) a in
    (with_accountCache ac (emit (EvSaveAccount a) w), Ok ok).

Definition GetContract (r : CRegID) : M (option CContract) :=
  fun w => (w, Ok (contractCache_GetContract (contractCache (cw w)) r)).

Definition SaveContract (r : CRegID) (c : CContract) : M bool :=
  fun w =>
    let '(ok, cc) := contractCache_SaveContract (contractCache (cw w)) r c in
    (with_contractCache cc (emit (EvSaveContract r c) w), Ok ok).

Definition SetTxRelAccout (h : uint256) (vAddress : gset CKeyID) : M bool :=
  fun w =>
    let '(ok, cc) := contractCache_SetTxRelAccout (contractCache (cw w)) h vAddress in
    (with_contractCache cc (emit (EvSetTxRelAccout h vAddress) w), Ok ok).

Definition FuelRate : M Z :=
  fun w => (w, Ok (GetFuelRate (contractCache (cw w)))).

Definition set_nRunStep (n : Z) : M unit :=
  fun w =>
    ({| cw := cw w; state := state w; nRunStep := n; trace := trace w |}, Ok tt).

(** [if (!SaveTxAddresses(height, index, cw, state, uids)) return false;] *)
Definition DoSaveTxAddresses (height index : Z) (uids : list CUserID) : M unit :=
  fun w =>
    let '(ok, c, st) := SaveTxAddresses height index (cw w) (state w) uids in
    let w' := {| cw := c; state := st; nRunStep := nRunStep w;
                 trace := trace w ++ [EvSaveTxAddresses height index uids] |} in
    (w', if ok then Ok tt else RetFalse).

(** [vmRunEnv.ExecuteContract(pTx, height, cw, fuelRate, nRunStep)] *)
Definition RunContract (pTx : Tx) (height fuelRate : Z) : M VmOutcome :=
  fun w =>
    let out := ExecuteContract pTx height (cw w) fuelRate (nRunStep w) in
    ({| cw := vm_cw out; state := state w; nRunStep := vm_nRunStep out;
        trace := trace w ++
                   [EvExecuteContract pTx height (cw w) fuelRate (nRunStep w)] |},
     Ok out).

(** *** The string-based identifier resolver *)

(** [static bool GetKeyId(view, userIdStr, KeyId)]: the boolean returned
    and the value left in the out-parameter [KeyId]. *)
Definition GetKeyId (view : CAccountDBCache) (userIdStr : string) (KeyId : CKeyID)
    : bool * CKeyID :=
  let size := String.length userIdStr in
  if (size =? 6)%nat then
    let regId := CRegID_of_string userIdStr in
    let KeyId := CRegID_GetKeyId regId view in
    (negb (CKeyID_IsEmpty KeyId), KeyId)
  else if (size =? 34)%nat then
    let addr := userIdStr in
    let KeyId := CKeyID_of_address addr in
    (negb (CKeyID_IsEmpty KeyId), KeyId)
  else (false, KeyId).

End Exec.

(** ** Presentation *)

(** A [json_spirit] value, as far as [ToJson] builds one: a string or an
    integer; an [Object] is the vector of its named fields. *)
Inductive Value : Type :=
| Value_str (s : string)
| Value_int (z : Z).

Definition Pair : Type := string * Value.
Definition Object : Type := list Pair.

(** Formatting helpers of other translation units, and the macro of [tx.h]
    that fills the fields common to all transactions. *)
Class Presentation {L : Ledger} : Type := {
  uint256_GetHex : uint256 -> string;
  GetTxType : Tx -> string;
  CUserID_ToString : CUserID -> string;
  CKeyID_ToAddress : CKeyID -> string;
  HexStr : string -> string;
  IMPLEMENT_UNIVERSAL_ITEM_TO_JSON : CContractDeployTx -> CAccountDBCache -> Object
}.

(** [ERRORMSG] is a logging macro of another header.  Its value, the [ret]
    argument of [state.DoS], is [false], and the text it is handed only
    reaches the log: the text is not modelled.  Its arguments are evaluated
    all the same, and two of them can throw: [txUid.get<CRegID>()] at line
    364 and [appUid.get<CRegID>()] at line 283, which [require_some_logging]
    models.  At lines 298 and 373 the same accessor has already been
    called, in the condition of the [if], so the argument adds nothing; the
    other arguments ([ToString], [GetHex], the engine's message) are taken
    not to throw. *)

(** ** class CContractDeployTx *)

Module Deploy.
Section Defs.
Context {P : Primitives} {L : Ledger} {E : Engine}.

(** [double(llFees - llFuel) / (double(nTxSize) / 1000.0)] *)
Definition dFeePerKb (llFees llFuel nTxSize : Z) : spec_float :=
  Double.div (Double.of_Z (Uint64.sub llFees llFuel))
             (Double.div (Double.of_Z nTxSize) (Double.of_Z 1000)).

(** The block guarded by [GetFeatureForkVersion(height) == MAJOR_VER_R2]. *)
Definition CheckFeePerKb (tx : CContractDeployTx) (llFuel : Z) : M unit :=
  let nTxSize := GetSerializeSize (DeployTx tx) in
  let dFeePerKb := dFeePerKb (llFees (d_base tx)) llFuel nTxSize in
  require (negb (Double.ltb dFeePerKb (Double.of_Z nMinRelayTxFee)))
    100 REJECT_INVALID "fee-too-litter-in-fees/Kb".

(** [GetFuel(GetFuelRate(cw.contractCache))] *)
Definition fuelCost (tx : CContractDeployTx) (w : World) : Z :=
  GetFuel (DeployTx tx) (nRunStep w) (GetFuelRate (contractCache (cw w))).

Definition Fuel (tx : CContractDeployTx) : M Z :=
  fun w => (w, Ok (fuelCost tx w)).

Definition CheckTx (tx : CContractDeployTx) (height : Z) : M unit :=
  check (IMPLEMENT_CHECK_TX_FEE height (DeployTx tx)) ;;
  check (IMPLEMENT_CHECK_TX_REGID (uid_type (txUid (d_base tx)))) ;;
  require (CLuaContract_IsValid (contract tx))
    100 REJECT_INVALID "vmscript-invalid" ;;
  llFuel ← Fuel tx;
  require (negb (llFees (d_base tx) <? llFuel))
    100 REJECT_INVALID "fee-too-litter-to-afford-fuel" ;;
  (if GetFeatureForkVersion height =? MAJOR_VER_R2
   then CheckFeePerKb tx llFuel
   else mret tt) ;;
  o ← GetAccount (txUid (d_base tx));
  account ← require_some o 100 REJECT_INVALID "bad-getaccount";
  require (HaveOwnerPubKey account)
    100 REJECT_INVALID "bad-account-unregistered" ;;
  check (IMPLEMENT_CHECK_TX_SIGNATURE (DeployTx tx) (owner_pubkey account)).

(** The contract account built in [ExecuteTx]: a default [CAccount] whose
    [keyid], [regid] and [nickid] are then assigned. *)
Definition contractAccount (height index : Z) : CAccount :=
  let contractRegId := mkCRegID height index in
  let keyId := Hash160 (GetRegIdRaw contractRegId) in
  {| keyid := keyId;
     regid := Some contractRegId;
     nickid := None;
     owner_pubkey := owner_pubkey CAccount_default;
     tokens := tokens CAccount_default |}.

Definition ExecuteTx (tx : CContractDeployTx) (height index : Z) : M unit :=
  o ← GetAccount (txUid (d_base tx));
  account ← require_some o 100 UPDATE_ACCOUNT_FAIL "bad-read-accountdb";
  account ← require_some
    (OperateBalance account SYMB.WICC SUB_FREE (llFees (d_base tx)))
    100 UPDATE_ACCOUNT_FAIL "operate-account-failed";
  ok ← SetAccount (UidKeyID (keyid account)) account;
  require ok 100 UPDATE_ACCOUNT_FAIL "bad-save-accountdb" ;;
  let contractRegId := mkCRegID height index in
  ok ← SaveContract contractRegId
         (mkCContract LUA_VM (code (contract tx)) "" (memo (contract tx)));
  require ok 100 UPDATE_ACCOUNT_FAIL "bad-save-scriptdb" ;;
  ok ← SaveAccount (contractAccount height index);
  require ok 100 UPDATE_ACCOUNT_FAIL "bad-save-scriptdb" ;;
  set_nRunStep (GetContractSize (contract tx)) ;;
  DoSaveTxAddresses height index [txUid (d_base tx)].

(** The boolean returned and the set left in the out-parameter. *)
Definition GetInvolvedKeyIds (tx : CContractDeployTx) (c : CCacheWrapper)
    (keyIds : gset CKeyID) : bool * gset CKeyID :=
  match accountCache_GetKeyId (accountCache c) (txUid (d_base tx)) with
  | None => (false, keyIds)
  | Some keyId => (true, keyIds ∪ {[ keyId ]})
  end.

(** [ToJson]: the fields of the macro, then the code and the memo as they
    are. *)
Definition ToJson {Pr : Presentation} (tx : CContractDeployTx)
    (accountCache : CAccountDBCache) : Object :=
  let result := IMPLEMENT_UNIVERSAL_ITEM_TO_JSON tx accountCache in
  let result := (result ++ [("contract_code", Value_str (code (contract tx)))])%list in
  let result := (result ++ [("contract_memo", Value_str (memo (contract tx)))])%list in
  result.
End Defs.
End Deploy.

(** ** class CContractInvokeTx *)

Module Invoke.
Section Defs.
Context {P : Primitives} {L : Ledger} {E : Engine}.

Definition GetInvolvedKeyIds (tx : CContractInvokeTx) (c : CCacheWrapper)
    (keyIds : gset CKeyID) : bool * gset CKeyID :=
  match accountCache_GetKeyId (accountCache c) (txUid (i_base tx)) with
  | None => (false, keyIds)
  | Some keyId =>
      let keyIds := keyIds ∪ {[ keyId ]} in
      match accountCache_GetKeyId (accountCache c) (appUid tx) with
      | None => (false, keyIds)
      | Some desKeyId => (true, keyIds ∪ {[ desKeyId ]})
      end
  end.

(** The first block of [ExecuteTx], once the sender account is read: the
    account after the public key and, where one is minted, the registration
    identifier are set, and the flag [generateRegID]. *)
Definition PrepareSender (tx : CContractInvokeTx) (height index : Z)
    (view : CAccountDBCache) (srcAcct : CAccount) : CAccount * bool :=
  match txUid (i_base tx) with
  | UidPubKey pubKey =>
      let srcAcct := set_owner_pubkey srcAcct pubKey in
      match accountCache_GetRegId view (txUid (i_base tx)) with
      | None => (set_regid srcAcct (mkCRegID height index), true)
      | Some _ => (srcAcct, false)
      end
  | _ => (srcAcct, false)
  end.

(** The loop over [vmRunEnv.GetNewAccount()]. *)
Fixpoint UpdateAccounts (vAccount : list CAccount) (vAddress : gset CKeyID)
    : M (gset CKeyID) :=
  match vAccount with
  | [] => mret vAddress
  | itemAccount :: rest =>
      let vAddress := vAddress ∪ {[ keyid itemAccount ]} in
      let userId := UidKeyID (keyid itemAccount) in
      o ← GetAccount userId;
      match o with
      | Some _ => mret tt
      | None =>
          require (negb (CKeyID_IsNull (keyid itemAccount)))
            100 UPDATE_ACCOUNT_FAIL "bad-read-accountdb"
      end ;;
      ok ← SetAccount userId itemAccount;
      require ok 100 UPDATE_ACCOUNT_FAIL "bad-write-accountdb" ;;
      UpdateAccounts rest vAddress
  end.

(** The loop over [vmRunEnv.GetRawAppUserAccount()]; [itemKeyID] starts
    out default-constructed in every round. *)
Fixpoint ResolveAppUsers (view : CAccountDBCache)
    (vAppUserAccount : list CAppUserAccount) (vAddress : gset CKeyID)
    : gset CKeyID :=
  match vAppUserAccount with
  | [] => vAddress
  | itemUserAccount :: rest =>
      let '(bValid, itemKeyID) := GetKeyId view (GetAccUserId itemUserAccount) 0 in
      ResolveAppUsers view rest
        (if bValid then vAddress ∪ {[ itemKeyID ]} else vAddress)
  end.

Definition AccountView : M CAccountDBCache :=
  fun w => (w, Ok (accountCache (cw w))).

Definition ExecuteTx (tx : CContractInvokeTx) (height index : Z) : M unit :=
  o ← GetAccount (txUid (i_base tx));
  srcAcct ← require_some o 100 READ_ACCOUNT_FAIL "bad-read-accountdb";
  view ← AccountView;
  let '(srcAcct, generateRegID) := PrepareSender tx height index view srcAcct in
  let minusValue := Uint64.add (llFees (i_base tx)) (bcoins tx) in
  srcAcct ← require_some (OperateBalance srcAcct SYMB.WICC SUB_FREE minusValue)
    100 UPDATE_ACCOUNT_FAIL "operate-minus-account-failed";
  ok ← (if generateRegID : bool then SaveAccount srcAcct
        else SetAccount (UidKeyID (keyid srcAcct)) srcAcct);
  require ok 100 WRITE_ACCOUNT_FAIL "bad-write-accountdb" ;;
  o ← GetAccount (appUid tx);
  desAcct ← require_some_logging o (get_CRegID (appUid tx))
    100 READ_ACCOUNT_FAIL "bad-read-accountdb";
  desAcct ← require_some (OperateBalance desAcct SYMB.WICC ADD_FREE (bcoins tx))
    100 UPDATE_ACCOUNT_FAIL "operate-add-account-failed";
  ok ← SetAccount (appUid tx) desAcct;
  require ok 100 UPDATE_ACCOUNT_FAIL "bad-save-account" ;;
  appRegId ← get_or_throw (get_CRegID (appUid tx));
  o ← GetContract appRegId;
  _ ← require_some o 100 READ_ACCOUNT_FAIL "bad-read-script";
  fuelRate ← FuelRate;
  out ← RunContract (InvokeTx tx) height fuelRate;
  require (vm_success out)
    100 UPDATE_ACCOUNT_FAIL ("run-script-error: " ++ vm_error out) ;;
  vAddress ← UpdateAccounts (GetNewAccount out) ∅;
  view ← AccountView;
  let vAddress := ResolveAppUsers view (GetRawAppUserAccount out) vAddress in
  ok ← SetTxRelAccout (GetHash (InvokeTx tx)) vAddress;
  (if ok : bool then mret tt else return_false) ;;
  DoSaveTxAddresses height index [txUid (i_base tx); appUid tx].

Definition CheckTx (tx : CContractInvokeTx) (height : Z) : M unit :=
  check (IMPLEMENT_CHECK_TX_FEE height (InvokeTx tx)) ;;
  check (IMPLEMENT_CHECK_TX_ARGUMENTS (InvokeTx tx)) ;;
  check (IMPLEMENT_CHECK_TX_REGID_OR_PUBKEY (uid_type (txUid (i_base tx)))) ;;
  check (IMPLEMENT_CHECK_TX_APPID (uid_type (appUid tx))) ;;
  match txUid (i_base tx) with
  | UidPubKey pubKey =>
      require (CPubKey_IsFullyValid pubKey) 100 REJECT_INVALID "bad-publickey"
  | _ => mret tt
  end ;;
  o ← GetAccount (txUid (i_base tx));
  srcAccount ← require_some_logging o (get_CRegID (txUid (i_base tx)))
    100 REJECT_INVALID "bad-getaccount";
  require (HaveOwnerPubKey srcAccount)
    100 REJECT_INVALID "bad-account-unregistered" ;;
  appRegId ← get_or_throw (get_CRegID (appUid tx));
  o ← GetContract appRegId;
  _ ← require_some o 100 REJECT_INVALID "bad-read-script";
  let pubKey :=
    match txUid (i_base tx) with
    | UidPubKey pubKey => Some pubKey
    | _ => owner_pubkey srcAccount
    end in
  check (IMPLEMENT_CHECK_TX_SIGNATURE (InvokeTx tx) pubKey).


(** The write of the debited sender in [ExecuteTx]: [SaveAccount] when a
    registration identifier was minted, [SetAccount] otherwise. *)
Definition PersistSender (generateRegID : bool) (srcAcct : CAccount) : M bool :=
  if generateRegID then SaveAccount srcAcct
  else SetAccount (UidKeyID (keyid srcAcct)) srcAcct.

(** [ExecuteTx] from the call of the engine on (the lines after the contract
    record is read); [ExecuteTx] continues with these steps once the
    transfer is written and the contract record found. *)
Definition RunAndRecord (tx : CContractInvokeTx) (height index : Z) : M unit :=
  fuelRate ← FuelRate;
  out ← RunContract (InvokeTx tx) height fuelRate;
  require (vm_success out)
    100 UPDATE_ACCOUNT_FAIL ("run-script-error: " ++ vm_error out) ;;
  vAddress ← UpdateAccounts (GetNewAccount out) ∅;
  view ← AccountView;
  let vAddress := ResolveAppUsers view (GetRawAppUserAccount out) vAddress in
  ok ← SetTxRelAccout (GetHash (InvokeTx tx)) vAddress;
  (if ok : bool then mret tt else return_false) ;;
  DoSaveTxAddresses height index [txUid (i_base tx); appUid tx].

(** [ToJson].  The two key identifiers start out default-constructed and
    the result of [view.GetKeyId] is not looked at; a lookup that fails is
    taken to leave the key identifier as it was. *)
Definition ToJson {Pr : Presentation} (tx : CContractInvokeTx)
    (accountView : CAccountDBCache) : Object :=
  let view := accountView in
  let srcKeyId := default 0 (accountCache_GetKeyId view (txUid (i_base tx))) in
  let desKeyId := default 0 (accountCache_GetKeyId view (appUid tx)) in
  [ ("txid", Value_str (uint256_GetHex (GetHash (InvokeTx tx))));
    ("tx_type", Value_str (GetTxType (InvokeTx tx)));
    ("ver", Value_int (nVersion (i_base tx)));
    ("regid", Value_str (CUserID_ToString (txUid (i_base tx))));
    ("addr", Value_str (CKeyID_ToAddress srcKeyId));
    ("app_uid", Value_str (CUserID_ToString (appUid tx)));
    ("app_addr", Value_str (CKeyID_ToAddress desKeyId));
    ("money", Value_int (bcoins tx));
    ("fees", Value_int (llFees (i_base tx)));
    ("arguments", Value_str (HexStr (arguments tx)));
    ("valid_height", Value_int (nValidHeight (i_base tx))) ].
End Defs.
End Invoke.

(** ** An in-memory instance of the collaborators

    A small ledger, registry and engine on which the transactions can be
    run at concrete inputs: accounts in a list, found by key identifier,
    registration identifier or owner key; contracts in an association list;
    an engine that plays back the outcome stored with the registry. *)

#[global] Instance CRegID_eq_dec : EqDecision CRegID.
Proof. solve_decision. Defined.

#[global] Instance CRegID_countable : Countable CRegID :=
  inj_countable' (fun r => (reg_height r, reg_index r))
                 (fun p => mkCRegID (fst p) (snd p))
                 (fun r => match r with mkCRegID _ _ => eq_refl end).

Module Ref.

(** Binary digits of a positive number, and back. *)
Fixpoint digits (p : positive) : string :=
  match p with
  | xH => ""
  | xO q => String "0"%char (digits q)
  | xI q => String "1"%char (digits q)
  end.

Fixpoint undigits (s : string) : positive :=
  match s with
  | EmptyString => xH
  | String c r => if Ascii.eqb c "0"%char then xO (undigits r) else xI (undigits r)
  end.

Definition key_of_pubkey (p : CPubKey) : CKeyID :=
  Z.of_nat (String.length p) + 100.

Definition regid_of_string (s : string) : CRegID :=
  match s with
  | String a (String b _) =>
      mkCRegID (Z.of_nat (Ascii.nat_of_ascii a)) (Z.of_nat (Ascii.nat_of_ascii b))
  | _ => mkCRegID 0 0
  end.

Definition accept_if (b : bool) (reason : string) : option Rejection :=
  if b then None else Some (mkRejection 100 REJECT_INVALID reason).

Definition tx_base (t : Tx) : CBaseTx :=
  match t with DeployTx d => d_base d | InvokeTx i => i_base i end.

Definition is_regid (t : UidType) : bool :=
  match t with TRegID => true | _ => false end.

#[global] Instance primitives : Primitives := {|
  Hash160 := fun s => Zpos (undigits s);
  GetRegIdRaw := fun r => digits (encode r);
  CRegID_of_string := regid_of_string;
  CKeyID_of_address := fun s =>
    match s with String a _ => Z.of_nat (Ascii.nat_of_ascii a) | _ => 0 end;
  CPubKey_IsFullyValid := fun p => (String.length p =? 33)%nat;
  CLuaContract_IsValid := fun c => negb (String.length (code c) =? 0)%nat;
  GetContractSize := fun c => Z.of_nat (String.length (code c));
  GetFeatureForkVersion := fun height => if height <? 1000 then 1 else 2;
  MAJOR_VER_R2 := 2;
  nMinRelayTxFee := 1000;
  GetSerializeSize := fun t =>
    match t with
    | DeployTx d => 100 + Z.of_nat (String.length (code (contract d)))
    | InvokeTx i => 100 + Z.of_nat (String.length (arguments i))
    end;
  GetHash := fun t => llFees (tx_base t) + 7;
  GetFuel := fun t nRunStep fuelRate =>
    match t with
    | DeployTx d => (1 + Z.of_nat (String.length (code (contract d))) / 100) * fuelRate
    | InvokeTx _ => (1 + nRunStep / 100) * fuelRate
    end;
  IMPLEMENT_CHECK_TX_FEE := fun height t =>
    accept_if (1 <=? llFees (tx_base t)) "bad-tx-fee-toosmall";
  IMPLEMENT_CHECK_TX_ARGUMENTS := fun t =>
    match t with
    | InvokeTx i =>
        accept_if (String.length (arguments i) <=? 4096)%nat "arguments-size-toolarge"
    | _ => None
    end;
  IMPLEMENT_CHECK_TX_REGID := fun t => accept_if (is_regid t) "txUid-type-error";
  IMPLEMENT_CHECK_TX_REGID_OR_PUBKEY := fun t =>
    accept_if (is_regid t || is_TPubKey t) "txUid-type-error";
  IMPLEMENT_CHECK_TX_APPID := fun t => accept_if (is_regid t) "appUid-type-error";
  IMPLEMENT_CHECK_TX_SIGNATURE := fun t pubKey =>
    match pubKey with
    | Some _ => accept_if (negb (String.length (signature (tx_base t)) =? 0)%nat)
                  "bad-signscript-check"
    | None => accept_if false "bad-signscript-check"
    end
|}.

(** The outcome the engine plays back. *)
Record Playback : Type := mkPlayback {
  pb_success : bool;
  pb_error : string;
  pb_accounts : list CAccount;
  pb_appUsers : list CAppUserAccount
}.

Record AccountDB : Type := mkAccountDB {
  accounts : list CAccount;
  acc_writable : bool
}.

Record ContractDB : Type := mkContractDB {
  contracts : list (CRegID * CContract);
  relAccounts : list (uint256 * gset CKeyID);
  fuel_rate : Z;
  rel_writable : bool;
  playback : Playback
}.

Definition matches (uid : CUserID) (a : CAccount) : bool :=
  match uid with
  | UidKeyID k => bool_decide (keyid a = k)
  | UidRegID r => bool_decide (regid a = Some r)
  | UidPubKey p => bool_decide (keyid a = key_of_pubkey p)
  | _ => false
  end.

Definition lookup_account (db : AccountDB) (uid : CUserID) : option CAccount :=
  List.find (matches uid) (accounts db).

Definition store_account (db : AccountDB) (a : CAccount) : bool * AccountDB :=
  if acc_writable db then
    (true,
     mkAccountDB
       (a :: List.filter (fun b => negb (bool_decide (keyid b = keyid a))) (accounts db))
       true)
  else (false, db).

Definition lookup_keyid (db : AccountDB) (uid : CUserID) : option CKeyID :=
  match uid with
  | UidKeyID k => Some k
  | UidPubKey p => Some (key_of_pubkey p)
  | _ => keyid <$> lookup_account db uid
  end.

Definition lookup_contract (db : ContractDB) (r : CRegID) : option CContract :=
  snd <$> List.find (fun rc => bool_decide (fst rc = r)) (contracts db).

#[global] Instance ledger : Ledger := {|
  CAccountDBCache := AccountDB;
  CContractDBCache := ContractDB;
  accountCache_GetAccount := lookup_account;
  accountCache_GetKeyId := lookup_keyid;
  accountCache_GetRegId := fun db uid => lookup_account db uid ≫= regid;
  accountCache_SetAccount := fun db _ a => store_account db a;
  accountCache_SaveAccount := store_account;
  CRegID_GetKeyId := fun r db =>
    default 0 (keyid <$> lookup_account db (UidRegID r));
  contractCache_GetContract := lookup_contract;
  contractCache_SaveContract := fun db r c =>
    (true, mkContractDB ((r, c) :: contracts db) (relAccounts db) (fuel_rate db)
             (rel_writable db) (playback db));
  contractCache_SetTxRelAccout := fun db h s =>
    if rel_writable db then
      (true, mkContractDB (contracts db) ((h, s) :: relAccounts db) (fuel_rate db)
               true (playback db))
    else (false, db);
  GetFuelRate := fuel_rate
|}.

#[global] Instance engine : Engine := {|
  ExecuteContract := fun pTx height c fuelRate nRunStep =>
    let pb := playback (contractCache c) in
    {| vm_success := pb_success pb;
       vm_fuel := nRunStep * fuelRate;
       vm_error := pb_error pb;
       vm_cw := c;
       vm_nRunStep := nRunStep;
       GetNewAccount := pb_accounts pb;
       GetRawAppUserAccount := pb_appUsers pb |};
  SaveTxAddresses := fun height index c st uids => (true, c, st)
|}.

Definition world (adb : AccountDB) (cdb : ContractDB) : World :=
  {| cw := {| accountCache := adb; contractCache := cdb |};
     state := CValidationState_init;
     nRunStep := 0;
     trace := [] |}.

Definition account (k : CKeyID) (r : option CRegID) (pk : option CPubKey)
    (wicc : Z) : CAccount :=
  {| keyid := k; regid := r; nickid := None; owner_pubkey := pk;
     tokens := {[ SYMB.WICC := wicc ]} |}.

Definition quiet : Playback := mkPlayback true "" [] [].

(** The reasons the checking macros of this instance reject with. *)
Definition reasons : list string :=
  ["bad-tx-fee-toosmall"; "arguments-size-toolarge"; "txUid-type-error";
   "appUid-type-error"; "bad-signscript-check"].

End Ref.

(** ** Concrete ledgers and transactions *)

Module Scenario.

(** A registered sender with 1000 WICC and a deployed contract. *)
Definition senderRegId : CRegID := mkCRegID 10 1.
Definition appRegId : CRegID := mkCRegID 20 2.
Definition sender : CAccount := Ref.account 83 (Some senderRegId) (Some "K") 1000.
Definition app : CAccount := Ref.account 600 (Some appRegId) None 0.

Definition accountDB : Ref.AccountDB := Ref.mkAccountDB [sender; app] true.

Definition contractDB (pb : Ref.Playback) (rel_writable : bool) : Ref.ContractDB :=
  Ref.mkContractDB [(appRegId, mkCContract LUA_VM "mylib" "" "")] [] 5
    rel_writable pb.

Definition w0 : World := Ref.world accountDB (contractDB Ref.quiet true).

Definition deploy (fee : Z) (script : string) : CContractDeployTx :=
  mkDeployTx (mkCBaseTx 1 0 (UidRegID senderRegId) fee "sig")
    (mkCLuaContract script "memo").

Definition invoke_at (dest : CUserID) (uid : CUserID) (fee value : Z)
    : CContractInvokeTx :=
  mkInvokeTx (mkCBaseTx 1 0 uid fee "sig") dest value "".

Definition invoke : CUserID → Z → Z → CContractInvokeTx :=
  invoke_at (UidRegID appRegId).

(** The same ledger over a registry whose write of the involved-address
    set fails. *)
Definition w_rel_fails : World := Ref.world accountDB (contractDB Ref.quiet false).

(** Fee 10 and value 50 from the registered sender to the contract. *)
Definition tx_10_50 : CContractInvokeTx := invoke (UidRegID senderRegId) 10 50.

(** Fee 10000 and value [2^64 - 10000]: the two add up to [2^64]. *)
Definition tx_wrap : CContractInvokeTx :=
  invoke (UidRegID senderRegId) 10000 (Uint64.modulus - 10000).


(** A public key of 33 bytes whose account holds 1000 WICC and has no
    registration identifier yet. *)
Definition pubKey : CPubKey := "02aaaaaaaaaaaaaaaaaaaaaaaaaaaaaaa".
Definition newcomer : CAccount :=
  Ref.account (Ref.key_of_pubkey pubKey) None (Some pubKey) 1000.

Definition w_newcomer : World :=
  Ref.world (Ref.mkAccountDB [newcomer; sender; app] true)
    (contractDB Ref.quiet true).

Definition tx_newcomer : CContractInvokeTx := invoke (UidPubKey pubKey) 10 50.

(** A registry whose engine reports no account and one application
    sub-account, owned by the address of the sender (34 bytes). *)
Definition senderAddress : string := "Sender-address-in-34-bytes-base58x".
Definition w_owner : World :=
  Ref.world accountDB
    (contractDB (Ref.mkPlayback true "" [] [mkCAppUserAccount senderAddress]) true).

(** The free WICC balance of the account with key identifier [k]. *)
Definition balance (w : World) (k : CKeyID) : Z :=
  match accountCache_GetAccount (accountCache (cw w)) (UidKeyID k) with
  | Some a => free_amount a SYMB.WICC
  | None => 0
  end.

(** A script of 80 bytes. *)
Definition script80 : string :=
  "mylib = require 'mylib' -- 01234567890123456789012345678901234567890123456789012".

End Scenario.

(** ** Notions used in the statements *)

Section Notions.
Context {P : Primitives} {L : Ledger} {E : Engine}.

(** The function returned false and the sink holds [reason]. *)
Definition rejected_with {A} (reason : string) (out : World * Res A) : Prop :=
  out.2 = RetFalse ∧ snd <$> entry (state out.1) = Some reason.

(** No checking macro of [tx.h] rejects with [reason]. *)
Definition macros_avoid (reason : string) : Prop :=
  (∀ h t r, IMPLEMENT_CHECK_TX_FEE h t = Some r → rej_reason r ≠ reason) ∧
  (∀ t r, IMPLEMENT_CHECK_TX_ARGUMENTS t = Some r → rej_reason r ≠ reason) ∧
  (∀ t r, IMPLEMENT_CHECK_TX_REGID t = Some r → rej_reason r ≠ reason) ∧
  (∀ t r, IMPLEMENT_CHECK_TX_REGID_OR_PUBKEY t = Some r → rej_reason r ≠ reason) ∧
  (∀ t r, IMPLEMENT_CHECK_TX_APPID t = Some r → rej_reason r ≠ reason) ∧
  (∀ t k r, IMPLEMENT_CHECK_TX_SIGNATURE t k = Some r → rej_reason r ≠ reason).

(** The events a run added to the history [w] started with. *)
Definition added (w : World) (out : World * Res unit) (l : list Event) : Prop :=
  trace out.1 = (trace w ++ l)%list.

(** [m] leaves the views, the step count and the history as they were. *)
Definition read_only {A} (m : M A) : Prop :=
  ∀ w, cw (m w).1 = cw w ∧ nRunStep (m w).1 = nRunStep w ∧ trace (m w).1 = trace w.

(** [m] only appends to the history of writes. *)
Definition extends {A} (m : M A) : Prop :=
  ∀ w, ∃ l, trace (m w).1 = (trace w ++ l)%list.

(** The write that persists the debited sender of an invoke transaction:
    the create path when a registration identifier was minted, the update
    path otherwise. *)
Definition persist_sender (generateRegID : bool) (srcAcct : CAccount) : Event :=
  if generateRegID then EvSaveAccount srcAcct
  else EvSetAccount (UidKeyID (keyid srcAcct)) srcAcct.

(** The involved-address sets a history persisted, with the hash each was
    stored under. *)
Definition rel_writes (l : list Event) : list (uint256 * gset CKeyID) :=
  omap (λ e, match e with
             | EvSetTxRelAccout h vAddress => Some (h, vAddress)
             | _ => None
             end) l.

(** The calls of the engine in a history, with the arguments of each. *)
Definition engine_calls (l : list Event)
    : list (Tx * Z * CCacheWrapper * Z * Z) :=
  omap (λ e, match e with
             | EvExecuteContract pTx height c fuelRate steps =>
                 Some (pTx, height, c, fuelRate, steps)
             | _ => None
             end) l.

(** The account view after the writes of the loop over the accounts the
    engine returned. *)
Definition accounts_written (view : CAccountDBCache) (vAccount : list CAccount)
    : CAccountDBCache :=
  fold_left
    (λ view a, (accountCache_SetAccount view (UidKeyID (keyid a)) a).2)
    vAccount view.

(** The writes of the loop over the accounts the engine returned. *)
Definition account_writes (vAccount : list CAccount) : list Event :=
  (λ a, EvSetAccount (UidKeyID (keyid a)) a) <$> vAccount.

(** Whenever [m] returns false, the sink holds an entry. *)
Definition reports {A} (m : M A) : Prop :=
  ∀ w, (m w).2 = RetFalse → populated (state (m w).1) = true.

(** The shapes of what a run of the invoke [ExecuteTx] adds to the history:
    nothing; or the write of the debited sender; or that and the write of
    the credited destination; or these two, then the call of the engine and
    what follows it. *)
Definition invoke_history (tx : CContractInvokeTx) (height index : Z) (w : World)
    (l : list Event) : Prop :=
  l = [] ∨
  ∃ srcAcct debited,
    accountCache_GetAccount (accountCache (cw w)) (txUid (i_base tx)) = Some srcAcct ∧
    OperateBalance
      (Invoke.PrepareSender tx height index (accountCache (cw w)) srcAcct).1
      SYMB.WICC SUB_FREE (Uint64.add (llFees (i_base tx)) (bcoins tx))
      = Some debited ∧
    let persist :=
      persist_sender
        (Invoke.PrepareSender tx height index (accountCache (cw w)) srcAcct).2
        debited in
    (l = [persist] ∨
     ∃ desAcct credited,
       OperateBalance desAcct SYMB.WICC ADD_FREE (bcoins tx) = Some credited ∧
       (l = [persist; EvSetAccount (appUid tx) credited] ∨
        ∃ c fuelRate steps rest,
          l = persist :: EvSetAccount (appUid tx) credited ::
              EvExecuteContract (InvokeTx tx) height c fuelRate steps :: rest)).


(** The three checks of the deploy [CheckTx] that come before the fuel
    check all pass. *)
Definition deploy_reaches_fuel_check (tx : CContractDeployTx) (height : Z) : Prop :=
  IMPLEMENT_CHECK_TX_FEE height (DeployTx tx) = None ∧
  IMPLEMENT_CHECK_TX_REGID (uid_type (txUid (d_base tx))) = None ∧
  CLuaContract_IsValid (contract tx) = true.
End Notions.

(** ** Further notions *)

Section Outcomes.
Context {P : Primitives} {L : Ledger} {E : Engine}.

(** The function returned true. *)
Definition accepts (out : World * Res unit) : Prop := out.2 = Ok tt.

(** A step that, when it goes through, leaves everything as it was. *)
Definition silent_ok {A} (m : M A) : Prop :=
  ∀ w w' a, m w = (w', Ok a) → w' = w.

(** A step that raises no exception. *)
Definition nothrow {A} (m : M A) : Prop := ∀ w, (m w).2 ≠ Thrown.

(** The field of an [Object] with a given name: the first one. *)
Fixpoint find_value (name : string) (obj : Object) : option Value :=
  match obj with
  | [] => None
  | (n, v) :: rest => if String.eqb n name then Some v else find_value name rest
  end.

(** The four writes of a deploy [ExecuteTx], in the order made. *)
Definition deploy_writes (tx : CContractDeployTx) (height index : Z)
    (debited : CAccount) : list Event :=
  [EvSetAccount (UidKeyID (keyid debited)) debited;
   EvSaveContract (mkCRegID height index)
     (mkCContract LUA_VM (code (contract tx)) "" (memo (contract tx)));
   EvSaveAccount (Deploy.contractAccount height index);
   EvSaveTxAddresses height index [txUid (d_base tx)]].

(** The sink after one rejection with severity 100. *)
Definition rejected_in (st : CValidationState) (c : RejectCode) (reason : string)
    (st' : CValidationState) : Prop :=
  entry st' = Some (c, reason) ∧ nDoS st' = nDoS st + 100.

(** The runs of a deploy [ExecuteTx], one case for each place it can leave
    at: [w1], [w2] and [w3] are the states after the writes of the debited
    sender, of the contract record and of the contract account. *)
Inductive deploy_run (tx : CContractDeployTx) (height index : Z) (w : World)
    : World * Res unit → Prop :=
| deploy_no_sender :
    accountCache_GetAccount (accountCache (cw w)) (txUid (d_base tx)) = None →
    deploy_run tx height index w
      (reject 100 UPDATE_ACCOUNT_FAIL "bad-read-accountdb" w)
| deploy_no_funds account :
    accountCache_GetAccount (accountCache (cw w)) (txUid (d_base tx)) = Some account →
    OperateBalance account SYMB.WICC SUB_FREE (llFees (d_base tx)) = None →
    deploy_run tx height index w
      (reject 100 UPDATE_ACCOUNT_FAIL "operate-account-failed" w)
| deploy_sender_not_saved account debited w1 :
    accountCache_GetAccount (accountCache (cw w)) (txUid (d_base tx)) = Some account →
    OperateBalance account SYMB.WICC SUB_FREE (llFees (d_base tx)) = Some debited →
    SetAccount (UidKeyID (keyid debited)) debited w = (w1, Ok false) →
    deploy_run tx height index w
      (reject 100 UPDATE_ACCOUNT_FAIL "bad-save-accountdb" w1)
| deploy_contract_not_saved account debited w1 w2 :
    accountCache_GetAccount (accountCache (cw w)) (txUid (d_base tx)) = Some account →
    OperateBalance account SYMB.WICC SUB_FREE (llFees (d_base tx)) = Some debited →
    SetAccount (UidKeyID (keyid debited)) debited w = (w1, Ok true) →
    SaveContract (mkCRegID height index)
      (mkCContract LUA_VM (code (contract tx)) "" (memo (contract tx))) w1
      = (w2, Ok false) →
    deploy_run tx height index w
      (reject 100 UPDATE_ACCOUNT_FAIL "bad-save-scriptdb" w2)
| deploy_account_not_saved account debited w1 w2 w3 :
    accountCache_GetAccount (accountCache (cw w)) (txUid (d_base tx)) = Some account →
    OperateBalance account SYMB.WICC SUB_FREE (llFees (d_base tx)) = Some debited →
    SetAccount (UidKeyID (keyid debited)) debited w = (w1, Ok true) →
    SaveContract (mkCRegID height index)
      (mkCContract LUA_VM (code (contract tx)) "" (memo (contract tx))) w1
      = (w2, Ok true) →
    SaveAccount (Deploy.contractAccount height index) w2 = (w3, Ok false) →
    deploy_run tx height index w
      (reject 100 UPDATE_ACCOUNT_FAIL "bad-save-scriptdb" w3)
| deploy_all_saved account debited w1 w2 w3 :
    accountCache_GetAccount (accountCache (cw w)) (txUid (d_base tx)) = Some account →
    OperateBalance account SYMB.WICC SUB_FREE (llFees (d_base tx)) = Some debited →
    SetAccount (UidKeyID (keyid debited)) debited w = (w1, Ok true) →
    SaveContract (mkCRegID height index)
      (mkCContract LUA_VM (code (contract tx)) "" (memo (contract tx))) w1
      = (w2, Ok true) →
    SaveAccount (Deploy.contractAccount height index) w2 = (w3, Ok true) →
    deploy_run tx height index w
      (DoSaveTxAddresses height index [txUid (d_base tx)]
         (set_nRunStep (GetContractSize (contract tx)) w3).1).

(** The reasons of the failure exits written in the deploy [ExecuteTx]. *)
Definition deploy_ExecuteTx_reasons : list string :=
  ["bad-read-accountdb"; "operate-account-failed"; "bad-save-accountdb";
   "bad-save-scriptdb"].

(** The runs of an invoke [ExecuteTx] up to the call of the engine, one
    case for each place it can leave at: [w1] and [w2] are the states after
    the writes of the debited sender and of the credited destination.  A
    missing destination account leaves through [state.DoS] when [appUid]
    holds a registration identifier and through the exception of the
    accessor in the log message otherwise. *)
Inductive invoke_run (tx : CContractInvokeTx) (height index : Z) (w : World)
    : World * Res unit → Prop :=
| invoke_no_sender :
    accountCache_GetAccount (accountCache (cw w)) (txUid (i_base tx)) = None →
    invoke_run tx height index w
      (reject 100 READ_ACCOUNT_FAIL "bad-read-accountdb" w)
| invoke_no_funds srcAcct :
    accountCache_GetAccount (accountCache (cw w)) (txUid (i_base tx)) = Some srcAcct →
    OperateBalance
      (Invoke.PrepareSender tx height index (accountCache (cw w)) srcAcct).1
      SYMB.WICC SUB_FREE (Uint64.add (llFees (i_base tx)) (bcoins tx)) = None →
    invoke_run tx height index w
      (reject 100 UPDATE_ACCOUNT_FAIL "operate-minus-account-failed" w)
| invoke_sender_not_written srcAcct debited w1 :
    accountCache_GetAccount (accountCache (cw w)) (txUid (i_base tx)) = Some srcAcct →
    OperateBalance
      (Invoke.PrepareSender tx height index (accountCache (cw w)) srcAcct).1
      SYMB.WICC SUB_FREE (Uint64.add (llFees (i_base tx)) (bcoins tx))
      = Some debited →
    Invoke.PersistSender
      (Invoke.PrepareSender tx height index (accountCache (cw w)) srcAcct).2
      debited w = (w1, Ok false) →
    invoke_run tx height index w
      (reject 100 WRITE_ACCOUNT_FAIL "bad-write-accountdb" w1)
| invoke_no_destination srcAcct debited w1 appRegId :
    accountCache_GetAccount (accountCache (cw w)) (txUid (i_base tx)) = Some srcAcct →
    OperateBalance
      (Invoke.PrepareSender tx height index (accountCache (cw w)) srcAcct).1
      SYMB.WICC SUB_FREE (Uint64.add (llFees (i_base tx)) (bcoins tx))
      = Some debited →
    Invoke.PersistSender
      (Invoke.PrepareSender tx height index (accountCache (cw w)) srcAcct).2
      debited w = (w1, Ok true) →
    accountCache_GetAccount (accountCache (cw w1)) (appUid tx) = None →
    get_CRegID (appUid tx) = Some appRegId →
    invoke_run tx height index w
      (reject 100 READ_ACCOUNT_FAIL "bad-read-accountdb" w1)
| invoke_no_destination_throws srcAcct debited w1 :
    accountCache_GetAccount (accountCache (cw w)) (txUid (i_base tx)) = Some srcAcct →
    OperateBalance
      (Invoke.PrepareSender tx height index (accountCache (cw w)) srcAcct).1
      SYMB.WICC SUB_FREE (Uint64.add (llFees (i_base tx)) (bcoins tx))
      = Some debited →
    Invoke.PersistSender
      (Invoke.PrepareSender tx height index (accountCache (cw w)) srcAcct).2
      debited w = (w1, Ok true) →
    accountCache_GetAccount (accountCache (cw w1)) (appUid tx) = None →
    get_CRegID (appUid tx) = None →
    invoke_run tx height index w (w1, Thrown)
| invoke_no_credit srcAcct debited w1 desAcct :
    accountCache_GetAccount (accountCache (cw w)) (txUid (i_base tx)) = Some srcAcct →
    OperateBalance
      (Invoke.PrepareSender tx height index (accountCache (cw w)) srcAcct).1
      SYMB.WICC SUB_FREE (Uint64.add (llFees (i_base tx)) (bcoins tx))
      = Some debited →
    Invoke.PersistSender
      (Invoke.PrepareSender tx height index (accountCache (cw w)) srcAcct).2
      debited w = (w1, Ok true) →
    accountCache_GetAccount (accountCache (cw w1)) (appUid tx) = Some desAcct →
    OperateBalance desAcct SYMB.WICC ADD_FREE (bcoins tx) = None →
    invoke_run tx height index w
      (reject 100 UPDATE_ACCOUNT_FAIL "operate-add-account-failed" w1)
| invoke_destination_not_written srcAcct debited w1 desAcct credited w2 :
    accountCache_GetAccount (accountCache (cw w)) (txUid (i_base tx)) = Some srcAcct →
    OperateBalance
      (Invoke.PrepareSender tx height index (accountCache (cw w)) srcAcct).1
      SYMB.WICC SUB_FREE (Uint64.add (llFees (i_base tx)) (bcoins tx))
      = Some debited →
    Invoke.PersistSender
      (Invoke.PrepareSender tx height index (accountCache (cw w)) srcAcct).2
      debited w = (w1, Ok true) →
    accountCache_GetAccount (accountCache (cw w1)) (appUid tx) = Some desAcct →
    OperateBalance desAcct SYMB.WICC ADD_FREE (bcoins tx) = Some credited →
    SetAccount (appUid tx) credited w1 = (w2, Ok false) →
    invoke_run tx height index w
      (reject 100 UPDATE_ACCOUNT_FAIL "bad-save-account" w2)
| invoke_destination_no_regid srcAcct debited w1 desAcct credited w2 :
    accountCache_GetAccount (accountCache (cw w)) (txUid (i_base tx)) = Some srcAcct →
    OperateBalance
      (Invoke.PrepareSender tx height index (accountCache (cw w)) srcAcct).1
      SYMB.WICC SUB_FREE (Uint64.add (llFees (i_base tx)) (bcoins tx))
      = Some debited →
    Invoke.PersistSender
      (Invoke.PrepareSender tx height index (accountCache (cw w)) srcAcct).2
      debited w = (w1, Ok true) →
    accountCache_GetAccount (accountCache (cw w1)) (appUid tx) = Some desAcct →
    OperateBalance desAcct SYMB.WICC ADD_FREE (bcoins tx) = Some credited →
    SetAccount (appUid tx) credited w1 = (w2, Ok true) →
    get_CRegID (appUid tx) = None →
    invoke_run tx height index w (w2, Thrown)
| invoke_no_contract srcAcct debited w1 desAcct credited w2 appRegId :
    accountCache_GetAccount (accountCache (cw w)) (txUid (i_base tx)) = Some srcAcct →
    OperateBalance
      (Invoke.PrepareSender tx height index (accountCache (cw w)) srcAcct).1
      SYMB.WICC SUB_FREE (Uint64.add (llFees (i_base tx)) (bcoins tx))
      = Some debited →
    Invoke.PersistSender
      (Invoke.PrepareSender tx height index (accountCache (cw w)) srcAcct).2
      debited w = (w1, Ok true) →
    accountCache_GetAccount (accountCache (cw w1)) (appUid tx) = Some desAcct →
    OperateBalance desAcct SYMB.WICC ADD_FREE (bcoins tx) = Some credited →
    SetAccount (appUid tx) credited w1 = (w2, Ok true) →
    get_CRegID (appUid tx) = Some appRegId →
    contractCache_GetContract (contractCache (cw w2)) appRegId = None →
    invoke_run tx height index w
      (reject 100 READ_ACCOUNT_FAIL "bad-read-script" w2)
| invoke_engine_reached srcAcct debited w1 desAcct credited w2 appRegId c :
    accountCache_GetAccount (accountCache (cw w)) (txUid (i_base tx)) = Some srcAcct →
    OperateBalance
      (Invoke.PrepareSender tx height index (accountCache (cw w)) srcAcct).1
      SYMB.WICC SUB_FREE (Uint64.add (llFees (i_base tx)) (bcoins tx))
      = Some debited →
    Invoke.PersistSender
      (Invoke.PrepareSender tx height index (accountCache (cw w)) srcAcct).2
      debited w = (w1, Ok true) →
    accountCache_GetAccount (accountCache (cw w1)) (appUid tx) = Some desAcct →
    OperateBalance desAcct SYMB.WICC ADD_FREE (bcoins tx) = Some credited →
    SetAccount (appUid tx) credited w1 = (w2, Ok true) →
    get_CRegID (appUid tx) = Some appRegId →
    contractCache_GetContract (contractCache (cw w2)) appRegId = Some c →
    invoke_run tx height index w (Invoke.RunAndRecord tx height index w2).

(** The reasons of the failure exits written in the invoke [ExecuteTx]
    before the call of the engine. *)
Definition invoke_transfer_reasons : list (RejectCode * string) :=
  [(READ_ACCOUNT_FAIL, "bad-read-accountdb");
   (UPDATE_ACCOUNT_FAIL, "operate-minus-account-failed");
   (WRITE_ACCOUNT_FAIL, "bad-write-accountdb");
   (UPDATE_ACCOUNT_FAIL, "operate-add-account-failed");
   (UPDATE_ACCOUNT_FAIL, "bad-save-account");
   (READ_ACCOUNT_FAIL, "bad-read-script")].

(** A step that does not call the engine: it keeps the step count, and what
    it adds to the history holds no call of the engine. *)
Definition no_engine {A} (m : M A) : Prop :=
  ∀ w, nRunStep (m w).1 = nRunStep w ∧
       ∃ l, trace (m w).1 = (trace w ++ l)%list ∧ engine_calls l = [].

(** Whenever [m] returns false it has recorded one rejection [r], and [r]
    is one a checking macro of [tx.h] handed out ([macro r]) or has
    severity 100, code [REJECT_INVALID] and a reason among [own]. *)
Definition rejects_from (macro : Rejection → Prop) (own : list string)
    {A} (m : M A) : Prop :=
  ∀ w, (m w).2 = RetFalse →
       ∃ r, state (m w).1 = DoS r (state w) ∧
            (macro r ∨
             (rej_level r = 100 ∧ rej_code r = REJECT_INVALID ∧
              rej_reason r ∈ own)).

(** The rejections the checking macros hand out in the deploy [CheckTx]. *)
Definition deploy_CheckTx_macros (tx : CContractDeployTx) (height : Z)
    (r : Rejection) : Prop :=
  IMPLEMENT_CHECK_TX_FEE height (DeployTx tx) = Some r ∨
  IMPLEMENT_CHECK_TX_REGID (uid_type (txUid (d_base tx))) = Some r ∨
  ∃ pubKey, IMPLEMENT_CHECK_TX_SIGNATURE (DeployTx tx) pubKey = Some r.

(** The reasons of the failure exits written in the deploy [CheckTx]. *)
Definition deploy_CheckTx_reasons : list string :=
  ["vmscript-invalid"; "fee-too-litter-to-afford-fuel";
   "fee-too-litter-in-fees/Kb"; "bad-getaccount"; "bad-account-unregistered"].

(** The rejections the checking macros hand out in the invoke [CheckTx]. *)
Definition invoke_CheckTx_macros (tx : CContractInvokeTx) (height : Z)
    (r : Rejection) : Prop :=
  IMPLEMENT_CHECK_TX_FEE height (InvokeTx tx) = Some r ∨
  IMPLEMENT_CHECK_TX_ARGUMENTS (InvokeTx tx) = Some r ∨
  IMPLEMENT_CHECK_TX_REGID_OR_PUBKEY (uid_type (txUid (i_base tx))) = Some r ∨
  IMPLEMENT_CHECK_TX_APPID (uid_type (appUid tx)) = Some r ∨
  ∃ pubKey, IMPLEMENT_CHECK_TX_SIGNATURE (InvokeTx tx) pubKey = Some r.

(** The reasons of the failure exits written in the invoke [CheckTx]. *)
Definition invoke_CheckTx_reasons : list string :=
  ["bad-publickey"; "bad-getaccount"; "bad-account-unregistered";
   "bad-read-script"].

End Outcomes.

(** ** Further scenarios *)

Module Cases.

(** The sender names its own account, which holds no contract record, as
    the destination. *)
Definition tx_self : CContractInvokeTx :=
  Scenario.invoke_at (UidRegID Scenario.senderRegId)
    (UidRegID Scenario.senderRegId) 10 50.

(** The ledger of the scenarios over an engine that fails with the message
    "boom". *)
Definition w_engine_fails : World :=
  Ref.world Scenario.accountDB
    (Scenario.contractDB (Ref.mkPlayback false "boom" [] []) true).

(** A value of 5000, more than the 1000 the sender holds. *)
Definition tx_too_much : CContractInvokeTx :=
  Scenario.invoke (UidRegID Scenario.senderRegId) 10 5000.


End Cases.

(** ** The identifier resolver *)

Section Resolver.
Context {P : Primitives} {L : Ledger}.

Lemma GetKeyId_short view s k0 :
  String.length s = 6%nat →
  GetKeyId view s k0 =
    (negb (CKeyID_IsEmpty (CRegID_GetKeyId (CRegID_of_string s) view)),
     CRegID_GetKeyId (CRegID_of_string s) view).
Proof. intros Hlen. unfold GetKeyId. now rewrite Hlen. Qed.

Lemma GetKeyId_long view s k0 :
  String.length s = 34%nat →
  GetKeyId view s k0 =
    (negb (CKeyID_IsEmpty (CKeyID_of_address s)), CKeyID_of_address s).
Proof. intros Hlen. unfold GetKeyId. now rewrite Hlen. Qed.

Lemma GetKeyId_other view s k0 :
  String.length s ≠ 6%nat → String.length s ≠ 34%nat →
  GetKeyId view s k0 = (false, k0).
Proof.
  intros H6 H34. unfold GetKeyId.
  apply Nat.eqb_neq in H6, H34. now rewrite H6, H34.
Qed.

End Resolver.

(** ** Running the monad *)

Section Running.
Context {L : Ledger}.

Lemma bind_unfold {A B} (m : M A) (k : A → M B) (w : World) :
  (m ≫= k) w =
  match m w with
  | (w', Ok a) => k a w'
  | (w', RetFalse) => (w', RetFalse)
  | (w', Thrown) => (w', Thrown)
  end.
Proof. reflexivity. Qed.

Lemma bind_Ok {A B} (m : M A) (k : A → M B) (w w' : World) (a : A) :
  m w = (w', Ok a) → (m ≫= k) w = k a w'.
Proof. intros H. rewrite bind_unfold. now rewrite H. Qed.

(** A run that returned true went through every step of the sequence. *)
Lemma bind_Ok_inv {A B} (m : M A) (k : A → M B) (w w' : World) (b : B) :
  (m ≫= k) w = (w', Ok b) →
  ∃ a w1, m w = (w1, Ok a) ∧ k a w1 = (w', Ok b).
Proof.
  rewrite bind_unfold. destruct (m w) as [w1 [a| |]]; intros H.
  - eauto.
  - discriminate.
  - discriminate.
Qed.

Lemma require_Ok_inv b level c reason (w w' : World) u :
  require b level c reason w = (w', Ok u) → b = true ∧ w' = w.
Proof. destruct b; cbn; intros H; [now inversion H | discriminate]. Qed.

Lemma require_some_Ok_inv {A} (o : option A) level c reason (w w' : World) a :
  require_some o level c reason w = (w', Ok a) → o = Some a ∧ w' = w.
Proof. destruct o; cbn; intros H; [now inversion H | discriminate]. Qed.



Lemma require_some_logging_None {A B} (arg : option B) level c reason (w : World) :
  require_some_logging (A:=A) None arg level c reason w
  = match arg with
    | Some _ => reject level c reason w
    | None => (w, Thrown)
    end.
Proof. now destruct arg. Qed.

Lemma require_some_logging_Ok_inv {A B} (o : option A) (arg : option B)
    level c reason (w w' : World) a :
  require_some_logging o arg level c reason w = (w', Ok a) → o = Some a ∧ w' = w.
Proof.
  destruct o, arg; cbn; intros H; first [now inversion H | discriminate].
Qed.

(** *** Which reason a failed run left in the sink *)

Lemma rejected_with_reject {A} level c reason reason' (w : World) :
  rejected_with reason' (reject (A:=A) level c reason w) ↔ reason = reason'.
Proof.
  unfold rejected_with, reject. cbn. split.
  - intros [_ H]. congruence.
  - intros ->. auto.
Qed.

Lemma rejected_with_Ok {A} reason (w : World) (a : A) :
  ¬ rejected_with reason (w, Ok a).
Proof. intros [H _]. discriminate. Qed.

Lemma rejected_with_check {A} reason (o : option Rejection) (k : M A) (w : World) :
  (∀ r, o = Some r → rej_reason r ≠ reason) →
  rejected_with reason ((check o ;; k) w) ↔ o = None ∧ rejected_with reason (k w).
Proof.
  intros Hav. rewrite bind_unfold. destruct o as [r|]; cbn.
  - split.
    + intros [_ H]. cbn in H. exfalso. apply (Hav r eq_refl). congruence.
    + intros [? _]. discriminate.
  - tauto.
Qed.

Lemma rejected_with_check_last reason (o : option Rejection) (w : World) :
  (∀ r, o = Some r → rej_reason r ≠ reason) →
  ¬ rejected_with reason (check o w).
Proof.
  intros Hav. destruct o as [r|]; cbn.
  - intros [_ H]. cbn in H. apply (Hav r eq_refl). congruence.
  - apply rejected_with_Ok.
Qed.

Lemma rejected_with_require {A} reason b level c reason0 (k : M A) (w : World) :
  reason0 ≠ reason →
  rejected_with reason ((require b level c reason0 ;; k) w) ↔
  b = true ∧ rejected_with reason (k w).
Proof.
  intros Hne. rewrite bind_unfold. destruct b; cbn.
  - tauto.
  - split.
    + intros [_ H]. cbn in H. congruence.
    + intros [? _]. discriminate.
Qed.

Lemma rejected_with_require_same {A} reason b level c (k : M A) (w : World) :
  rejected_with reason ((require b level c reason ;; k) w) ↔
  b = false ∨ rejected_with reason (k w).
Proof.
  rewrite bind_unfold. destruct b; cbn.
  - split; [auto | intros [?|?]; [discriminate | auto]].
  - split; [auto | intros _; split; reflexivity].
Qed.

Lemma rejected_with_require_some {A B} reason (o : option A) level c reason0
    (k : A → M B) (w : World) :
  reason0 ≠ reason →
  rejected_with reason ((require_some o level c reason0 ≫= k) w) ↔
  ∃ a, o = Some a ∧ rejected_with reason (k a w).
Proof.
  intros Hne. rewrite bind_unfold. destruct o as [a|]; cbn.
  - split; [eauto | intros (a' & Ha & H); now inversion Ha].
  - split.
    + intros [_ H]. cbn in H. congruence.
    + intros (a & ? & _). discriminate.
Qed.

Lemma rejected_with_require_some_same {A B} reason (o : option A) level c
    (k : A → M B) (w : World) :
  rejected_with reason ((require_some o level c reason ≫= k) w) ↔
  o = None ∨ ∃ a, o = Some a ∧ rejected_with reason (k a w).
Proof.
  rewrite bind_unfold. destruct o as [a|]; cbn.
  - split; [eauto | intros [?|(a' & Ha & H)]; [discriminate | now inversion Ha]].
  - split; [auto | intros _; split; reflexivity].
Qed.



(** *** Steps that only read *)

Lemma read_only_bind {A B} (m : M A) (k : A → M B) :
  read_only m → (∀ a, read_only (k a)) → read_only (m ≫= k).
Proof.
  intros Hm Hk w. rewrite bind_unfold. specialize (Hm w).
  destruct (m w) as [w1 [a| |]]; cbn in *; try assumption.
  destruct (Hk a w1) as (? & ? & ?). destruct Hm as (? & ? & ?).
  repeat split; congruence.
Qed.

Lemma read_only_ret {A} (a : A) : read_only (mret a).
Proof. intros w. now cbn. Qed.

Lemma read_only_reject {A} level c reason : read_only (reject (A:=A) level c reason).
Proof. intros w. now cbn. Qed.

Lemma read_only_throw {A} : read_only (throw (A:=A)).
Proof. intros w. now cbn. Qed.

Lemma read_only_check o : read_only (check o).
Proof. destruct o; [apply read_only_reject | apply read_only_ret]. Qed.

Lemma read_only_require b level c reason : read_only (require b level c reason).
Proof. destruct b; [apply read_only_ret | apply read_only_reject]. Qed.

Lemma read_only_require_some {A} (o : option A) level c reason :
  read_only (require_some o level c reason).
Proof. destruct o; [apply read_only_ret | apply read_only_reject]. Qed.

Lemma read_only_get_or_throw {A} (o : option A) : read_only (get_or_throw o).
Proof. destruct o; [apply read_only_ret | apply read_only_throw]. Qed.

Lemma read_only_require_some_logging {A B} (o : option A) (arg : option B)
    level c reason :
  read_only (require_some_logging o arg level c reason).
Proof. intros w. now destruct o, arg. Qed.

Lemma read_only_GetAccount uid : read_only (GetAccount uid).
Proof. intros w. now cbn. Qed.

Lemma read_only_GetContract r : read_only (GetContract r).
Proof. intros w. now cbn. Qed.

End Running.

Create HintDb read_only.
#[global] Hint Resolve read_only_ret read_only_reject read_only_throw
  read_only_check read_only_require read_only_require_some
  read_only_get_or_throw read_only_require_some_logging read_only_GetAccount
  read_only_GetContract : read_only.

(** ** The in-memory instance and the reason strings *)

Lemma Ref_macros_avoid (reason : string) :
  Forall (λ r, r ≠ reason) Ref.reasons → macros_avoid reason.
Proof.
  intros H.
  assert (Hacc : ∀ b s r, s ∈ Ref.reasons →
            Ref.accept_if b s = Some r → rej_reason r ≠ reason).
  { intros b s r Hin Hr. unfold Ref.accept_if in Hr.
    destruct b; [discriminate|]. inversion Hr; subst r; cbn.
    rewrite Forall_forall in H. now apply H. }
  unfold Ref.reasons in Hacc.
  repeat split; cbn.
  - intros h t r. apply Hacc. set_solver.
  - intros [d|i] r; [discriminate|]. apply Hacc. set_solver.
  - intros t r. apply Hacc. set_solver.
  - intros t r. apply Hacc. set_solver.
  - intros t r. apply Hacc. set_solver.
  - intros t [k|] r; [apply Hacc | apply (Hacc false)]; set_solver.
Qed.

(** ** Deploy: [CheckTx] *)

Section DeployCheckTx.
Context {P : Primitives} {L : Ledger} {E : Engine}.

(** The steps of [CheckTx] after the two fee checks never reject with a
    reason the macros avoid and that differs from their own two. *)
Lemma deploy_CheckTx_tail reason (tx : CContractDeployTx) (w : World) :
  macros_avoid reason →
  reason ≠ "bad-getaccount" → reason ≠ "bad-account-unregistered" →
  ¬ rejected_with reason
      ((o ← GetAccount (txUid (d_base tx));
        account ← require_some o 100 REJECT_INVALID "bad-getaccount";
        require (HaveOwnerPubKey account)
          100 REJECT_INVALID "bad-account-unregistered" ;;
        check (IMPLEMENT_CHECK_TX_SIGNATURE (DeployTx tx) (owner_pubkey account))) w).
Proof.
  intros (_ & _ & _ & _ & _ & Hsig) H1 H2.
  rewrite (bind_Ok (GetAccount _) _ w w _ eq_refl).
  rewrite rejected_with_require_some by congruence.
  intros (a & _ & H). revert H.
  rewrite rejected_with_require by congruence.
  intros [_ H]. revert H. apply rejected_with_check_last. eauto.
Qed.

Lemma deploy_CheckFeePerKb_unfold (tx : CContractDeployTx) (llFuel : Z) :
  Deploy.CheckFeePerKb tx llFuel =
  require
    (negb (Double.ltb
             (Deploy.dFeePerKb (llFees (d_base tx)) llFuel
                (GetSerializeSize (DeployTx tx)))
             (Double.of_Z nMinRelayTxFee)))
    100 REJECT_INVALID "fee-too-litter-in-fees/Kb".
Proof. reflexivity. Qed.

(** C1, as amended.  Provided no macro of [tx.h] reuses the reason string,
    [CheckTx] of a deploy transaction rejects with
    "fee-too-litter-to-afford-fuel" if and only if the checks placed before
    the fuel check pass (the fee macro, the sender-type macro and the
    validity of the contract) and [llFees] is strictly below the fuel cost;
    so a fee equal to the fuel cost is never rejected with this reason. *)
Theorem deploy_fuel_check (tx : CContractDeployTx) (height : Z) (w : World) :
  macros_avoid "fee-too-litter-to-afford-fuel" →
  (rejected_with "fee-too-litter-to-afford-fuel" (Deploy.CheckTx tx height w) ↔
     deploy_reaches_fuel_check tx height ∧
     llFees (d_base tx) < Deploy.fuelCost tx w) ∧
  (llFees (d_base tx) = Deploy.fuelCost tx w →
     ¬ rejected_with "fee-too-litter-to-afford-fuel" (Deploy.CheckTx tx height w)).
Proof.
  intros Hav.
  assert (Hiff :
    rejected_with "fee-too-litter-to-afford-fuel" (Deploy.CheckTx tx height w) ↔
    deploy_reaches_fuel_check tx height ∧
    llFees (d_base tx) < Deploy.fuelCost tx w).
  { pose proof Hav as (Hfee & _ & Hreg & _ & _ & _).
    unfold Deploy.CheckTx, deploy_reaches_fuel_check.
    rewrite rejected_with_check by eauto.
    rewrite rejected_with_check by eauto.
    rewrite rejected_with_require by discriminate.
    rewrite (bind_Ok (Deploy.Fuel tx) _ w w _ eq_refl).
    rewrite rejected_with_require_same.
    rewrite negb_false_iff, Z.ltb_lt.
    split.
    - intros (? & ? & ? & [Hlt|Hrest]); [tauto|].
      exfalso. revert Hrest.
      destruct (GetFeatureForkVersion height =? MAJOR_VER_R2).
      + rewrite deploy_CheckFeePerKb_unfold.
        rewrite rejected_with_require by discriminate.
        intros [_ Hk]. revert Hk.
        apply deploy_CheckTx_tail; [assumption | discriminate | discriminate].
      + rewrite (bind_Ok (mret tt) _ w w tt eq_refl).
        apply deploy_CheckTx_tail; [assumption | discriminate | discriminate].
    - tauto. }
  split; [exact Hiff|].
  intros Heq Hrej. apply Hiff in Hrej. lia.
Qed.

(** C3. Provided no macro of [tx.h] reuses the reason string, [CheckTx] of a
    deploy transaction rejects with "fee-too-litter-in-fees/Kb" if and only
    if the transaction passed the checks before it, the feature-fork version
    at [height] is [MAJOR_VER_R2], and the fee left after fuel, per 1000
    bytes of serialized size, is below [nMinRelayTxFee]; at a height with
    another fork version no transaction is rejected with this reason. *)
Theorem deploy_fee_per_kb_gated (tx : CContractDeployTx) (height : Z) (w : World) :
  macros_avoid "fee-too-litter-in-fees/Kb" →
  (rejected_with "fee-too-litter-in-fees/Kb" (Deploy.CheckTx tx height w) ↔
     deploy_reaches_fuel_check tx height ∧
     Deploy.fuelCost tx w <= llFees (d_base tx) ∧
     GetFeatureForkVersion height = MAJOR_VER_R2 ∧
     Double.ltb
       (Deploy.dFeePerKb (llFees (d_base tx)) (Deploy.fuelCost tx w)
          (GetSerializeSize (DeployTx tx)))
       (Double.of_Z nMinRelayTxFee) = true) ∧
  (GetFeatureForkVersion height ≠ MAJOR_VER_R2 →
     ¬ rejected_with "fee-too-litter-in-fees/Kb" (Deploy.CheckTx tx height w)).
Proof.
  intros Hav.
  assert (Hiff :
    rejected_with "fee-too-litter-in-fees/Kb" (Deploy.CheckTx tx height w) ↔
    deploy_reaches_fuel_check tx height ∧
    Deploy.fuelCost tx w <= llFees (d_base tx) ∧
    GetFeatureForkVersion height = MAJOR_VER_R2 ∧
    Double.ltb
      (Deploy.dFeePerKb (llFees (d_base tx)) (Deploy.fuelCost tx w)
         (GetSerializeSize (DeployTx tx)))
      (Double.of_Z nMinRelayTxFee) = true).
  { pose proof Hav as (Hfee & _ & Hreg & _ & _ & _).
    unfold Deploy.CheckTx, deploy_reaches_fuel_check.
    rewrite rejected_with_check by eauto.
    rewrite rejected_with_check by eauto.
    rewrite rejected_with_require by discriminate.
    rewrite (bind_Ok (Deploy.Fuel tx) _ w w _ eq_refl).
    rewrite rejected_with_require by discriminate.
    rewrite negb_true_iff, Z.ltb_ge.
    destruct (GetFeatureForkVersion height =? MAJOR_VER_R2) eqn:Hver.
    - apply Z.eqb_eq in Hver.
      rewrite deploy_CheckFeePerKb_unfold, rejected_with_require_same.
      rewrite negb_false_iff.
      split.
      + intros (? & ? & ? & ? & [Hlt|Hrest]); [tauto|].
        exfalso. revert Hrest.
        apply deploy_CheckTx_tail; [assumption | discriminate | discriminate].
      + tauto.
    - apply Z.eqb_neq in Hver.
      rewrite (bind_Ok (mret tt) _ w w tt eq_refl).
      split.
      + intros (_ & _ & _ & _ & Hrest). exfalso. revert Hrest.
        apply deploy_CheckTx_tail; [assumption | discriminate | discriminate].
      + tauto. }
  split; [exact Hiff|].
  intros Hne Hrej. apply Hiff in Hrej. tauto.
Qed.

End DeployCheckTx.

(** At 3 units of fee against 5 of fuel the fuel check rejects. *)
Lemma deploy_fuel_check_witness :
  macros_avoid "fee-too-litter-to-afford-fuel" ∧
  rejected_with "fee-too-litter-to-afford-fuel"
    (Deploy.CheckTx (Scenario.deploy 3 "mylib") 100 Scenario.w0).
Proof.
  assert (Hav : macros_avoid "fee-too-litter-to-afford-fuel").
  { apply Ref_macros_avoid. repeat constructor; discriminate. }
  split; [exact Hav|].
  destruct (deploy_fuel_check (Scenario.deploy 3 "mylib") 100 Scenario.w0 Hav)
    as [Hiff _].
  apply Hiff. split; [repeat split | vm_compute; reflexivity].
Defined.

(** A deploy transaction with an invalid contract and a fee below the fuel
    cost is rejected with "vmscript-invalid": the fee is too small, yet the
    reason in the sink is not the one of the fuel check. *)
Lemma deploy_fuel_check_not_iff :
  ¬ (rejected_with "fee-too-litter-to-afford-fuel"
       (Deploy.CheckTx (Scenario.deploy 3 "") 100 Scenario.w0) ↔
     llFees (d_base (Scenario.deploy 3 "")) <
     Deploy.fuelCost (Scenario.deploy 3 "") Scenario.w0).
Proof.
  intros [_ H].
  assert (Hlt : llFees (d_base (Scenario.deploy 3 "")) <
                Deploy.fuelCost (Scenario.deploy 3 "") Scenario.w0)
    by (vm_compute; reflexivity).
  destruct (H Hlt) as [_ He]. vm_compute in He. discriminate.
Qed.

(** With the fork version [MAJOR_VER_R2] in force (height 2000), a fee of
    100 for a script of 80 bytes leaves less than [nMinRelayTxFee] per 1000
    bytes and is rejected. *)
Lemma deploy_fee_per_kb_gated_witness :
  macros_avoid "fee-too-litter-in-fees/Kb" ∧
  rejected_with "fee-too-litter-in-fees/Kb"
    (Deploy.CheckTx (Scenario.deploy 100 Scenario.script80) 2000 Scenario.w0) ∧
  ¬ rejected_with "fee-too-litter-in-fees/Kb"
    (Deploy.CheckTx (Scenario.deploy 100 Scenario.script80) 200 Scenario.w0).
Proof.
  assert (Hav : macros_avoid "fee-too-litter-in-fees/Kb").
  { apply Ref_macros_avoid. repeat constructor; discriminate. }
  split; [exact Hav|]. split.
  - destruct (deploy_fee_per_kb_gated (Scenario.deploy 100 Scenario.script80)
                2000 Scenario.w0 Hav) as [Hiff _].
    apply Hiff. repeat split; vm_compute; congruence.
  - destruct (deploy_fee_per_kb_gated (Scenario.deploy 100 Scenario.script80)
                200 Scenario.w0 Hav) as [_ Hoff].
    apply Hoff. vm_compute. discriminate.
Defined.

(** ** Invoke: [GetInvolvedKeyIds] *)

Section InvokeInvolved.
Context {L : Ledger}.

(** C9. [GetInvolvedKeyIds] of an invoke transaction returns false exactly
    when the ledger view resolves no key identifier for the sender or none
    for the destination; when the view resolves both it returns true, and
    the set it leaves contains the two key identifiers, next to what the
    set held before; so whenever it returns true, both were resolved and
    are in the set. *)
Theorem invoke_GetInvolvedKeyIds_sender_and_destination
    (tx : CContractInvokeTx) (c : CCacheWrapper) (keyIds : gset CKeyID) :
  ((Invoke.GetInvolvedKeyIds tx c keyIds).1 = false ↔
   accountCache_GetKeyId (accountCache c) (txUid (i_base tx)) = None ∨
   accountCache_GetKeyId (accountCache c) (appUid tx) = None) ∧
  (∀ keyId desKeyId,
     accountCache_GetKeyId (accountCache c) (txUid (i_base tx)) = Some keyId →
     accountCache_GetKeyId (accountCache c) (appUid tx) = Some desKeyId →
     (Invoke.GetInvolvedKeyIds tx c keyIds).1 = true ∧
     keyId ∈ (Invoke.GetInvolvedKeyIds tx c keyIds).2 ∧
     desKeyId ∈ (Invoke.GetInvolvedKeyIds tx c keyIds).2 ∧
     keyIds ⊆ (Invoke.GetInvolvedKeyIds tx c keyIds).2) ∧
  ((Invoke.GetInvolvedKeyIds tx c keyIds).1 = true →
   ∃ keyId desKeyId,
     accountCache_GetKeyId (accountCache c) (txUid (i_base tx)) = Some keyId ∧
     accountCache_GetKeyId (accountCache c) (appUid tx) = Some desKeyId ∧
     keyId ∈ (Invoke.GetInvolvedKeyIds tx c keyIds).2 ∧
     desKeyId ∈ (Invoke.GetInvolvedKeyIds tx c keyIds).2 ∧
     keyIds ⊆ (Invoke.GetInvolvedKeyIds tx c keyIds).2).
Proof.
  assert (Hin : ∀ keyId desKeyId : CKeyID,
            keyId ∈ keyIds ∪ {[keyId]} ∪ {[desKeyId]} ∧
            desKeyId ∈ keyIds ∪ {[keyId]} ∪ {[desKeyId]} ∧
            keyIds ⊆ keyIds ∪ {[keyId]} ∪ {[desKeyId]}).
  { intros keyId desKeyId. split; [|split].
    - apply elem_of_union_l, elem_of_union_r. now apply elem_of_singleton.
    - apply elem_of_union_r. now apply elem_of_singleton.
    - etrans; apply union_subseteq_l. }
  unfold Invoke.GetInvolvedKeyIds.
  destruct (accountCache_GetKeyId (accountCache c) (txUid (i_base tx)))
    as [keyId|];
    [destruct (accountCache_GetKeyId (accountCache c) (appUid tx))
       as [desKeyId|]|]; cbn [fst snd].
  - split; [|split].
    + split; [discriminate | intros [?|?]; discriminate].
    + intros k d Hk Hd. inversion Hk; inversion Hd; subst k d.
      split; [reflexivity | apply Hin].
    + intros _. exists keyId, desKeyId.
      split; [reflexivity|]. split; [reflexivity | apply Hin].
  - split; [|split].
    + split; [auto | reflexivity].
    + intros k d _ Hd. discriminate.
    + discriminate.
  - split; [|split].
    + split; [auto | reflexivity].
    + intros k d Hk. discriminate.
    + discriminate.
Qed.

End InvokeInvolved.

(** The invoke of the scenarios: the view resolves the sender to the key
    identifier 83 and the destination to 600. *)
Lemma invoke_GetInvolvedKeyIds_sender_and_destination_witness :
  (Invoke.GetInvolvedKeyIds Scenario.tx_10_50 (cw Scenario.w0) ∅).1 = true ∧
  83 ∈ (Invoke.GetInvolvedKeyIds Scenario.tx_10_50 (cw Scenario.w0) ∅).2 ∧
  600 ∈ (Invoke.GetInvolvedKeyIds Scenario.tx_10_50 (cw Scenario.w0) ∅).2.
Proof.
  destruct (invoke_GetInvolvedKeyIds_sender_and_destination
              Scenario.tx_10_50 (cw Scenario.w0) ∅) as (_ & Hboth & _).
  destruct (Hboth 83 600 eq_refl eq_refl) as (Htrue & Hsrc & Hdes & _).
  split; [exact Htrue|]. split; [exact Hsrc | exact Hdes].
Defined.

(** ** Invoke: [ExecuteTx] at concrete inputs *)

(** C7. Every step of the invoke [ExecuteTx] succeeds until the write of
    the involved-address set, which fails: [ExecuteTx] returns false and the
    sink is left as it was before the call, with no entry. *)
Theorem invoke_ExecuteTx_false_without_entry :
  (Invoke.ExecuteTx Scenario.tx_10_50 100 3 Scenario.w_rel_fails).2 = RetFalse ∧
  state (Invoke.ExecuteTx Scenario.tx_10_50 100 3 Scenario.w_rel_fails).1
    = CValidationState_init ∧
  populated
    (state (Invoke.ExecuteTx Scenario.tx_10_50 100 3 Scenario.w_rel_fails).1)
    = false.
Proof. vm_compute. repeat split. Qed.

(** C2. With [llFees = 10000] and [bcoins = 2^64 - 10000] the sum wraps to
    zero: [ExecuteTx] returns true for a sender holding 1000, debits nothing
    from the sender and credits [2^64 - 10000] to the destination. *)
Theorem invoke_ExecuteTx_debit_wraps :
  llFees (i_base Scenario.tx_wrap) + bcoins Scenario.tx_wrap = Uint64.modulus ∧
  Scenario.balance Scenario.w0 83 = 1000 ∧
  (Invoke.ExecuteTx Scenario.tx_wrap 100 3 Scenario.w0).2 = Ok tt ∧
  Scenario.balance (Invoke.ExecuteTx Scenario.tx_wrap 100 3 Scenario.w0).1 83
    = 1000 ∧
  Scenario.balance (Invoke.ExecuteTx Scenario.tx_wrap 100 3 Scenario.w0).1 600
    = Scenario.balance Scenario.w0 600 + (Uint64.modulus - 10000).
Proof. vm_compute. repeat split. Qed.

(** ** Histories of writes *)

Section Histories.
Context {P : Primitives} {L : Ledger} {E : Engine}.

Lemma extends_bind {A B} (m : M A) (k : A → M B) :
  extends m → (∀ a, extends (k a)) → extends (m ≫= k).
Proof.
  intros Hm Hk w. rewrite bind_unfold. destruct (Hm w) as [l Hl].
  destruct (m w) as [w1 [a| |]]; cbn in *; eauto.
  destruct (Hk a w1) as [l' Hl']. exists (l ++ l')%list.
  rewrite Hl', Hl. now rewrite <- app_assoc.
Qed.

Lemma extends_silent {A} (m : M A) :
  (∀ w, trace (m w).1 = trace w) → extends m.
Proof. intros H w. exists []. rewrite H. now rewrite app_nil_r. Qed.

Lemma extends_ret {A} (a : A) : extends (mret a).
Proof. now apply extends_silent. Qed.

Lemma extends_reject {A} level c reason : extends (reject (A:=A) level c reason).
Proof. now apply extends_silent. Qed.

Lemma extends_return_false {A} : extends (return_false (A:=A)).
Proof. now apply extends_silent. Qed.

Lemma extends_throw {A} : extends (throw (A:=A)).
Proof. now apply extends_silent. Qed.

Lemma extends_require b level c reason : extends (require b level c reason).
Proof. destruct b; [apply extends_ret | apply extends_reject]. Qed.

Lemma extends_require_some {A} (o : option A) level c reason :
  extends (require_some o level c reason).
Proof. destruct o; [apply extends_ret | apply extends_reject]. Qed.

Lemma extends_get_or_throw {A} (o : option A) : extends (get_or_throw o).
Proof. destruct o; [apply extends_ret | apply extends_throw]. Qed.

Lemma extends_require_some_logging {A B} (o : option A) (arg : option B)
    level c reason :
  extends (require_some_logging o arg level c reason).
Proof. apply extends_silent. intros w. now destruct o, arg. Qed.

Lemma extends_GetAccount uid : extends (GetAccount uid).
Proof. now apply extends_silent. Qed.

Lemma extends_GetContract r : extends (GetContract r).
Proof. now apply extends_silent. Qed.

Lemma extends_FuelRate : extends FuelRate.
Proof. now apply extends_silent. Qed.

Lemma extends_AccountView : extends Invoke.AccountView.
Proof. now apply extends_silent. Qed.

Lemma extends_SetAccount uid a : extends (SetAccount uid a).
Proof.
  intros w. exists [EvSetAccount uid a]. unfold SetAccount.
  now destruct (accountCache_SetAccount _ _ _).
Qed.

Lemma extends_SaveAccount a : extends (SaveAccount a).
Proof.
  intros w. exists [EvSaveAccount a]. unfold SaveAccount.
  now destruct (accountCache_SaveAccount _ _).
Qed.

Lemma extends_SetTxRelAccout h s : extends (SetTxRelAccout h s).
Proof.
  intros w. exists [EvSetTxRelAccout h s]. unfold SetTxRelAccout.
  now destruct (contractCache_SetTxRelAccout _ _ _).
Qed.

Lemma extends_RunContract pTx height fuelRate :
  extends (RunContract pTx height fuelRate).
Proof. intros w. now eexists. Qed.

Lemma extends_DoSaveTxAddresses height index uids :
  extends (DoSaveTxAddresses height index uids).
Proof.
  intros w. exists [EvSaveTxAddresses height index uids].
  unfold DoSaveTxAddresses.
  now destruct (SaveTxAddresses _ _ _ _ _) as [[ok c] st].
Qed.

End Histories.

Create HintDb extends.
#[global] Hint Resolve extends_ret extends_reject extends_return_false
  extends_throw extends_require extends_require_some extends_get_or_throw
  extends_require_some_logging
  extends_GetAccount extends_GetContract extends_FuelRate extends_AccountView
  extends_SetAccount extends_SaveAccount extends_SetTxRelAccout
  extends_RunContract extends_DoSaveTxAddresses : extends.

(** Walks through a sequence of steps, one [extends] obligation each. *)
Ltac solve_extends :=
  repeat first
    [ progress auto with extends
    | apply extends_bind; [|intros]
    | match goal with
      | |- extends (if ?b then _ else _) => destruct b
      | |- extends (match ?o with _ => _ end) => destruct o
      end ].

Section InvokeExecuteTx.
Context {P : Primitives} {L : Ledger} {E : Engine}.

Lemma extends_UpdateAccounts vAccount vAddress :
  extends (Invoke.UpdateAccounts vAccount vAddress).
Proof.
  revert vAddress. induction vAccount as [|a rest IH]; intros vAddress; cbn.
  - auto with extends.
  - solve_extends.
Qed.

(** A write followed by steps that only append: the write's event heads
    what the sequence adds to the history. *)
Lemma added_after_write {A B} (m : M A) (k : A → M B) (e : Event) (w : World) :
  (∃ ok w1, m w = (w1, Ok ok) ∧ trace w1 = (trace w ++ [e])%list) →
  (∀ ok, extends (k ok)) →
  ∃ rest, trace ((m ≫= k) w).1 = (trace w ++ e :: rest)%list.
Proof.
  intros (ok & w1 & Hm & Htr) Hk. rewrite (bind_Ok m k w w1 ok Hm).
  destruct (Hk ok w1) as [rest Hrest]. exists rest.
  rewrite Hrest, Htr. now rewrite <- app_assoc.
Qed.

Lemma OperateBalance_fields a symbol opType value a' :
  OperateBalance a symbol opType value = Some a' →
  keyid a' = keyid a ∧ regid a' = regid a ∧ nickid a' = nickid a ∧
  owner_pubkey a' = owner_pubkey a.
Proof.
  unfold OperateBalance. destruct opType.
  - intros H. inversion H. now cbn.
  - destruct (_ <? _); [discriminate|]. intros H. inversion H. now cbn.
Qed.

Lemma OperateBalance_SUB_FREE a symbol value a' :
  OperateBalance a symbol SUB_FREE value = Some a' →
  value <= free_amount a symbol ∧
  free_amount a' symbol = free_amount a symbol - value.
Proof.
  unfold OperateBalance. destruct (_ <? _) eqn:Hlt; [discriminate|].
  intros H. inversion H. apply Z.ltb_ge in Hlt. split; [exact Hlt|].
  unfold free_amount, set_free_amount. cbn. now rewrite lookup_insert_eq.
Qed.

Lemma OperateBalance_ADD_FREE a symbol value :
  ∃ a', OperateBalance a symbol ADD_FREE value = Some a' ∧
        free_amount a' symbol = free_amount a symbol + value.
Proof.
  eexists. split; [reflexivity|].
  unfold free_amount, set_free_amount. cbn. now rewrite lookup_insert_eq.
Qed.

(** What [ExecuteTx] does after the debit of the sender succeeded. *)
Lemma invoke_ExecuteTx_persists_sender
    (tx : CContractInvokeTx) (height index : Z) (w : World)
    (srcAcct debited : CAccount) :
  accountCache_GetAccount (accountCache (cw w)) (txUid (i_base tx)) = Some srcAcct →
  OperateBalance
    (Invoke.PrepareSender tx height index (accountCache (cw w)) srcAcct).1
    SYMB.WICC SUB_FREE (Uint64.add (llFees (i_base tx)) (bcoins tx)) = Some debited →
  ∃ rest,
    added w (Invoke.ExecuteTx tx height index w)
      (persist_sender
         (Invoke.PrepareSender tx height index (accountCache (cw w)) srcAcct).2
         debited :: rest).
Proof.
  intros Hget Hdebit. unfold added, Invoke.ExecuteTx.
  rewrite (bind_Ok (GetAccount _) _ w w (Some srcAcct));
    [|unfold GetAccount; now rewrite Hget].
  cbn [require_some]. rewrite (bind_Ok (mret srcAcct) _ w w srcAcct eq_refl).
  rewrite (bind_Ok Invoke.AccountView _ w w _ eq_refl).
  destruct (Invoke.PrepareSender tx height index (accountCache (cw w)) srcAcct)
    as [prepared generateRegID].
  cbn [fst snd] in *. rewrite Hdebit. cbn [require_some].
  rewrite (bind_Ok (mret debited) _ w w debited eq_refl).
  destruct generateRegID; cbn [persist_sender]; apply added_after_write;
    try (intros ok; solve_extends; apply extends_UpdateAccounts).
  - unfold SaveAccount.
    destruct (accountCache_SaveAccount (accountCache (cw w)) debited) as [ok ac].
    now eexists _, _.
  - unfold SetAccount.
    destruct (accountCache_SetAccount (accountCache (cw w))
                (UidKeyID (keyid debited)) debited) as [ok ac].
    now eexists _, _.
Qed.

Lemma PrepareSender_minted (tx : CContractInvokeTx) (height index : Z)
    (view : CAccountDBCache) (srcAcct : CAccount) :
  (Invoke.PrepareSender tx height index view srcAcct).2 = true ↔
  ∃ pubKey, txUid (i_base tx) = UidPubKey pubKey ∧
            accountCache_GetRegId view (UidPubKey pubKey) = None.
Proof.
  unfold Invoke.PrepareSender.
  destruct (txUid (i_base tx)) as [| | |pubKey|]; cbn;
    try (split; [discriminate | intros (? & ? & _); discriminate]).
  destruct (accountCache_GetRegId view (UidPubKey pubKey)) eqn:Hreg; cbn.
  - split; [discriminate|]. intros (pk & Hpk & Hnone). congruence.
  - split; [eauto | reflexivity].
Qed.

(** C4. In every run of the invoke [ExecuteTx] that finds the sender account
    and debits it, the first write persists the debited sender account.
    When the sender is identified by a public key, that account carries this
    key as its owner key.  A registration identifier is minted, from
    [(height, index)], exactly when the sender is a public key for which the
    ledger view holds no registration identifier; the write is then
    [SaveAccount], and it is [SetAccount], with the registration identifier
    left as read, in every other case. *)
Theorem invoke_sender_create_or_update
    (tx : CContractInvokeTx) (height index : Z) (w : World)
    (srcAcct debited : CAccount) :
  accountCache_GetAccount (accountCache (cw w)) (txUid (i_base tx)) = Some srcAcct →
  OperateBalance
    (Invoke.PrepareSender tx height index (accountCache (cw w)) srcAcct).1
    SYMB.WICC SUB_FREE (Uint64.add (llFees (i_base tx)) (bcoins tx)) = Some debited →
  (∀ pubKey, txUid (i_base tx) = UidPubKey pubKey →
     owner_pubkey debited = Some pubKey) ∧
  ((∃ pubKey, txUid (i_base tx) = UidPubKey pubKey ∧
              accountCache_GetRegId (accountCache (cw w)) (UidPubKey pubKey) = None) →
     regid debited = Some (mkCRegID height index) ∧
     ∃ rest, added w (Invoke.ExecuteTx tx height index w)
               (EvSaveAccount debited :: rest)) ∧
  (¬ (∃ pubKey, txUid (i_base tx) = UidPubKey pubKey ∧
                accountCache_GetRegId (accountCache (cw w)) (UidPubKey pubKey) = None) →
     regid debited = regid srcAcct ∧
     ∃ rest, added w (Invoke.ExecuteTx tx height index w)
               (EvSetAccount (UidKeyID (keyid debited)) debited :: rest)).
Proof.
  intros Hget Hdebit.
  pose proof (invoke_ExecuteTx_persists_sender tx height index w srcAcct debited
                Hget Hdebit) as Hpersist.
  pose proof (PrepareSender_minted tx height index (accountCache (cw w)) srcAcct)
    as Hminted.
  pose proof (OperateBalance_fields _ _ _ _ _ Hdebit) as (_ & Hregid & _ & Hown).
  revert Hpersist Hminted Hregid Hown. unfold Invoke.PrepareSender.
  destruct (txUid (i_base tx)) as [| | |pubKey|] eqn:Huid; cbn [fst snd].
  1-3,5: intros Hpersist Hminted Hregid _; split; [discriminate|];
    split; [intros (? & ? & _); discriminate | intros _; eauto].
  destruct (accountCache_GetRegId (accountCache (cw w)) (UidPubKey pubKey))
    eqn:Hreg; cbn [fst snd]; intros Hpersist Hminted Hregid Hown.
  - split; [intros pk Hpk; inversion Hpk; subst pk; exact Hown|].
    split; [intros (pk & Hpk & Hnone); inversion Hpk; congruence|].
    intros _. eauto.
  - split; [intros pk Hpk; inversion Hpk; subst pk; exact Hown|].
    split; [intros _; eauto|].
    intros Hno. exfalso. apply Hno. eauto.
Qed.

End InvokeExecuteTx.

#[global] Hint Resolve extends_UpdateAccounts : extends.

(** A public-key sender without registration identifier, invoking at height
    100 as transaction 3 of the block: the account is created under the
    registration identifier (100, 3). *)
Lemma invoke_sender_create_or_update_witness :
  ∃ debited rest,
    added Scenario.w_newcomer
      (Invoke.ExecuteTx Scenario.tx_newcomer 100 3 Scenario.w_newcomer)
      (EvSaveAccount debited :: rest) ∧
    regid debited = Some (mkCRegID 100 3) ∧
    owner_pubkey debited = Some Scenario.pubKey ∧
    free_amount debited SYMB.WICC = 940.
Proof.
  set (debited :=
    set_free_amount
      (set_regid (set_owner_pubkey Scenario.newcomer Scenario.pubKey)
         (mkCRegID 100 3)) SYMB.WICC 940).
  assert (Hget : accountCache_GetAccount (accountCache (cw Scenario.w_newcomer))
                   (txUid (i_base Scenario.tx_newcomer)) = Some Scenario.newcomer)
    by (vm_compute; reflexivity).
  assert (Hdebit : OperateBalance
            (Invoke.PrepareSender Scenario.tx_newcomer 100 3
               (accountCache (cw Scenario.w_newcomer)) Scenario.newcomer).1
            SYMB.WICC SUB_FREE
            (Uint64.add (llFees (i_base Scenario.tx_newcomer))
               (bcoins Scenario.tx_newcomer)) = Some debited)
    by (vm_compute; reflexivity).
  destruct (invoke_sender_create_or_update Scenario.tx_newcomer 100 3
              Scenario.w_newcomer Scenario.newcomer debited Hget Hdebit)
    as (Hown & Hcreate & _).
  destruct Hcreate as [Hreg [rest Hadd]].
  { exists Scenario.pubKey. split; vm_compute; reflexivity. }
  exists debited, rest. split; [exact Hadd|]. split; [exact Hreg|].
  split; [now apply Hown | vm_compute; reflexivity].
Defined.


(** ** Deploy: [ExecuteTx] *)

Section DeployExecuteTx.
Context {P : Primitives} {L : Ledger} {E : Engine}.

Lemma GetAccount_Ok_inv uid (w w' : World) o :
  GetAccount uid w = (w', Ok o) →
  w' = w ∧ o = accountCache_GetAccount (accountCache (cw w)) uid.
Proof. unfold GetAccount. intros H. now inversion H. Qed.

Lemma SetAccount_Ok_inv uid a (w w' : World) ok :
  SetAccount uid a w = (w', Ok ok) →
  trace w' = (trace w ++ [EvSetAccount uid a])%list ∧
  ok = (accountCache_SetAccount (accountCache (cw w)) uid a).1.
Proof.
  unfold SetAccount. destruct (accountCache_SetAccount _ _ _) as [ok' ac].
  intros H. now inversion H.
Qed.

Lemma SaveAccount_Ok_inv a (w w' : World) ok :
  SaveAccount a w = (w', Ok ok) →
  trace w' = (trace w ++ [EvSaveAccount a])%list.
Proof.
  unfold SaveAccount. destruct (accountCache_SaveAccount _ _) as [ok' ac].
  intros H. now inversion H.
Qed.

Lemma SaveContract_Ok_inv r c (w w' : World) ok :
  SaveContract r c w = (w', Ok ok) →
  trace w' = (trace w ++ [EvSaveContract r c])%list.
Proof.
  unfold SaveContract. destruct (contractCache_SaveContract _ _ _) as [ok' cc].
  intros H. now inversion H.
Qed.

Lemma DoSaveTxAddresses_Ok_inv height index uids (w w' : World) u :
  DoSaveTxAddresses height index uids w = (w', Ok u) →
  trace w' = (trace w ++ [EvSaveTxAddresses height index uids])%list.
Proof.
  unfold DoSaveTxAddresses.
  destruct (SaveTxAddresses _ _ _ _ _) as [[ok c] st].
  intros H. now inversion H.
Qed.

(** The writes of a deploy [ExecuteTx] that returned true, in order: the
    debited sender, the contract record, the contract account, the
    addresses of the transaction. *)
Lemma deploy_ExecuteTx_success_trace
    (tx : CContractDeployTx) (height index : Z) (w w' : World) :
  Deploy.ExecuteTx tx height index w = (w', Ok tt) →
  ∃ account debited,
    accountCache_GetAccount (accountCache (cw w)) (txUid (d_base tx)) = Some account ∧
    OperateBalance account SYMB.WICC SUB_FREE (llFees (d_base tx)) = Some debited ∧
    trace w' =
      (trace w ++
       [EvSetAccount (UidKeyID (keyid debited)) debited;
        EvSaveContract (mkCRegID height index)
          (mkCContract LUA_VM (code (contract tx)) "" (memo (contract tx)));
        EvSaveAccount (Deploy.contractAccount height index);
        EvSaveTxAddresses height index [txUid (d_base tx)]])%list.
Proof.
  unfold Deploy.ExecuteTx. intros H.
  apply bind_Ok_inv in H as (o & w1 & H1 & H).
  apply GetAccount_Ok_inv in H1 as [-> ->].
  apply bind_Ok_inv in H as (account & w1 & H1 & H).
  apply require_some_Ok_inv in H1 as [Hget ->].
  apply bind_Ok_inv in H as (debited & w1 & H1 & H).
  apply require_some_Ok_inv in H1 as [Hdebit ->].
  apply bind_Ok_inv in H as (ok1 & w1 & H1 & H).
  apply SetAccount_Ok_inv in H1 as [Htr1 _].
  apply bind_Ok_inv in H as ([] & w2 & H2 & H).
  apply require_Ok_inv in H2 as [_ ->].
  apply bind_Ok_inv in H as (ok2 & w2 & H2 & H).
  apply SaveContract_Ok_inv in H2 as Htr2.
  apply bind_Ok_inv in H as ([] & w3 & H3 & H).
  apply require_Ok_inv in H3 as [_ ->].
  apply bind_Ok_inv in H as (ok3 & w3 & H3 & H).
  apply SaveAccount_Ok_inv in H3 as Htr3.
  apply bind_Ok_inv in H as ([] & w4 & H4 & H).
  apply require_Ok_inv in H4 as [_ ->].
  apply bind_Ok_inv in H as ([] & w4 & H4 & H).
  inversion H4; subst w4; clear H4.
  apply DoSaveTxAddresses_Ok_inv in H. cbn [trace] in H.
  exists account, debited. split; [exact Hget|]. split; [exact Hdebit|].
  rewrite H, Htr3, Htr2, Htr1. now rewrite <- !app_assoc.
Qed.

(** X21. A deploy [ExecuteTx] at [(height, index)] that returns true has
    made exactly one [SaveAccount] call, for an account whose registration
    identifier is the one minted from [(height, index)], whose key
    identifier is [Hash160] of that identifier's raw bytes, and which has
    no owner public key, no nickname and no balance; and exactly one
    [SaveContract] call, which stores the code and the memo of the
    transaction, as a Lua contract with an empty ABI, under that same
    registration identifier. *)
Theorem deploy_contract_account_fields
    (tx : CContractDeployTx) (height index : Z) (w w' : World) :
  Deploy.ExecuteTx tx height index w = (w', Ok tt) →
  ∃ l saved,
    trace w' = (trace w ++ l)%list ∧
    omap (λ e, match e with EvSaveAccount a => Some a | _ => None end) l
      = [saved] ∧
    regid saved = Some (mkCRegID height index) ∧
    keyid saved = Hash160 (GetRegIdRaw (mkCRegID height index)) ∧
    owner_pubkey saved = None ∧
    nickid saved = None ∧
    (∀ symbol, free_amount saved symbol = 0) ∧
    omap (λ e, match e with EvSaveContract r c => Some (r, c) | _ => None end) l
      = [(mkCRegID height index,
          mkCContract LUA_VM (code (contract tx)) "" (memo (contract tx)))].
Proof.
  intros Hrun.
  apply deploy_ExecuteTx_success_trace in Hrun
    as (account & debited & _ & _ & Htrace).
  eexists _, (Deploy.contractAccount height index).
  split; [exact Htrace|].
  repeat split.
Qed.

End DeployExecuteTx.

(** The registered sender deploys a script at height 200 as transaction 4
    of the block. *)
Lemma deploy_contract_account_fields_witness :
  ∃ saved,
    regid saved = Some (mkCRegID 200 4) ∧
    keyid saved = Hash160 (GetRegIdRaw (mkCRegID 200 4)) ∧
    owner_pubkey saved = None.
Proof.
  assert (Hrun :
    Deploy.ExecuteTx (Scenario.deploy 100 Scenario.script80) 200 4 Scenario.w0
    = ((Deploy.ExecuteTx (Scenario.deploy 100 Scenario.script80) 200 4
          Scenario.w0).1, Ok tt))
    by (vm_compute; reflexivity).
  destruct (deploy_contract_account_fields _ _ _ _ _ Hrun)
    as (l & saved & _ & _ & Hreg & Hkey & Hown & _).
  exists saved. split; [exact Hreg|]. split; [exact Hkey | exact Hown].
Defined.

(** ** Invoke: the involved-address set *)

Section InvokeInvolvedSet.
Context {P : Primitives} {L : Ledger} {E : Engine}.

Lemma UpdateAccounts_Ok_inv vAccount vAddress (w w' : World) accs :
  Invoke.UpdateAccounts vAccount vAddress w = (w', Ok accs) →
  accs = vAddress ∪ list_to_set (keyid <$> vAccount) ∧
  trace w' = (trace w ++ account_writes vAccount)%list.
Proof.
  revert vAddress w. induction vAccount as [|a rest IH]; intros vAddress w H.
  - cbn in H. inversion H. split; [cbn; now rewrite (right_id_L ∅ (∪)) | now rewrite app_nil_r].
  - cbn [Invoke.UpdateAccounts] in H.
    apply bind_Ok_inv in H as (o & w1 & H1 & H).
    apply GetAccount_Ok_inv in H1 as [-> _].
    apply bind_Ok_inv in H as ([] & w1 & H1 & H).
    assert (w1 = w) as ->.
    { destruct o; [now inversion H1 | now apply require_Ok_inv in H1]. }
    apply bind_Ok_inv in H as (ok & w2 & H2 & H).
    apply SetAccount_Ok_inv in H2 as [Htr _].
    apply bind_Ok_inv in H as ([] & w3 & H3 & H).
    apply require_Ok_inv in H3 as [_ ->].
    apply IH in H as [-> Htr']. split.
    + cbn. now rewrite (assoc_L (∪)).
    + rewrite Htr', Htr. cbn. now rewrite <- app_assoc.
Qed.

Lemma elem_of_ResolveAppUsers view vAppUserAccount vAddress (k : CKeyID) :
  k ∈ Invoke.ResolveAppUsers view vAppUserAccount vAddress ↔
  k ∈ vAddress ∨
  ∃ item, item ∈ vAppUserAccount ∧
          GetKeyId view (GetAccUserId item) 0 = (true, k).
Proof.
  revert vAddress. induction vAppUserAccount as [|item rest IH]; intros vAddress.
  - cbn. split; [auto | intros [?|(? & Hin & _)]; [done | inversion Hin]].
  - cbn [Invoke.ResolveAppUsers].
    destruct (GetKeyId view (GetAccUserId item) 0) as [bValid itemKeyID] eqn:Hres.
    rewrite IH. split.
    + intros [Hin|(item' & Hin & Hk)].
      * destruct bValid; [|auto].
        apply elem_of_union in Hin as [?|Hin]; [auto|].
        apply elem_of_singleton in Hin as ->. right. exists item.
        split; [left | exact Hres].
      * right. exists item'. split; [now right | exact Hk].
    + intros [Hin|(item' & Hin & Hk)].
      * left. destruct bValid; [apply elem_of_union; now left | exact Hin].
      * apply elem_of_cons in Hin as [->|Hin].
        -- left. rewrite Hres in Hk. inversion Hk; subst.
           apply elem_of_union. right. now apply elem_of_singleton.
        -- right. eauto.
Qed.

Lemma rel_writes_app l1 l2 : rel_writes (l1 ++ l2) = (rel_writes l1 ++ rel_writes l2)%list.
Proof. apply omap_app. Qed.

Lemma rel_writes_account_writes vAccount : rel_writes (account_writes vAccount) = [].
Proof. induction vAccount as [|a rest IH]; [reflexivity | exact IH]. Qed.

Lemma rel_writes_persist_sender b a : rel_writes [persist_sender b a] = [].
Proof. now destruct b. Qed.

(** The run of an invoke [ExecuteTx] that returned true: the engine was
    called in [w1], after the two balance writes; the loop over its accounts
    ended in [w2]; and the history grew by these writes, in this order. *)
Lemma invoke_ExecuteTx_success_trace
    (tx : CContractInvokeTx) (height index : Z) (w w' : World) :
  Invoke.ExecuteTx tx height index w = (w', Ok tt) →
  ∃ srcAcct debited desAcct credited w1 w1' out w2 accs,
    accountCache_GetAccount (accountCache (cw w)) (txUid (i_base tx)) = Some srcAcct ∧
    OperateBalance
      (Invoke.PrepareSender tx height index (accountCache (cw w)) srcAcct).1
      SYMB.WICC SUB_FREE (Uint64.add (llFees (i_base tx)) (bcoins tx))
      = Some debited ∧
    OperateBalance desAcct SYMB.WICC ADD_FREE (bcoins tx) = Some credited ∧
    trace w1 =
      (trace w ++
       [persist_sender
          (Invoke.PrepareSender tx height index (accountCache (cw w)) srcAcct).2
          debited;
        EvSetAccount (appUid tx) credited])%list ∧
    RunContract (InvokeTx tx) height (GetFuelRate (contractCache (cw w1))) w1
      = (w1', Ok out) ∧
    vm_success out = true ∧
    Invoke.UpdateAccounts (GetNewAccount out) ∅ w1' = (w2, Ok accs) ∧
    trace w' =
      (trace w ++
       [persist_sender
          (Invoke.PrepareSender tx height index (accountCache (cw w)) srcAcct).2
          debited;
        EvSetAccount (appUid tx) credited;
        EvExecuteContract (InvokeTx tx) height (cw w1)
          (GetFuelRate (contractCache (cw w1))) (nRunStep w1)] ++
       account_writes (GetNewAccount out) ++
       [EvSetTxRelAccout (GetHash (InvokeTx tx))
          (Invoke.ResolveAppUsers (accountCache (cw w2))
             (GetRawAppUserAccount out) accs);
        EvSaveTxAddresses height index [txUid (i_base tx); appUid tx]])%list.
Proof.
  unfold Invoke.ExecuteTx. intros H.
  apply bind_Ok_inv in H as (o & w0 & H0 & H).
  apply GetAccount_Ok_inv in H0 as [-> ->].
  apply bind_Ok_inv in H as (srcAcct & w0 & H0 & H).
  apply require_some_Ok_inv in H0 as [Hget ->].
  apply bind_Ok_inv in H as (view & w0 & H0 & H).
  inversion H0; subst w0 view; clear H0.
  destruct (Invoke.PrepareSender tx height index (accountCache (cw w)) srcAcct)
    as [prepared generateRegID] eqn:Hprep.
  apply bind_Ok_inv in H as (debited & w0 & H0 & H).
  apply require_some_Ok_inv in H0 as [Hdebit ->].
  apply bind_Ok_inv in H as (ok & wa & Ha & H).
  assert (Htra : trace wa = (trace w ++ [persist_sender generateRegID debited])%list).
  { destruct generateRegID; cbn [persist_sender].
    - now apply SaveAccount_Ok_inv in Ha.
    - now apply SetAccount_Ok_inv in Ha as [? _]. }
  clear Ha.
  apply bind_Ok_inv in H as ([] & w0 & H0 & H).
  apply require_Ok_inv in H0 as [_ ->].
  apply bind_Ok_inv in H as (o & w0 & H0 & H).
  apply GetAccount_Ok_inv in H0 as [-> ->].
  apply bind_Ok_inv in H as (desAcct & w0 & H0 & H).
  apply require_some_logging_Ok_inv in H0 as [_ ->].
  apply bind_Ok_inv in H as (credited & w0 & H0 & H).
  apply require_some_Ok_inv in H0 as [Hcredit ->].
  apply bind_Ok_inv in H as (ok' & w1 & H1 & H).
  apply SetAccount_Ok_inv in H1 as [Htr1 _].
  apply bind_Ok_inv in H as ([] & w0 & H0 & H).
  apply require_Ok_inv in H0 as [_ ->].
  apply bind_Ok_inv in H as (appRegId & w0 & H0 & H).
  assert (w0 = w1) as ->.
  { destruct (get_CRegID (appUid tx)); [now inversion H0 | discriminate]. }
  clear H0.
  apply bind_Ok_inv in H as (o & w0 & H0 & H).
  inversion H0; subst w0 o; clear H0.
  apply bind_Ok_inv in H as (c & w0 & H0 & H).
  apply require_some_Ok_inv in H0 as [_ ->].
  apply bind_Ok_inv in H as (fuelRate & w0 & H0 & H).
  inversion H0; subst w0 fuelRate; clear H0.
  apply bind_Ok_inv in H as (out & w1' & Hrun & H).
  apply bind_Ok_inv in H as ([] & w0 & H0 & H).
  apply require_Ok_inv in H0 as [Hok ->].
  apply bind_Ok_inv in H as (accs & w2 & Hupd & H).
  apply bind_Ok_inv in H as (view & w0 & H0 & H).
  inversion H0; subst w0 view; clear H0.
  apply bind_Ok_inv in H as (ok'' & w3 & H3 & H).
  assert (Htr3 : trace w3 =
    (trace w2 ++ [EvSetTxRelAccout (GetHash (InvokeTx tx))
       (Invoke.ResolveAppUsers (accountCache (cw w2))
          (GetRawAppUserAccount out) accs)])%list).
  { unfold SetTxRelAccout in H3.
    destruct (contractCache_SetTxRelAccout _ _ _) as [ok3 cc].
    now inversion H3. }
  clear H3.
  apply bind_Ok_inv in H as ([] & w0 & H0 & H).
  assert (w0 = w3) as ->.
  { destruct ok''; [now inversion H0 | discriminate]. }
  clear H0.
  apply DoSaveTxAddresses_Ok_inv in H.
  pose proof (UpdateAccounts_Ok_inv _ _ _ _ _ Hupd) as [_ Htr2].
  assert (Htr1' : trace w1' =
    (trace w1 ++ [EvExecuteContract (InvokeTx tx) height (cw w1)
                    (GetFuelRate (contractCache (cw w1))) (nRunStep w1)])%list).
  { unfold RunContract in Hrun. now inversion Hrun. }
  exists srcAcct, debited, desAcct, credited, w1, w1', out, w2, accs.
  rewrite Hprep. cbn [fst snd].
  split; [exact Hget|]. split; [exact Hdebit|]. split; [exact Hcredit|].
  split; [rewrite Htr1, Htra; now rewrite <- app_assoc|].
  split; [exact Hrun|]. split; [exact Hok|]. split; [exact Hupd|].
  rewrite H, Htr3, Htr2, Htr1', Htr1, Htra.
  now rewrite <- !app_assoc.
Qed.

Lemma engine_calls_app l1 l2 :
  engine_calls (l1 ++ l2) = (engine_calls l1 ++ engine_calls l2)%list.
Proof. apply omap_app. Qed.

Lemma engine_calls_account_writes vAccount : engine_calls (account_writes vAccount) = [].
Proof. induction vAccount as [|a rest IH]; [reflexivity | exact IH]. Qed.

Lemma engine_calls_persist_sender b a : engine_calls [persist_sender b a] = [].
Proof. now destruct b. Qed.

Lemma UpdateAccounts_view vAccount vAddress (w w' : World) accs :
  Invoke.UpdateAccounts vAccount vAddress w = (w', Ok accs) →
  accountCache (cw w') = accounts_written (accountCache (cw w)) vAccount.
Proof.
  revert vAddress w. induction vAccount as [|a rest IH]; intros vAddress w H.
  - cbn in H. now inversion H.
  - cbn [Invoke.UpdateAccounts] in H.
    apply bind_Ok_inv in H as (o & w1 & H1 & H).
    apply GetAccount_Ok_inv in H1 as [-> _].
    apply bind_Ok_inv in H as ([] & w1 & H1 & H).
    assert (w1 = w) as ->.
    { destruct o; [now inversion H1 | now apply require_Ok_inv in H1]. }
    apply bind_Ok_inv in H as (ok & w2 & H2 & H).
    apply bind_Ok_inv in H as ([] & w3 & H3 & H).
    apply require_Ok_inv in H3 as [_ ->].
    apply IH in H. rewrite H. cbn [accounts_written fold_left]. f_equal.
    unfold SetAccount in H2.
    destruct (accountCache_SetAccount _ _ _) as [ok' ac].
    now inversion H2.
Qed.

(** C10, as amended.  A run of the invoke [ExecuteTx] that returns true
    calls the engine once and persists exactly one involved-address set,
    under the hash of the transaction.  With [out] what that call of the
    engine returned, a key identifier is in the set if and only if it is
    the key identifier of an account in [out] or the string-based resolver,
    on the ledger view left by the loop that wrote those accounts, resolves
    the owner identifier of one of the application sub-accounts in [out] to
    it.  So the key identifier of the sender or of the destination is in
    the set only when the engine returned that account or a sub-account
    owner identifier resolves to it. *)
Theorem invoke_persisted_involved_set
    (tx : CContractInvokeTx) (height index : Z) (w w' : World) :
  Invoke.ExecuteTx tx height index w = (w', Ok tt) →
  ∃ l c fuelRate steps vAddress,
    trace w' = (trace w ++ l)%list ∧
    engine_calls l = [(InvokeTx tx, height, c, fuelRate, steps)] ∧
    rel_writes l = [(GetHash (InvokeTx tx), vAddress)] ∧
    let out := ExecuteContract (InvokeTx tx) height c fuelRate steps in
    let view := accounts_written (accountCache (vm_cw out)) (GetNewAccount out) in
    ∀ k : CKeyID,
      k ∈ vAddress ↔
      (∃ a, a ∈ GetNewAccount out ∧ keyid a = k) ∨
      (∃ item, item ∈ GetRawAppUserAccount out ∧
               GetKeyId view (GetAccUserId item) 0 = (true, k)).
Proof.
  intros H.
  apply invoke_ExecuteTx_success_trace in H
    as (srcAcct & debited & desAcct & credited & w1 & w1' & out & w2 & accs &
        _ & _ & _ & _ & Hrun & _ & Hupd & Htrace).
  unfold RunContract in Hrun. inversion Hrun as [[Hw1' Hout]]. clear Hrun.
  eexists _, (cw w1), (GetFuelRate (contractCache (cw w1))), (nRunStep w1), _.
  split; [exact Htrace|]. split; [|split].
  - rewrite !engine_calls_app, engine_calls_account_writes.
    change [?a; ?b; ?c] with ([a] ++ [b; c])%list.
    rewrite engine_calls_app, engine_calls_persist_sender. reflexivity.
  - rewrite !rel_writes_app, rel_writes_account_writes.
    change [?a; ?b; ?c] with ([a] ++ [b; c])%list.
    rewrite rel_writes_app, rel_writes_persist_sender. reflexivity.
  - cbn zeta. rewrite Hout. intros k. rewrite elem_of_ResolveAppUsers.
    rewrite (UpdateAccounts_view _ _ _ _ _ Hupd).
    apply UpdateAccounts_Ok_inv in Hupd as [-> _].
    rewrite <- Hw1', <- Hout. cbn [cw].
    rewrite elem_of_union, elem_of_list_to_set, list_elem_of_fmap.
    split.
    + intros [[Hin|(a & -> & Hin)]|Hres];
        [now apply elem_of_empty in Hin | eauto | eauto].
    + intros [(a & Hin & <-)|Hres]; eauto.
Qed.

End InvokeInvolvedSet.

(** The registered sender invokes the contract; the engine returns no
    account and one sub-account owned by the sender's address. *)
Lemma invoke_persisted_involved_set_witness :
  ∃ l vAddress,
    trace (Invoke.ExecuteTx Scenario.tx_10_50 100 3 Scenario.w_owner).1 = l ∧
    length (engine_calls l) = 1%nat ∧
    rel_writes l = [(GetHash (InvokeTx Scenario.tx_10_50), vAddress)].
Proof.
  assert (Hrun :
    Invoke.ExecuteTx Scenario.tx_10_50 100 3 Scenario.w_owner
    = ((Invoke.ExecuteTx Scenario.tx_10_50 100 3 Scenario.w_owner).1, Ok tt))
    by (vm_compute; reflexivity).
  destruct (invoke_persisted_involved_set _ _ _ _ _ Hrun)
    as (l & c & fuelRate & steps & vAddress & Htrace & Hcalls & Hrel & _).
  exists l, vAddress. split; [exact Htrace|].
  split; [now rewrite Hcalls | exact Hrel].
Defined.

(** The sender's key identifier is in the persisted set although the one
    call of the engine returned no account at all: it came in through the
    owner identifier of an application sub-account. *)
Lemma invoke_sender_involved_through_sub_account :
  (Invoke.ExecuteTx Scenario.tx_10_50 100 3 Scenario.w_owner).2 = Ok tt ∧
  rel_writes (trace (Invoke.ExecuteTx Scenario.tx_10_50 100 3 Scenario.w_owner).1)
    = [(GetHash (InvokeTx Scenario.tx_10_50), {[ keyid Scenario.sender ]})] ∧
  (λ '(pTx, height, c, fuelRate, steps),
     GetNewAccount (ExecuteContract pTx height c fuelRate steps)) <$>
    engine_calls (trace (Invoke.ExecuteTx Scenario.tx_10_50 100 3 Scenario.w_owner).1)
    = [[]].
Proof. vm_compute. repeat split. Qed.

(** ** Invoke: the transfer and the engine *)

Section InvokeTransfer.
Context {P : Primitives} {L : Ledger} {E : Engine}.

Lemma PrepareSender_free_amount (tx : CContractInvokeTx) (height index : Z)
    (view : CAccountDBCache) (srcAcct : CAccount) (symbol : TokenSymbol) :
  free_amount (Invoke.PrepareSender tx height index view srcAcct).1 symbol
  = free_amount srcAcct symbol.
Proof.
  unfold Invoke.PrepareSender.
  destruct (txUid (i_base tx)); try reflexivity.
  now destruct (accountCache_GetRegId view _).
Qed.

Lemma Uint64_add_exact (a b : Z) :
  0 <= a → 0 <= b → a + b < Uint64.modulus → Uint64.add a b = a + b.
Proof. intros Ha Hb Hlt. unfold Uint64.add, Uint64.wrap. apply Z.mod_small. lia. Qed.

End InvokeTransfer.

(** ** Which failures reach the sink *)

Section Reports.
Context {P : Primitives} {L : Ledger} {E : Engine}.

Lemma reports_bind {A B} (m : M A) (k : A → M B) :
  reports m → (∀ a, reports (k a)) → reports (m ≫= k).
Proof.
  intros Hm Hk w. rewrite bind_unfold. specialize (Hm w).
  destruct (m w) as [w1 [a| |]]; cbn in *.
  - apply Hk.
  - intros _. now apply Hm.
  - discriminate.
Qed.

Lemma reports_ret {A} (a : A) : reports (mret a).
Proof. intros w. discriminate. Qed.

Lemma reports_reject {A} level c reason : reports (reject (A:=A) level c reason).
Proof. intros w _. reflexivity. Qed.


Lemma reports_check o : reports (check o).
Proof. destruct o; [apply reports_reject | apply reports_ret]. Qed.

Lemma reports_require b level c reason : reports (require b level c reason).
Proof. destruct b; [apply reports_ret | apply reports_reject]. Qed.

Lemma reports_require_some {A} (o : option A) level c reason :
  reports (require_some o level c reason).
Proof. destruct o; [apply reports_ret | apply reports_reject]. Qed.



Lemma reports_GetAccount uid : reports (GetAccount uid).
Proof. intros w. discriminate. Qed.


Lemma reports_Fuel tx : reports (Deploy.Fuel tx).
Proof. intros w. discriminate. Qed.

(** Both [CheckTx] functions leave an entry in the sink whenever they
    return false. *)
Lemma deploy_CheckTx_reports (tx : CContractDeployTx) (height : Z) :
  reports (Deploy.CheckTx tx height).
Proof.
  unfold Deploy.CheckTx, Deploy.CheckFeePerKb.
  repeat (apply reports_bind; [|intros]);
    try first [ apply reports_check | apply reports_require
              | apply reports_require_some | apply reports_GetAccount
              | apply reports_Fuel ].
  destruct (_ =? _); [apply reports_require | apply reports_ret].
Qed.


End Reports.

(** ** Invoke: [CheckTx] *)

Section InvokeCheckTx.
Context {P : Primitives} {L : Ledger} {E : Engine}.

Lemma invoke_CheckTx_read_only (tx : CContractInvokeTx) (height : Z) :
  read_only (Invoke.CheckTx tx height).
Proof.
  unfold Invoke.CheckTx.
  repeat (apply read_only_bind; [auto with read_only | intros]);
    auto with read_only.
  destruct (txUid (i_base tx)); auto with read_only.
Qed.


End InvokeCheckTx.




(** ** Invoke: the order of the writes in every run *)

Section InvokeOrder.
Context {P : Primitives} {L : Ledger} {E : Engine}.

Lemma added_nil {A} (m : M A) (w : World) :
  trace (m w).1 = trace w → trace (m w).1 = (trace w ++ [])%list.
Proof. intros ->. now rewrite app_nil_r. Qed.

Section Shapes.
Variables (tx : CContractInvokeTx) (height index : Z) (w : World).
Variables (srcAcct prepared debited : CAccount) (generateRegID : bool).
Hypothesis Hget :
  accountCache_GetAccount (accountCache (cw w)) (txUid (i_base tx)) = Some srcAcct.
Hypothesis Hprep :
  Invoke.PrepareSender tx height index (accountCache (cw w)) srcAcct
  = (prepared, generateRegID).
Hypothesis Hdebit :
  OperateBalance prepared SYMB.WICC SUB_FREE
    (Uint64.add (llFees (i_base tx)) (bcoins tx)) = Some debited.

Lemma invoke_history_sender l :
  (l = [persist_sender generateRegID debited] ∨
   ∃ desAcct credited,
     OperateBalance desAcct SYMB.WICC ADD_FREE (bcoins tx) = Some credited ∧
     (l = [persist_sender generateRegID debited;
           EvSetAccount (appUid tx) credited] ∨
      ∃ c fuelRate steps rest,
        l = persist_sender generateRegID debited ::
            EvSetAccount (appUid tx) credited ::
            EvExecuteContract (InvokeTx tx) height c fuelRate steps :: rest)) →
  invoke_history tx height index w l.
Proof.
  intros Hl. right. exists srcAcct, debited. rewrite Hprep. cbn [fst snd].
  auto.
Qed.

Lemma invoke_history_destination desAcct credited l :
  OperateBalance desAcct SYMB.WICC ADD_FREE (bcoins tx) = Some credited →
  (l = [persist_sender generateRegID debited; EvSetAccount (appUid tx) credited] ∨
   ∃ c fuelRate steps rest,
     l = persist_sender generateRegID debited ::
         EvSetAccount (appUid tx) credited ::
         EvExecuteContract (InvokeTx tx) height c fuelRate steps :: rest) →
  invoke_history tx height index w l.
Proof. intros Hcredit Hl. apply invoke_history_sender. right. eauto. Qed.

End Shapes.

(** What any run of the invoke [ExecuteTx] adds to the history has one of
    the shapes of [invoke_history]: the engine is called, if at all, after
    the debited sender and the credited destination were written. *)
Lemma invoke_ExecuteTx_history (tx : CContractInvokeTx) (height index : Z) (w : World) :
  ∃ l, added w (Invoke.ExecuteTx tx height index w) l ∧
       invoke_history tx height index w l.
Proof.
  unfold added, Invoke.ExecuteTx.
  destruct (accountCache_GetAccount (accountCache (cw w)) (txUid (i_base tx)))
    as [srcAcct|] eqn:Hget.
  2: { exists []. split; [|now left].
       rewrite (bind_Ok (GetAccount _) _ w w None);
         [|unfold GetAccount; now rewrite Hget].
       now apply added_nil. }
  rewrite (bind_Ok (GetAccount _) _ w w (Some srcAcct));
    [|unfold GetAccount; now rewrite Hget].
  cbn [require_some]. rewrite (bind_Ok (mret srcAcct) _ w w srcAcct eq_refl).
  rewrite (bind_Ok Invoke.AccountView _ w w _ eq_refl).
  destruct (Invoke.PrepareSender tx height index (accountCache (cw w)) srcAcct)
    as [prepared generateRegID] eqn:Hprep.
  destruct (OperateBalance prepared SYMB.WICC SUB_FREE
              (Uint64.add (llFees (i_base tx)) (bcoins tx)))
    as [debited|] eqn:Hdebit.
  2: { exists []. split; [|now left]. now apply added_nil. }
  pose proof (invoke_history_sender tx height index w srcAcct prepared debited
                generateRegID Hget Hprep Hdebit) as Hsender.
  pose proof (invoke_history_destination tx height index w srcAcct prepared
                debited generateRegID Hget Hprep Hdebit) as Hdest.
  cbn [require_some]. rewrite (bind_Ok (mret debited) _ w w debited eq_refl).
  assert (Hpersist : ∃ ok wa,
    (if generateRegID then SaveAccount debited
     else SetAccount (UidKeyID (keyid debited)) debited) w = (wa, Ok ok) ∧
    trace wa = (trace w ++ [persist_sender generateRegID debited])%list).
  { destruct generateRegID; cbn [persist_sender].
    - unfold SaveAccount. destruct (accountCache_SaveAccount _ _). now eexists _, _.
    - unfold SetAccount. destruct (accountCache_SetAccount _ _ _). now eexists _, _. }
  destruct Hpersist as (ok & wa & Hpersist & Htra).
  rewrite (bind_Ok _ _ w wa ok Hpersist).
  destruct ok.
  2: { eexists. split; [cbn; exact Htra | apply Hsender; now left]. }
  cbn [require]. rewrite (bind_Ok (mret tt) _ wa wa tt eq_refl).
  rewrite (bind_Ok (GetAccount _) _ wa wa _ eq_refl).
  destruct (accountCache_GetAccount (accountCache (cw wa)) (appUid tx))
    as [desAcct|].
  2: { eexists. split; [|apply Hsender; now left].
       rewrite bind_unfold, require_some_logging_None.
       destruct (get_CRegID (appUid tx)); cbn; exact Htra. }
  cbn [require_some_logging].
  rewrite (bind_Ok (mret desAcct) _ wa wa desAcct eq_refl).
  destruct (OperateBalance desAcct SYMB.WICC ADD_FREE (bcoins tx))
    as [credited|] eqn:Hcredit.
  2: { eexists. split; [cbn; exact Htra | apply Hsender; now left]. }
  specialize (Hdest desAcct credited).
  cbn [require_some]. rewrite (bind_Ok (mret credited) _ wa wa credited eq_refl).
  assert (Hset : ∃ ok' wb,
    SetAccount (appUid tx) credited wa = (wb, Ok ok') ∧
    trace wb = (trace w ++ [persist_sender generateRegID debited;
                            EvSetAccount (appUid tx) credited])%list).
  { unfold SetAccount. destruct (accountCache_SetAccount _ _ _).
    eexists _, _. split; [reflexivity|]. cbn. rewrite Htra.
    now rewrite <- app_assoc. }
  destruct Hset as (ok' & wb & Hset & Htrb).
  rewrite (bind_Ok _ _ wa wb ok' Hset).
  destruct ok'.
  2: { eexists. split; [cbn; exact Htrb | apply Hdest; auto]. }
  cbn [require]. rewrite (bind_Ok (mret tt) _ wb wb tt eq_refl).
  destruct (get_CRegID (appUid tx)) as [appRegId|].
  2: { eexists. split; [cbn; exact Htrb | apply Hdest; auto]. }
  cbn [get_or_throw]. rewrite (bind_Ok (mret appRegId) _ wb wb appRegId eq_refl).
  rewrite (bind_Ok (GetContract _) _ wb wb _ eq_refl).
  destruct (contractCache_GetContract (contractCache (cw wb)) appRegId) as [c|].
  2: { eexists. split; [cbn; exact Htrb | apply Hdest; auto]. }
  cbn [require_some]. rewrite (bind_Ok (mret c) _ wb wb c eq_refl).
  rewrite (bind_Ok FuelRate _ wb wb _ eq_refl).
  match goal with
  | |- context [mbind ?k (RunContract ?pTx ?h ?r)] =>
      destruct (added_after_write (RunContract pTx h r) k
                  (EvExecuteContract pTx h (cw wb) r (nRunStep wb)) wb)
        as [rest Hrest];
        [now eexists _, _
        |intros out; solve_extends; apply extends_UpdateAccounts|]
  end.
  eexists. split.
  - rewrite Hrest, Htrb. rewrite <- app_assoc. reflexivity.
  - apply Hdest; [exact Hcredit|]. right. cbn. eauto.
Qed.

(** X18. In every run of the invoke [ExecuteTx], whatever it returns, the
    engine is called, if at all, after the sender, debited, and the
    destination, credited, were written: the two writes and the call are
    the first three events the run adds to the history. *)
Lemma invoke_engine_after_transfer
    (tx : CContractInvokeTx) (height index : Z) (w : World) (l : list Event)
    (pTx : Tx) (h : Z) (c : CCacheWrapper) (fuelRate steps : Z) :
  added w (Invoke.ExecuteTx tx height index w) l →
  EvExecuteContract pTx h c fuelRate steps ∈ l →
  ∃ generateRegID debited credited c' fuelRate' steps' rest,
    l = persist_sender generateRegID debited ::
        EvSetAccount (appUid tx) credited ::
        EvExecuteContract (InvokeTx tx) height c' fuelRate' steps' :: rest.
Proof.
  intros Hadd Hin.
  destruct (invoke_ExecuteTx_history tx height index w) as (l' & Hadd' & Hshape).
  unfold added in Hadd, Hadd'. rewrite Hadd in Hadd'.
  apply app_inv_head in Hadd'. subst l'.
  destruct Hshape as [->|(srcAcct & debited & _ & _ & Hshape)].
  { inversion Hin. }
  cbn zeta in Hshape.
  destruct Hshape as [->|(desAcct & credited & _ & [->|Hshape])].
  - apply list_elem_of_singleton in Hin.
    destruct (Invoke.PrepareSender _ _ _ _ _).2; discriminate.
  - apply elem_of_cons in Hin as [Hin|Hin].
    + destruct (Invoke.PrepareSender _ _ _ _ _).2; discriminate.
    + apply list_elem_of_singleton in Hin. discriminate.
  - destruct Hshape as (c' & fuelRate' & steps' & rest & ->). eauto 9.
Qed.

End InvokeOrder.

(** ** The scenarios of the specification, run on the in-memory instance *)

(** Sender with 1000, fee 10, value 50: [CheckTx] passes, [ExecuteTx]
    leaves 940 with the sender and 50 with the contract, and the involved
    key identifiers are those of the sender and of the contract. *)
Example scenario_invoke_10_50 :
  (Invoke.CheckTx Scenario.tx_10_50 100 Scenario.w0).2 = Ok tt ∧
  (Invoke.ExecuteTx Scenario.tx_10_50 100 3 Scenario.w0).2 = Ok tt ∧
  Scenario.balance (Invoke.ExecuteTx Scenario.tx_10_50 100 3 Scenario.w0).1 83 = 940 ∧
  Scenario.balance (Invoke.ExecuteTx Scenario.tx_10_50 100 3 Scenario.w0).1 600 = 50 ∧
  Invoke.GetInvolvedKeyIds Scenario.tx_10_50 (cw Scenario.w0) ∅ = (true, {[83; 600]}).
Proof. vm_compute. repeat split. Qed.

(** A deploy fee equal to the fuel cost passes [CheckTx]. *)
Example scenario_deploy_fee_equals_fuel :
  Deploy.fuelCost (Scenario.deploy 5 "mylib") Scenario.w0 = 5 ∧
  (Deploy.CheckTx (Scenario.deploy 5 "mylib") 100 Scenario.w0).2 = Ok tt.
Proof. vm_compute. repeat split. Qed.

(** The transaction whose fee and value add up to [2^64] passes [CheckTx]. *)
Example scenario_wrap_passes_CheckTx :
  (Invoke.CheckTx Scenario.tx_wrap 100 Scenario.w0).2 = Ok tt.
Proof. vm_compute. reflexivity. Qed.

(** The lengths the scenarios rely on. *)
Example scenario_lengths :
  String.length Scenario.pubKey = 33%nat ∧
  String.length Scenario.senderAddress = 34%nat ∧
  String.length Scenario.script80 = 80%nat.
Proof. repeat split. Qed.

(** ** [CheckTx]: what it accepts, what it leaves untouched *)

Section CheckTxOutcomes.
Context {P : Primitives} {L : Ledger} {E : Engine}.

Lemma accepts_check (o : option Rejection) (k : M unit) (w : World) :
  accepts ((check o ;; k) w) ↔ o = None ∧ accepts (k w).
Proof.
  unfold accepts. rewrite bind_unfold. destruct o; cbn.
  - split; [discriminate | intros [? _]; discriminate].
  - tauto.
Qed.

Lemma accepts_check_last (o : option Rejection) (w : World) :
  accepts (check o w) ↔ o = None.
Proof.
  unfold accepts. destruct o; cbn; split; try discriminate; reflexivity.
Qed.

Lemma accepts_require b level c reason (k : M unit) (w : World) :
  accepts ((require b level c reason ;; k) w) ↔ b = true ∧ accepts (k w).
Proof.
  unfold accepts. rewrite bind_unfold. destruct b; cbn.
  - tauto.
  - split; [discriminate | intros [? _]; discriminate].
Qed.

Lemma accepts_require_some {A} (o : option A) level c reason (k : A → M unit)
    (w : World) :
  accepts ((require_some o level c reason ≫= k) w) ↔
  ∃ a, o = Some a ∧ accepts (k a w).
Proof.
  unfold accepts. rewrite bind_unfold. destruct o as [a|]; cbn.
  - split; [eauto | intros (a' & Ha & H); now inversion Ha].
  - split; [discriminate | intros (a & ? & _); discriminate].
Qed.

Lemma accepts_require_some_logging {A B} (o : option A) (arg : option B)
    level c reason (k : A → M unit) (w : World) :
  accepts ((require_some_logging o arg level c reason ≫= k) w) ↔
  ∃ a, o = Some a ∧ accepts (k a w).
Proof.
  unfold accepts. rewrite bind_unfold. destruct o as [a|].
  - cbn. split; [eauto | intros (a' & Ha & H); now inversion Ha].
  - rewrite require_some_logging_None. split.
    + destruct arg; discriminate.
    + intros (a & ? & _). discriminate.
Qed.

Lemma accepts_get_or_throw {A} (o : option A) (k : A → M unit) (w : World) :
  accepts ((get_or_throw o ≫= k) w) ↔ ∃ a, o = Some a ∧ accepts (k a w).
Proof.
  unfold accepts. rewrite bind_unfold. destruct o as [a|]; cbn.
  - split; [eauto | intros (a' & Ha & H); now inversion Ha].
  - split; [discriminate | intros (a & ? & _); discriminate].
Qed.

(** X1. [CheckTx] of a deploy transaction returns true if and only if the
    fee macro and the sender-type macro pass, the contract is valid, the fee
    covers the fuel cost, the fee per 1000 bytes is not below
    [nMinRelayTxFee] when the fork version at [height] is [MAJOR_VER_R2],
    the sender account exists and has an owner public key, and the
    signature macro passes for that owner key. *)
Theorem deploy_CheckTx_accepts_iff (tx : CContractDeployTx) (height : Z) (w : World) :
  accepts (Deploy.CheckTx tx height w) ↔
  IMPLEMENT_CHECK_TX_FEE height (DeployTx tx) = None ∧
  IMPLEMENT_CHECK_TX_REGID (uid_type (txUid (d_base tx))) = None ∧
  CLuaContract_IsValid (contract tx) = true ∧
  Deploy.fuelCost tx w <= llFees (d_base tx) ∧
  (GetFeatureForkVersion height = MAJOR_VER_R2 →
     Double.ltb
       (Deploy.dFeePerKb (llFees (d_base tx)) (Deploy.fuelCost tx w)
          (GetSerializeSize (DeployTx tx)))
       (Double.of_Z nMinRelayTxFee) = false) ∧
  ∃ account,
    accountCache_GetAccount (accountCache (cw w)) (txUid (d_base tx)) = Some account ∧
    HaveOwnerPubKey account = true ∧
    IMPLEMENT_CHECK_TX_SIGNATURE (DeployTx tx) (owner_pubkey account) = None.
Proof.
  unfold Deploy.CheckTx.
  rewrite !accepts_check, accepts_require.
  rewrite (bind_Ok (Deploy.Fuel tx) _ w w _ eq_refl).
  rewrite accepts_require, negb_true_iff, Z.ltb_ge.
  assert (Htail : ∀ k : M unit,
    accepts (((if GetFeatureForkVersion height =? MAJOR_VER_R2
               then Deploy.CheckFeePerKb tx (Deploy.fuelCost tx w)
               else mret tt) ;; k) w) ↔
    (GetFeatureForkVersion height = MAJOR_VER_R2 →
       Double.ltb
         (Deploy.dFeePerKb (llFees (d_base tx)) (Deploy.fuelCost tx w)
            (GetSerializeSize (DeployTx tx)))
         (Double.of_Z nMinRelayTxFee) = false) ∧ accepts (k w)).
  { intros k. destruct (GetFeatureForkVersion height =? MAJOR_VER_R2) eqn:Hver.
    - apply Z.eqb_eq in Hver. rewrite deploy_CheckFeePerKb_unfold.
      rewrite accepts_require, negb_true_iff. tauto.
    - apply Z.eqb_neq in Hver.
      rewrite (bind_Ok (mret tt) _ w w tt eq_refl). tauto. }
  rewrite Htail.
  rewrite (bind_Ok (GetAccount _) _ w w _ eq_refl).
  rewrite accepts_require_some.
  setoid_rewrite accepts_require. setoid_rewrite accepts_check_last.
  tauto.
Qed.

(** X2. [CheckTx] of an invoke transaction returns true if and only if the
    four macros on fee, arguments, sender type and destination type pass, a
    sender given as a public key is a fully valid key, the sender account
    exists and has an owner public key, the destination is a registration
    identifier with a contract record, and the signature macro passes: for
    the public key of the transaction when the sender is given as one, for
    the owner key stored in the account otherwise. *)
Theorem invoke_CheckTx_accepts_iff (tx : CContractInvokeTx) (height : Z) (w : World) :
  accepts (Invoke.CheckTx tx height w) ↔
  IMPLEMENT_CHECK_TX_FEE height (InvokeTx tx) = None ∧
  IMPLEMENT_CHECK_TX_ARGUMENTS (InvokeTx tx) = None ∧
  IMPLEMENT_CHECK_TX_REGID_OR_PUBKEY (uid_type (txUid (i_base tx))) = None ∧
  IMPLEMENT_CHECK_TX_APPID (uid_type (appUid tx)) = None ∧
  (∀ pubKey, txUid (i_base tx) = UidPubKey pubKey →
     CPubKey_IsFullyValid pubKey = true) ∧
  ∃ srcAccount appRegId contract,
    accountCache_GetAccount (accountCache (cw w)) (txUid (i_base tx)) = Some srcAccount ∧
    HaveOwnerPubKey srcAccount = true ∧
    appUid tx = UidRegID appRegId ∧
    contractCache_GetContract (contractCache (cw w)) appRegId = Some contract ∧
    IMPLEMENT_CHECK_TX_SIGNATURE (InvokeTx tx)
      match txUid (i_base tx) with
      | UidPubKey pubKey => Some pubKey
      | _ => owner_pubkey srcAccount
      end = None.
Proof.
  unfold Invoke.CheckTx.
  rewrite !accepts_check.
  assert (Hpk : ∀ k : M unit,
    accepts ((match txUid (i_base tx) with
              | UidPubKey pubKey =>
                  require (CPubKey_IsFullyValid pubKey) 100 REJECT_INVALID
                    "bad-publickey"
              | _ => mret tt
              end ;; k) w) ↔
    (∀ pubKey, txUid (i_base tx) = UidPubKey pubKey →
       CPubKey_IsFullyValid pubKey = true) ∧ accepts (k w)).
  { intros k. destruct (txUid (i_base tx)) as [| | |pubKey|];
      try (rewrite (bind_Ok (mret tt) _ w w tt eq_refl);
           split; [intros H; split; [intros ? ?; discriminate | exact H] | tauto]).
    rewrite accepts_require. split.
    - intros [Hv Hk]. split; [intros pk Heq; congruence | exact Hk].
    - intros [Hv Hk]. split; [now apply Hv | exact Hk]. }
  rewrite Hpk.
  rewrite (bind_Ok (GetAccount _) _ w w _ eq_refl).
  rewrite accepts_require_some_logging.
  setoid_rewrite accepts_require.
  setoid_rewrite accepts_get_or_throw.
  assert (Hlook : ∀ (r : CRegID) (k : CContract → M unit),
    accepts ((o ← GetContract r;
              c ← require_some o 100 REJECT_INVALID "bad-read-script"; k c) w) ↔
    ∃ c, contractCache_GetContract (contractCache (cw w)) r = Some c ∧
         accepts (k c w)).
  { intros r k. rewrite (bind_Ok (GetContract r) _ w w _ eq_refl).
    now rewrite accepts_require_some. }
  setoid_rewrite Hlook.
  setoid_rewrite accepts_check_last.
  split.
  - intros (? & ? & ? & ? & ? & a & ? & ? & r & Hr & c & ? & ?).
    repeat (split; [assumption|]).
    exists a, r, c. repeat split; try assumption.
    destruct (appUid tx); try discriminate. cbn in Hr. now inversion Hr.
  - intros (? & ? & ? & ? & ? & a & r & c & ? & ? & Happ & ? & ?).
    repeat (split; [assumption|]).
    exists a. repeat (split; [assumption|]).
    exists r. split; [now rewrite Happ|]. eauto.
Qed.

End CheckTxOutcomes.

(** ** [CheckTx] only reads *)

Section Silent.
Context {P : Primitives} {L : Ledger} {E : Engine}.

Lemma silent_ok_bind {A B} (m : M A) (k : A → M B) :
  silent_ok m → (∀ a, silent_ok (k a)) → silent_ok (m ≫= k).
Proof.
  intros Hm Hk w w' b H. apply bind_Ok_inv in H as (a & w1 & H1 & H2).
  apply Hm in H1. subst w1. now apply Hk in H2.
Qed.

Lemma silent_ok_ret {A} (a : A) : silent_ok (mret a).
Proof. intros w w' a' H. now inversion H. Qed.

Lemma silent_ok_reject {A} level c reason : silent_ok (reject (A:=A) level c reason).
Proof. intros w w' a H. discriminate. Qed.

Lemma silent_ok_throw {A} : silent_ok (throw (A:=A)).
Proof. intros w w' a H. discriminate. Qed.

Lemma silent_ok_check o : silent_ok (check o).
Proof. destruct o; [apply silent_ok_reject | apply silent_ok_ret]. Qed.

Lemma silent_ok_require b level c reason : silent_ok (require b level c reason).
Proof. destruct b; [apply silent_ok_ret | apply silent_ok_reject]. Qed.

Lemma silent_ok_require_some {A} (o : option A) level c reason :
  silent_ok (require_some o level c reason).
Proof. destruct o; [apply silent_ok_ret | apply silent_ok_reject]. Qed.

Lemma silent_ok_get_or_throw {A} (o : option A) : silent_ok (get_or_throw o).
Proof. destruct o; [apply silent_ok_ret | apply silent_ok_throw]. Qed.

Lemma silent_ok_require_some_logging {A B} (o : option A) (arg : option B)
    level c reason :
  silent_ok (require_some_logging o arg level c reason).
Proof. intros w w' a H. destruct o, arg; cbn in H; now inversion H. Qed.

Lemma silent_ok_GetAccount uid : silent_ok (GetAccount uid).
Proof. intros w w' a H. now inversion H. Qed.

Lemma silent_ok_GetContract r : silent_ok (GetContract r).
Proof. intros w w' a H. now inversion H. Qed.

Lemma silent_ok_Fuel tx : silent_ok (Deploy.Fuel tx).
Proof. intros w w' a H. now inversion H. Qed.

Lemma read_only_Fuel tx : read_only (Deploy.Fuel tx).
Proof. intros w. now cbn. Qed.

Lemma deploy_CheckTx_read_only (tx : CContractDeployTx) (height : Z) :
  read_only (Deploy.CheckTx tx height).
Proof.
  unfold Deploy.CheckTx, Deploy.CheckFeePerKb.
  repeat (apply read_only_bind; [|intros]);
    try first [ apply read_only_Fuel | solve [auto with read_only] ].
  destruct (_ =? _); auto with read_only.
Qed.

Lemma deploy_CheckTx_silent_ok (tx : CContractDeployTx) (height : Z) :
  silent_ok (Deploy.CheckTx tx height).
Proof.
  unfold Deploy.CheckTx, Deploy.CheckFeePerKb.
  repeat (apply silent_ok_bind; [|intros]);
    try first [ apply silent_ok_check | apply silent_ok_require
              | apply silent_ok_require_some | apply silent_ok_GetAccount
              | apply silent_ok_Fuel ].
  destruct (_ =? _); [apply silent_ok_require | apply silent_ok_ret].
Qed.

Lemma invoke_CheckTx_silent_ok (tx : CContractInvokeTx) (height : Z) :
  silent_ok (Invoke.CheckTx tx height).
Proof.
  unfold Invoke.CheckTx.
  repeat (apply silent_ok_bind; [|intros]);
    try first [ apply silent_ok_check | apply silent_ok_require
              | apply silent_ok_require_some | apply silent_ok_GetAccount
              | apply silent_ok_GetContract | apply silent_ok_get_or_throw
              | apply silent_ok_require_some_logging ].
  destruct (txUid (i_base tx)); first [apply silent_ok_require | apply silent_ok_ret].
Qed.

(** X3. Neither [CheckTx] writes: whatever it returns, the views, the step
    count of the transaction and the history of writes are as before the
    call; and when it returns true the validation state is as before too,
    so the whole state is unchanged. *)
Theorem CheckTx_writes_nothing
    (dtx : CContractDeployTx) (itx : CContractInvokeTx) (height : Z) (w : World) :
  (cw (Deploy.CheckTx dtx height w).1 = cw w ∧
   nRunStep (Deploy.CheckTx dtx height w).1 = nRunStep w ∧
   trace (Deploy.CheckTx dtx height w).1 = trace w ∧
   (accepts (Deploy.CheckTx dtx height w) → (Deploy.CheckTx dtx height w).1 = w)) ∧
  (cw (Invoke.CheckTx itx height w).1 = cw w ∧
   nRunStep (Invoke.CheckTx itx height w).1 = nRunStep w ∧
   trace (Invoke.CheckTx itx height w).1 = trace w ∧
   (accepts (Invoke.CheckTx itx height w) → (Invoke.CheckTx itx height w).1 = w)).
Proof.
  split.
  - destruct (deploy_CheckTx_read_only dtx height w) as (Hcw & Hst & Htr).
    repeat (split; [assumption|]).
    unfold accepts. intros Hok.
    apply (deploy_CheckTx_silent_ok dtx height w _ tt).
    destruct (Deploy.CheckTx dtx height w) as [w' r]. cbn in *. now subst r.
  - destruct (invoke_CheckTx_read_only itx height w) as (Hcw & Hst & Htr).
    repeat (split; [assumption|]).
    unfold accepts. intros Hok.
    apply (invoke_CheckTx_silent_ok itx height w _ tt).
    destruct (Invoke.CheckTx itx height w) as [w' r]. cbn in *. now subst r.
Qed.

(** *** Steps that raise no exception *)

Lemma nothrow_bind {A B} (m : M A) (k : A → M B) :
  nothrow m → (∀ a, nothrow (k a)) → nothrow (m ≫= k).
Proof.
  intros Hm Hk w. rewrite bind_unfold. specialize (Hm w).
  destruct (m w) as [w1 [a| |]]; cbn in *.
  - apply Hk.
  - discriminate.
  - contradiction.
Qed.

Lemma nothrow_total {A} (m : M A) :
  (∀ w, ∃ a, (m w).2 = Ok a) → nothrow m.
Proof. intros H w. destruct (H w) as [a ->]. discriminate. Qed.

Lemma nothrow_ret {A} (a : A) : nothrow (mret a).
Proof. intros w. discriminate. Qed.

Lemma nothrow_reject {A} level c reason : nothrow (reject (A:=A) level c reason).
Proof. intros w. discriminate. Qed.

Lemma nothrow_return_false {A} : nothrow (return_false (A:=A)).
Proof. intros w. discriminate. Qed.

Lemma nothrow_check o : nothrow (check o).
Proof. destruct o; [apply nothrow_reject | apply nothrow_ret]. Qed.

Lemma nothrow_require b level c reason : nothrow (require b level c reason).
Proof. destruct b; [apply nothrow_ret | apply nothrow_reject]. Qed.

Lemma nothrow_require_some {A} (o : option A) level c reason :
  nothrow (require_some o level c reason).
Proof. destruct o; [apply nothrow_ret | apply nothrow_reject]. Qed.

Lemma nothrow_GetAccount uid : nothrow (GetAccount uid).
Proof. intros w. discriminate. Qed.

Lemma nothrow_GetContract r : nothrow (GetContract r).
Proof. intros w. discriminate. Qed.

Lemma nothrow_Fuel tx : nothrow (Deploy.Fuel tx).
Proof. intros w. discriminate. Qed.

Lemma nothrow_FuelRate : nothrow FuelRate.
Proof. intros w. discriminate. Qed.

Lemma nothrow_AccountView : nothrow Invoke.AccountView.
Proof. intros w. discriminate. Qed.

Lemma nothrow_set_nRunStep n : nothrow (set_nRunStep n).
Proof. intros w. discriminate. Qed.

Lemma nothrow_SetAccount uid a : nothrow (SetAccount uid a).
Proof. intros w. unfold SetAccount. now destruct (accountCache_SetAccount _ _ _). Qed.

Lemma nothrow_SaveAccount a : nothrow (SaveAccount a).
Proof. intros w. unfold SaveAccount. now destruct (accountCache_SaveAccount _ _). Qed.

Lemma nothrow_SaveContract r c : nothrow (SaveContract r c).
Proof. intros w. unfold SaveContract. now destruct (contractCache_SaveContract _ _ _). Qed.

Lemma nothrow_SetTxRelAccout h s : nothrow (SetTxRelAccout h s).
Proof.
  intros w. unfold SetTxRelAccout. now destruct (contractCache_SetTxRelAccout _ _ _).
Qed.

Lemma nothrow_RunContract pTx height fuelRate : nothrow (RunContract pTx height fuelRate).
Proof. intros w. discriminate. Qed.

Lemma nothrow_DoSaveTxAddresses height index uids :
  nothrow (DoSaveTxAddresses height index uids).
Proof.
  intros w. unfold DoSaveTxAddresses.
  destruct (SaveTxAddresses _ _ _ _ _) as [[[] c] st]; discriminate.
Qed.

End Silent.

Create HintDb nothrow.
#[global] Hint Resolve nothrow_ret nothrow_reject nothrow_return_false
  nothrow_check nothrow_require nothrow_require_some nothrow_GetAccount
  nothrow_GetContract nothrow_Fuel nothrow_FuelRate nothrow_AccountView
  nothrow_set_nRunStep nothrow_SetAccount nothrow_SaveAccount
  nothrow_SaveContract nothrow_SetTxRelAccout nothrow_RunContract
  nothrow_DoSaveTxAddresses : nothrow.

(** Walks through a sequence of steps, one [nothrow] obligation each. *)
Ltac solve_nothrow :=
  repeat first
    [ progress auto with nothrow
    | apply nothrow_bind; [|intros]
    | match goal with
      | |- nothrow (if ?b then _ else _) => destruct b
      | |- nothrow (match ?o with _ => _ end) => destruct o
      end ].

Section LoopRaisesNone.
Context {P : Primitives} {L : Ledger} {E : Engine}.

Lemma nothrow_UpdateAccounts vAccount vAddress :
  nothrow (Invoke.UpdateAccounts vAccount vAddress).
Proof.
  revert vAddress. induction vAccount as [|a rest IH]; intros vAddress; cbn.
  - auto with nothrow.
  - solve_nothrow.
Qed.

End LoopRaisesNone.


(** ** [CheckTx]: the rejections *)

Section CheckTxRejections.
Context {P : Primitives} {L : Ledger} {E : Engine}.
Variable macro : Rejection → Prop.
Variable own : list string.

Lemma rejects_from_bind {A B} (m : M A) (k : A → M B) :
  rejects_from macro own m → silent_ok m → (∀ a, rejects_from macro own (k a)) →
  rejects_from macro own (m ≫= k).
Proof.
  intros Hm Hs Hk w. rewrite bind_unfold.
  specialize (Hm w). pose proof (Hs w) as Hsw.
  destruct (m w) as [w1 [a| |]]; cbn [fst snd] in *.
  - rewrite <- (Hsw w1 a eq_refl). apply Hk.
  - intros _. now apply Hm.
  - discriminate.
Qed.

Lemma rejects_from_true {A} (m : M A) :
  (∀ w, (m w).2 ≠ RetFalse) → rejects_from macro own m.
Proof. intros H w Hf. now apply H in Hf. Qed.

Lemma rejects_from_ret {A} (a : A) : rejects_from macro own (mret a).
Proof. now apply rejects_from_true. Qed.

Lemma rejects_from_own {A} reason :
  reason ∈ own → rejects_from macro own (reject (A:=A) 100 REJECT_INVALID reason).
Proof.
  intros Hin w _. exists (mkRejection 100 REJECT_INVALID reason).
  split; [reflexivity|]. right. now repeat split.
Qed.

Lemma rejects_from_check o :
  (∀ r, o = Some r → macro r) → rejects_from macro own (check o).
Proof.
  intros Hm. destruct o as [[level c reason]|]; [|apply rejects_from_ret].
  intros w _. exists (mkRejection level c reason).
  split; [reflexivity|]. left. now apply Hm.
Qed.

Lemma rejects_from_require b reason :
  reason ∈ own → rejects_from macro own (require b 100 REJECT_INVALID reason).
Proof.
  intros Hin. destruct b; [apply rejects_from_ret | now apply rejects_from_own].
Qed.

Lemma rejects_from_require_some {A} (o : option A) reason :
  reason ∈ own → rejects_from macro own (require_some o 100 REJECT_INVALID reason).
Proof.
  intros Hin. destruct o; [apply rejects_from_ret | now apply rejects_from_own].
Qed.

Lemma rejects_from_require_some_logging {A B} (o : option A) (arg : option B)
    reason :
  reason ∈ own →
  rejects_from macro own (require_some_logging o arg 100 REJECT_INVALID reason).
Proof.
  intros Hin. destruct o; [apply rejects_from_ret|].
  intros w. rewrite require_some_logging_None.
  destruct arg; [now apply rejects_from_own | discriminate].
Qed.

Lemma rejects_from_get_or_throw {A} (o : option A) :
  rejects_from macro own (get_or_throw o).
Proof. apply rejects_from_true. intros w. now destruct o. Qed.

End CheckTxRejections.

Section CheckTxTaxonomy.
Context {P : Primitives} {L : Ledger} {E : Engine}.

Lemma deploy_CheckTx_rejects_from (tx : CContractDeployTx) (height : Z) :
  rejects_from (deploy_CheckTx_macros tx height) deploy_CheckTx_reasons
    (Deploy.CheckTx tx height).
Proof.
  unfold Deploy.CheckTx, Deploy.CheckFeePerKb, deploy_CheckTx_macros,
    deploy_CheckTx_reasons.
  apply rejects_from_bind;
    [apply rejects_from_check; auto | apply silent_ok_check | intros _].
  apply rejects_from_bind;
    [apply rejects_from_check; auto | apply silent_ok_check | intros _].
  apply rejects_from_bind;
    [apply rejects_from_require; set_solver | apply silent_ok_require | intros _].
  apply rejects_from_bind;
    [now apply rejects_from_true | apply silent_ok_Fuel | intros llFuel].
  apply rejects_from_bind;
    [apply rejects_from_require; set_solver | apply silent_ok_require | intros _].
  apply rejects_from_bind; [| |intros _].
  { destruct (_ =? _);
      [apply rejects_from_require; set_solver | apply rejects_from_ret]. }
  { destruct (_ =? _); [apply silent_ok_require | apply silent_ok_ret]. }
  apply rejects_from_bind;
    [now apply rejects_from_true | apply silent_ok_GetAccount | intros o].
  apply rejects_from_bind;
    [apply rejects_from_require_some; set_solver
    | apply silent_ok_require_some | intros account].
  apply rejects_from_bind;
    [apply rejects_from_require; set_solver | apply silent_ok_require | intros _].
  apply rejects_from_check. eauto.
Qed.

Lemma invoke_CheckTx_rejects_from (tx : CContractInvokeTx) (height : Z) :
  rejects_from (invoke_CheckTx_macros tx height) invoke_CheckTx_reasons
    (Invoke.CheckTx tx height).
Proof.
  unfold Invoke.CheckTx, invoke_CheckTx_macros, invoke_CheckTx_reasons.
  do 4 (apply rejects_from_bind;
    [apply rejects_from_check; auto 6 | apply silent_ok_check | intros _]).
  apply rejects_from_bind; [| |intros _].
  { destruct (txUid (i_base tx));
      first [apply rejects_from_ret | apply rejects_from_require; set_solver]. }
  { destruct (txUid (i_base tx));
      first [apply silent_ok_ret | apply silent_ok_require]. }
  apply rejects_from_bind;
    [now apply rejects_from_true | apply silent_ok_GetAccount | intros o].
  apply rejects_from_bind;
    [apply rejects_from_require_some_logging; set_solver
    | apply silent_ok_require_some_logging | intros srcAccount].
  apply rejects_from_bind;
    [apply rejects_from_require; set_solver | apply silent_ok_require | intros _].
  apply rejects_from_bind;
    [apply rejects_from_get_or_throw | apply silent_ok_get_or_throw | intros appRegId].
  apply rejects_from_bind;
    [now apply rejects_from_true | apply silent_ok_GetContract | intros o'].
  apply rejects_from_bind;
    [apply rejects_from_require_some; set_solver
    | apply silent_ok_require_some | intros contract].
  apply rejects_from_check. eauto 6.
Qed.

(** X4. A [CheckTx] that returns false has recorded exactly one rejection
    on top of the validation state it was given: either the one a checking
    macro of [tx.h] handed out, as it is, or one of its own, which has
    severity 100, code [REJECT_INVALID] and one of five reasons for a
    deploy, one of four for an invoke. *)
Theorem CheckTx_rejections
    (dtx : CContractDeployTx) (itx : CContractInvokeTx) (height : Z) (w : World) :
  ((Deploy.CheckTx dtx height w).2 = RetFalse →
   ∃ r, state (Deploy.CheckTx dtx height w).1 = DoS r (state w) ∧
        (deploy_CheckTx_macros dtx height r ∨
         (rej_level r = 100 ∧ rej_code r = REJECT_INVALID ∧
          rej_reason r ∈ deploy_CheckTx_reasons))) ∧
  ((Invoke.CheckTx itx height w).2 = RetFalse →
   ∃ r, state (Invoke.CheckTx itx height w).1 = DoS r (state w) ∧
        (invoke_CheckTx_macros itx height r ∨
         (rej_level r = 100 ∧ rej_code r = REJECT_INVALID ∧
          rej_reason r ∈ invoke_CheckTx_reasons))).
Proof.
  split; [apply deploy_CheckTx_rejects_from | apply invoke_CheckTx_rejects_from].
Qed.

End CheckTxTaxonomy.

(** ** Deploy: the runs of [ExecuteTx] *)

Section DeployRuns.
Context {P : Primitives} {L : Ledger} {E : Engine}.

Lemma run_pair {A} (m : M A) (w : World) : ∃ w' r, m w = (w', r).
Proof. destruct (m w) as [w' r]. eauto. Qed.

Lemma SetAccount_total uid a (w : World) :
  ∃ w' ok, SetAccount uid a w = (w', Ok ok).
Proof.
  unfold SetAccount. destruct (accountCache_SetAccount _ _ _). eauto.
Qed.

Lemma SaveAccount_total a (w : World) :
  ∃ w' ok, SaveAccount a w = (w', Ok ok).
Proof.
  unfold SaveAccount. destruct (accountCache_SaveAccount _ _). eauto.
Qed.

Lemma SaveContract_total r c (w : World) :
  ∃ w' ok, SaveContract r c w = (w', Ok ok).
Proof.
  unfold SaveContract. destruct (contractCache_SaveContract _ _ _). eauto.
Qed.

(** What a write to the account view leaves as it was. *)
Lemma SetAccount_keeps uid a (w w' : World) ok :
  SetAccount uid a w = (w', Ok ok) →
  state w' = state w ∧ nRunStep w' = nRunStep w ∧
  contractCache (cw w') = contractCache (cw w) ∧
  trace w' = (trace w ++ [EvSetAccount uid a])%list.
Proof.
  unfold SetAccount. destruct (accountCache_SetAccount _ _ _).
  intros H. now inversion H.
Qed.

Lemma SaveAccount_keeps a (w w' : World) ok :
  SaveAccount a w = (w', Ok ok) →
  state w' = state w ∧ nRunStep w' = nRunStep w ∧
  contractCache (cw w') = contractCache (cw w) ∧
  trace w' = (trace w ++ [EvSaveAccount a])%list.
Proof.
  unfold SaveAccount. destruct (accountCache_SaveAccount _ _).
  intros H. now inversion H.
Qed.

Lemma SaveContract_keeps r c (w w' : World) ok :
  SaveContract r c w = (w', Ok ok) →
  state w' = state w ∧ nRunStep w' = nRunStep w ∧
  accountCache (cw w') = accountCache (cw w) ∧
  trace w' = (trace w ++ [EvSaveContract r c])%list.
Proof.
  unfold SaveContract. destruct (contractCache_SaveContract _ _ _).
  intros H. now inversion H.
Qed.

(** Every run of the deploy [ExecuteTx] is one of the cases of
    [deploy_run]. *)
Lemma deploy_ExecuteTx_run (tx : CContractDeployTx) (height index : Z) (w : World) :
  deploy_run tx height index w (Deploy.ExecuteTx tx height index w).
Proof.
  unfold Deploy.ExecuteTx.
  rewrite (bind_Ok (GetAccount _) _ w w _ eq_refl).
  destruct (accountCache_GetAccount (accountCache (cw w)) (txUid (d_base tx)))
    as [account|] eqn:Hget.
  2: { now apply deploy_no_sender. }
  cbn [require_some]. rewrite (bind_Ok (mret account) _ w w account eq_refl).
  destruct (OperateBalance account SYMB.WICC SUB_FREE (llFees (d_base tx)))
    as [debited|] eqn:Hdebit.
  2: { now apply (deploy_no_funds _ _ _ _ account). }
  cbn [require_some]. rewrite (bind_Ok (mret debited) _ w w debited eq_refl).
  destruct (SetAccount_total (UidKeyID (keyid debited)) debited w)
    as (w1 & ok1 & H1).
  rewrite (bind_Ok _ _ w w1 ok1 H1).
  destruct ok1.
  2: { now apply (deploy_sender_not_saved _ _ _ _ account debited). }
  cbn [require]. rewrite (bind_Ok (mret tt) _ w1 w1 tt eq_refl).
  destruct (SaveContract_total (mkCRegID height index)
              (mkCContract LUA_VM (code (contract tx)) "" (memo (contract tx))) w1)
    as (w2 & ok2 & H2).
  rewrite (bind_Ok _ _ w1 w2 ok2 H2).
  destruct ok2.
  2: { now apply (deploy_contract_not_saved _ _ _ _ account debited w1). }
  cbn [require]. rewrite (bind_Ok (mret tt) _ w2 w2 tt eq_refl).
  destruct (SaveAccount_total (Deploy.contractAccount height index) w2)
    as (w3 & ok3 & H3).
  rewrite (bind_Ok _ _ w2 w3 ok3 H3).
  destruct ok3.
  2: { now apply (deploy_account_not_saved _ _ _ _ account debited w1 w2). }
  cbn [require]. rewrite (bind_Ok (mret tt) _ w3 w3 tt eq_refl).
  rewrite (bind_Ok (set_nRunStep _) _ w3 _ tt eq_refl).
  now apply (deploy_all_saved _ _ _ _ account debited w1 w2 w3).
Qed.

Lemma app_not_self {A} (l r : list A) (x : A) : (l ++ x :: r)%list ≠ l.
Proof.
  intros H. apply (f_equal length) in H. rewrite length_app in H. cbn in H. lia.
Qed.

Lemma DoSaveTxAddresses_keeps height index uids (w : World) :
  trace (DoSaveTxAddresses height index uids w).1
    = (trace w ++ [EvSaveTxAddresses height index uids])%list ∧
  nRunStep (DoSaveTxAddresses height index uids w).1 = nRunStep w ∧
  (DoSaveTxAddresses height index uids w).2 ≠ Thrown.
Proof.
  unfold DoSaveTxAddresses.
  destruct (SaveTxAddresses _ _ _ _ _) as [[[] c] st]; cbn; repeat split; discriminate.
Qed.

(** X6. A deploy [ExecuteTx] makes no write at all exactly when the sender
    account is missing or its free WICC balance is below the fee; it then
    returns false, leaves the views as they were, and records one rejection
    with code [UPDATE_ACCOUNT_FAIL], severity 100 and reason
    "bad-read-accountdb" or "operate-account-failed". *)
Theorem deploy_ExecuteTx_no_write_iff
    (tx : CContractDeployTx) (height index : Z) (w : World) :
  (trace (Deploy.ExecuteTx tx height index w).1 = trace w ↔
   accountCache_GetAccount (accountCache (cw w)) (txUid (d_base tx)) = None ∨
   ∃ account,
     accountCache_GetAccount (accountCache (cw w)) (txUid (d_base tx)) = Some account ∧
     free_amount account SYMB.WICC < llFees (d_base tx)) ∧
  (trace (Deploy.ExecuteTx tx height index w).1 = trace w →
   (Deploy.ExecuteTx tx height index w).2 = RetFalse ∧
   cw (Deploy.ExecuteTx tx height index w).1 = cw w ∧
   (rejected_in (state w) UPDATE_ACCOUNT_FAIL "bad-read-accountdb"
      (state (Deploy.ExecuteTx tx height index w).1) ∨
    rejected_in (state w) UPDATE_ACCOUNT_FAIL "operate-account-failed"
      (state (Deploy.ExecuteTx tx height index w).1))).
Proof.
  pose proof (deploy_ExecuteTx_run tx height index w) as Hrun.
  remember (Deploy.ExecuteTx tx height index w) as out eqn:Hout. clear Hout.
  destruct Hrun as
    [Hget
    |account Hget Hdebit
    |account debited w1 Hget Hdebit H1
    |account debited w1 w2 Hget Hdebit H1 H2
    |account debited w1 w2 w3 Hget Hdebit H1 H2 H3
    |account debited w1 w2 w3 Hget Hdebit H1 H2 H3].
  - cbn. split; [split; auto|]. intros _. repeat split; auto. left. now split.
  - cbn. split.
    + split; [|reflexivity]. intros _. right. exists account. split; [exact Hget|].
      unfold OperateBalance in Hdebit.
      destruct (_ <? _) eqn:Hlt; [now apply Z.ltb_lt in Hlt | discriminate].
    + intros _. repeat split; auto. right. now split.
  - apply SetAccount_keeps in H1 as (_ & _ & _ & Htr). cbn [reject fst trace].
    rewrite Htr. split; [split|].
    + intros Hno. now apply app_not_self in Hno.
    + intros [Hnone|(a & Ha & Hlt)]; [congruence|].
      rewrite Hget in Ha. inversion Ha; subst a.
      apply OperateBalance_SUB_FREE in Hdebit as [Hle _]. lia.
    + intros Hno. now apply app_not_self in Hno.
  - apply SetAccount_keeps in H1 as (_ & _ & _ & Htr1).
    apply SaveContract_keeps in H2 as (_ & _ & _ & Htr2). cbn [reject fst trace].
    rewrite Htr2, Htr1, <- app_assoc. split; [split|].
    + intros Hno. now apply app_not_self in Hno.
    + intros [Hnone|(a & Ha & Hlt)]; [congruence|].
      rewrite Hget in Ha. inversion Ha; subst a.
      apply OperateBalance_SUB_FREE in Hdebit as [Hle _]. lia.
    + intros Hno. now apply app_not_self in Hno.
  - apply SetAccount_keeps in H1 as (_ & _ & _ & Htr1).
    apply SaveContract_keeps in H2 as (_ & _ & _ & Htr2).
    apply SaveAccount_keeps in H3 as (_ & _ & _ & Htr3). cbn [reject fst trace].
    rewrite Htr3, Htr2, Htr1, <- !app_assoc. split; [split|].
    + intros Hno. now apply app_not_self in Hno.
    + intros [Hnone|(a & Ha & Hlt)]; [congruence|].
      rewrite Hget in Ha. inversion Ha; subst a.
      apply OperateBalance_SUB_FREE in Hdebit as [Hle _]. lia.
    + intros Hno. now apply app_not_self in Hno.
  - apply SetAccount_keeps in H1 as (_ & _ & _ & Htr1).
    apply SaveContract_keeps in H2 as (_ & _ & _ & Htr2).
    apply SaveAccount_keeps in H3 as (_ & _ & _ & Htr3).
    destruct (DoSaveTxAddresses_keeps height index [txUid (d_base tx)]
                (set_nRunStep (GetContractSize (contract tx)) w3).1)
      as (Htr4 & _ & _).
    rewrite Htr4. cbn [set_nRunStep fst trace].
    rewrite Htr3, Htr2, Htr1, <- !app_assoc. split; [split|].
    + intros Hno. now apply app_not_self in Hno.
    + intros [Hnone|(a & Ha & Hlt)]; [congruence|].
      rewrite Hget in Ha. inversion Ha; subst a.
      apply OperateBalance_SUB_FREE in Hdebit as [Hle _]. lia.
    + intros Hno. now apply app_not_self in Hno.
Qed.

End DeployRuns.

Section DeployEffects.
Context {P : Primitives} {L : Ledger} {E : Engine}.

Lemma OperateBalance_other a symbol opType value a' other :
  OperateBalance a symbol opType value = Some a' →
  other ≠ symbol → free_amount a' other = free_amount a other.
Proof.
  intros H Hne.
  assert (Hset : ∀ v, free_amount (set_free_amount a symbol v) other
                      = free_amount a other).
  { intros v. unfold free_amount, set_free_amount. cbn.
    now rewrite lookup_insert_ne. }
  unfold OperateBalance in H. destruct opType.
  - inversion H. apply Hset.
  - destruct (_ <? _); [discriminate|]. inversion H. apply Hset.
Qed.

(** X7. The writes of a deploy [ExecuteTx] come in one fixed order: the
    debited sender, the contract record, the contract account, the
    addresses of the transaction.  What a run adds to the history is empty
    or a non-empty prefix of these four writes, so a run that fails after
    its first write has left the debit of the sender written; the run
    returns true only after all four. *)
Theorem deploy_ExecuteTx_writes_in_order
    (tx : CContractDeployTx) (height index : Z) (w : World) :
  trace (Deploy.ExecuteTx tx height index w).1 = trace w ∨
  ∃ account debited l,
    accountCache_GetAccount (accountCache (cw w)) (txUid (d_base tx)) = Some account ∧
    OperateBalance account SYMB.WICC SUB_FREE (llFees (d_base tx)) = Some debited ∧
    trace (Deploy.ExecuteTx tx height index w).1 = (trace w ++ l)%list ∧
    l ≠ [] ∧
    l `prefix_of` deploy_writes tx height index debited ∧
    (accepts (Deploy.ExecuteTx tx height index w) →
     l = deploy_writes tx height index debited).
Proof.
  pose proof (deploy_ExecuteTx_run tx height index w) as Hrun.
  remember (Deploy.ExecuteTx tx height index w) as out eqn:Hout. clear Hout.
  destruct Hrun as
    [Hget
    |account Hget Hdebit
    |account debited w1 Hget Hdebit H1
    |account debited w1 w2 Hget Hdebit H1 H2
    |account debited w1 w2 w3 Hget Hdebit H1 H2 H3
    |account debited w1 w2 w3 Hget Hdebit H1 H2 H3].
  - now left.
  - now left.
  - right. apply SetAccount_keeps in H1 as (_ & _ & _ & Htr1).
    exists account, debited, [EvSetAccount (UidKeyID (keyid debited)) debited].
    repeat split; try assumption; try discriminate.
    eexists; reflexivity.
  - right. apply SetAccount_keeps in H1 as (_ & _ & _ & Htr1).
    apply SaveContract_keeps in H2 as (_ & _ & _ & Htr2).
    exists account, debited,
      [EvSetAccount (UidKeyID (keyid debited)) debited;
       EvSaveContract (mkCRegID height index)
         (mkCContract LUA_VM (code (contract tx)) "" (memo (contract tx)))].
    repeat split; try assumption; try discriminate.
    + cbn [reject fst trace]. rewrite Htr2, Htr1. now rewrite <- app_assoc.
    + eexists; reflexivity.
  - right. apply SetAccount_keeps in H1 as (_ & _ & _ & Htr1).
    apply SaveContract_keeps in H2 as (_ & _ & _ & Htr2).
    apply SaveAccount_keeps in H3 as (_ & _ & _ & Htr3).
    exists account, debited,
      [EvSetAccount (UidKeyID (keyid debited)) debited;
       EvSaveContract (mkCRegID height index)
         (mkCContract LUA_VM (code (contract tx)) "" (memo (contract tx)));
       EvSaveAccount (Deploy.contractAccount height index)].
    repeat split; try assumption; try discriminate.
    + cbn [reject fst trace]. rewrite Htr3, Htr2, Htr1. now rewrite <- !app_assoc.
    + eexists; reflexivity.
  - right. apply SetAccount_keeps in H1 as (_ & _ & _ & Htr1).
    apply SaveContract_keeps in H2 as (_ & _ & _ & Htr2).
    apply SaveAccount_keeps in H3 as (_ & _ & _ & Htr3).
    destruct (DoSaveTxAddresses_keeps height index [txUid (d_base tx)]
                (set_nRunStep (GetContractSize (contract tx)) w3).1)
      as (Htr4 & _ & _).
    exists account, debited, (deploy_writes tx height index debited).
    repeat split; try assumption; try discriminate; [|reflexivity].
    rewrite Htr4. cbn [set_nRunStep fst trace].
    rewrite Htr3, Htr2, Htr1. now rewrite <- !app_assoc.
Qed.

(** X8. A deploy [ExecuteTx] that returns true has found the sender with a
    free WICC balance of at least the fee and written it with exactly the
    fee taken off, its other balances, key identifier, registration
    identifier and owner key as they were; it has made the four writes, and
    the step count of the transaction is the size of the contract. *)
Theorem deploy_ExecuteTx_success_effects
    (tx : CContractDeployTx) (height index : Z) (w : World) :
  accepts (Deploy.ExecuteTx tx height index w) →
  ∃ account debited,
    accountCache_GetAccount (accountCache (cw w)) (txUid (d_base tx)) = Some account ∧
    llFees (d_base tx) <= free_amount account SYMB.WICC ∧
    free_amount debited SYMB.WICC
      = free_amount account SYMB.WICC - llFees (d_base tx) ∧
    (∀ symbol, symbol ≠ SYMB.WICC →
       free_amount debited symbol = free_amount account symbol) ∧
    keyid debited = keyid account ∧
    regid debited = regid account ∧
    owner_pubkey debited = owner_pubkey account ∧
    trace (Deploy.ExecuteTx tx height index w).1
      = (trace w ++ deploy_writes tx height index debited)%list ∧
    nRunStep (Deploy.ExecuteTx tx height index w).1
      = GetContractSize (contract tx).
Proof.
  unfold accepts.
  pose proof (deploy_ExecuteTx_run tx height index w) as Hrun.
  remember (Deploy.ExecuteTx tx height index w) as out eqn:Hout. clear Hout.
  destruct Hrun as
    [Hget
    |account Hget Hdebit
    |account debited w1 Hget Hdebit H1
    |account debited w1 w2 Hget Hdebit H1 H2
    |account debited w1 w2 w3 Hget Hdebit H1 H2 H3
    |account debited w1 w2 w3 Hget Hdebit H1 H2 H3]; try discriminate.
  intros _.
  apply SetAccount_keeps in H1 as (_ & _ & _ & Htr1).
  apply SaveContract_keeps in H2 as (_ & _ & _ & Htr2).
  apply SaveAccount_keeps in H3 as (_ & _ & _ & Htr3).
  destruct (DoSaveTxAddresses_keeps height index [txUid (d_base tx)]
              (set_nRunStep (GetContractSize (contract tx)) w3).1)
    as (Htr4 & Hsteps & _).
  pose proof (OperateBalance_fields _ _ _ _ _ Hdebit) as (Hk & Hr & _ & Ho).
  pose proof (OperateBalance_SUB_FREE _ _ _ _ Hdebit) as (Hle & Hsub).
  exists account, debited.
  repeat split; try assumption.
  - intros symbol Hne. now apply (OperateBalance_other _ _ _ _ _ _ Hdebit).
  - rewrite Htr4. cbn [set_nRunStep fst trace].
    rewrite Htr3, Htr2, Htr1. now rewrite <- !app_assoc.
Qed.

(** X9. When a deploy [ExecuteTx] returns false, either it has recorded
    exactly one rejection, with code [UPDATE_ACCOUNT_FAIL], severity 100
    and one of the four reasons of its failure exits, or it has made all
    four writes and it is [SaveTxAddresses] that returned false. *)
Theorem deploy_ExecuteTx_failure_kinds
    (tx : CContractDeployTx) (height index : Z) (w : World) :
  (Deploy.ExecuteTx tx height index w).2 = RetFalse →
  (∃ reason, reason ∈ deploy_ExecuteTx_reasons ∧
     rejected_in (state w) UPDATE_ACCOUNT_FAIL reason
       (state (Deploy.ExecuteTx tx height index w).1)) ∨
  (∃ debited,
     trace (Deploy.ExecuteTx tx height index w).1
       = (trace w ++ deploy_writes tx height index debited)%list).
Proof.
  pose proof (deploy_ExecuteTx_run tx height index w) as Hrun.
  remember (Deploy.ExecuteTx tx height index w) as out eqn:Hout. clear Hout.
  unfold deploy_ExecuteTx_reasons.
  destruct Hrun as
    [Hget
    |account Hget Hdebit
    |account debited w1 Hget Hdebit H1
    |account debited w1 w2 Hget Hdebit H1 H2
    |account debited w1 w2 w3 Hget Hdebit H1 H2 H3
    |account debited w1 w2 w3 Hget Hdebit H1 H2 H3]; intros Hfalse.
  - left. exists "bad-read-accountdb". split; [set_solver | now split].
  - left. exists "operate-account-failed". split; [set_solver | now split].
  - left. apply SetAccount_keeps in H1 as (Hst1 & _).
    exists "bad-save-accountdb". split; [set_solver|].
    split; cbn; [reflexivity | now rewrite Hst1].
  - left. apply SetAccount_keeps in H1 as (Hst1 & _).
    apply SaveContract_keeps in H2 as (Hst2 & _).
    exists "bad-save-scriptdb". split; [set_solver|].
    split; cbn; [reflexivity | now rewrite Hst2, Hst1].
  - left. apply SetAccount_keeps in H1 as (Hst1 & _).
    apply SaveContract_keeps in H2 as (Hst2 & _).
    apply SaveAccount_keeps in H3 as (Hst3 & _).
    exists "bad-save-scriptdb". split; [set_solver|].
    split; cbn; [reflexivity | now rewrite Hst3, Hst2, Hst1].
  - right. apply SetAccount_keeps in H1 as (_ & _ & _ & Htr1).
    apply SaveContract_keeps in H2 as (_ & _ & _ & Htr2).
    apply SaveAccount_keeps in H3 as (_ & _ & _ & Htr3).
    destruct (DoSaveTxAddresses_keeps height index [txUid (d_base tx)]
                (set_nRunStep (GetContractSize (contract tx)) w3).1)
      as (Htr4 & _ & _).
    exists debited. rewrite Htr4. cbn [set_nRunStep fst trace].
    rewrite Htr3, Htr2, Htr1. now rewrite <- !app_assoc.
Qed.

End DeployEffects.

(** The registered sender, who holds 1000, deploys a script of 80 bytes for
    a fee of 100 at height 200, as transaction 4 of the block. *)
Lemma deploy_ExecuteTx_success_effects_witness :
  ∃ account debited,
    free_amount account SYMB.WICC = 1000 ∧
    free_amount debited SYMB.WICC = 900 ∧
    nRunStep (Deploy.ExecuteTx (Scenario.deploy 100 Scenario.script80) 200 4
                Scenario.w0).1 = 80.
Proof.
  assert (Hacc :
    accepts (Deploy.ExecuteTx (Scenario.deploy 100 Scenario.script80) 200 4
               Scenario.w0))
    by (vm_compute; reflexivity).
  destruct (deploy_ExecuteTx_success_effects _ _ _ _ Hacc)
    as (account & debited & Hget & _ & Hsub & _ & _ & _ & _ & _ & Hsteps).
  exists account, debited.
  assert (Hfree : free_amount account SYMB.WICC = 1000).
  { vm_compute in Hget. inversion Hget. reflexivity. }
  split; [exact Hfree|]. split.
  - rewrite Hsub, Hfree. reflexivity.
  - rewrite Hsteps. reflexivity.
Defined.

(** The same sender cannot pay a fee of 2000. *)
Lemma deploy_ExecuteTx_failure_kinds_witness :
  (∃ reason, reason ∈ deploy_ExecuteTx_reasons ∧
     rejected_in (state Scenario.w0) UPDATE_ACCOUNT_FAIL reason
       (state (Deploy.ExecuteTx (Scenario.deploy 2000 "mylib") 200 4
                 Scenario.w0).1)) ∨
  (∃ debited,
     trace (Deploy.ExecuteTx (Scenario.deploy 2000 "mylib") 200 4 Scenario.w0).1
       = (trace Scenario.w0
          ++ deploy_writes (Scenario.deploy 2000 "mylib") 200 4 debited)%list).
Proof.
  assert (Hfalse :
    (Deploy.ExecuteTx (Scenario.deploy 2000 "mylib") 200 4 Scenario.w0).2
    = RetFalse)
    by (vm_compute; reflexivity).
  exact (deploy_ExecuteTx_failure_kinds _ _ _ _ Hfalse).
Defined.

(** ** Invoke: the runs of [ExecuteTx] *)

Section InvokeRuns.
Context {P : Primitives} {L : Ledger} {E : Engine}.

Lemma PersistSender_total b a (w : World) :
  ∃ w' ok, Invoke.PersistSender b a w = (w', Ok ok).
Proof.
  destruct b; [apply SaveAccount_total | apply SetAccount_total].
Qed.

Lemma PersistSender_keeps b a (w w' : World) ok :
  Invoke.PersistSender b a w = (w', Ok ok) →
  state w' = state w ∧ nRunStep w' = nRunStep w ∧
  contractCache (cw w') = contractCache (cw w) ∧
  trace w' = (trace w ++ [persist_sender b a])%list.
Proof.
  destruct b; [apply SaveAccount_keeps | apply SetAccount_keeps].
Qed.

(** Every run of the invoke [ExecuteTx] is one of the cases of
    [invoke_run]. *)
Lemma invoke_ExecuteTx_run (tx : CContractInvokeTx) (height index : Z) (w : World) :
  invoke_run tx height index w (Invoke.ExecuteTx tx height index w).
Proof.
  unfold Invoke.ExecuteTx.
  rewrite (bind_Ok (GetAccount _) _ w w _ eq_refl).
  destruct (accountCache_GetAccount (accountCache (cw w)) (txUid (i_base tx)))
    as [srcAcct|] eqn:Hget.
  2: { now apply invoke_no_sender. }
  cbn [require_some]. rewrite (bind_Ok (mret srcAcct) _ w w srcAcct eq_refl).
  rewrite (bind_Ok Invoke.AccountView _ w w _ eq_refl).
  pose proof (invoke_no_funds tx height index w srcAcct Hget) as Cfunds.
  pose proof (invoke_sender_not_written tx height index w srcAcct) as Cwrite.
  pose proof (invoke_no_destination tx height index w srcAcct) as Cdest.
  pose proof (invoke_no_destination_throws tx height index w srcAcct) as Cdthrow.
  pose proof (invoke_no_credit tx height index w srcAcct) as Ccredit.
  pose proof (invoke_destination_not_written tx height index w srcAcct) as Csave.
  pose proof (invoke_destination_no_regid tx height index w srcAcct) as Cthrow.
  pose proof (invoke_no_contract tx height index w srcAcct) as Cscript.
  pose proof (invoke_engine_reached tx height index w srcAcct) as Cengine.
  destruct (Invoke.PrepareSender tx height index (accountCache (cw w)) srcAcct)
    as [prepared generateRegID].
  cbn [fst snd] in *.
  destruct (OperateBalance prepared SYMB.WICC SUB_FREE
              (Uint64.add (llFees (i_base tx)) (bcoins tx)))
    as [debited|] eqn:Hdebit.
  2: { now apply Cfunds. }
  cbn [require_some]. rewrite (bind_Ok (mret debited) _ w w debited eq_refl).
  destruct (PersistSender_total generateRegID debited w) as (w1 & ok1 & H1).
  change (if generateRegID then SaveAccount debited
          else SetAccount (UidKeyID (keyid debited)) debited)
    with (Invoke.PersistSender generateRegID debited).
  rewrite (bind_Ok _ _ w w1 ok1 H1).
  destruct ok1.
  2: { now apply (Cwrite debited). }
  cbn [require]. rewrite (bind_Ok (mret tt) _ w1 w1 tt eq_refl).
  rewrite (bind_Ok (GetAccount _) _ w1 w1 _ eq_refl).
  destruct (accountCache_GetAccount (accountCache (cw w1)) (appUid tx))
    as [desAcct|] eqn:Hdes.
  2: { rewrite bind_unfold, require_some_logging_None.
       destruct (get_CRegID (appUid tx)) as [appRegId|] eqn:Hreg.
       - now apply (Cdest debited w1 appRegId).
       - now apply (Cdthrow debited). }
  cbn [require_some_logging].
  rewrite (bind_Ok (mret desAcct) _ w1 w1 desAcct eq_refl).
  destruct (OperateBalance desAcct SYMB.WICC ADD_FREE (bcoins tx))
    as [credited|] eqn:Hcredit.
  2: { now apply (Ccredit debited w1 desAcct). }
  cbn [require_some]. rewrite (bind_Ok (mret credited) _ w1 w1 credited eq_refl).
  destruct (SetAccount_total (appUid tx) credited w1) as (w2 & ok2 & H2).
  rewrite (bind_Ok _ _ w1 w2 ok2 H2).
  destruct ok2.
  2: { now apply (Csave debited w1 desAcct credited). }
  cbn [require]. rewrite (bind_Ok (mret tt) _ w2 w2 tt eq_refl).
  destruct (get_CRegID (appUid tx)) as [appRegId|] eqn:Hreg.
  2: { now apply (Cthrow debited w1 desAcct credited). }
  cbn [get_or_throw]. rewrite (bind_Ok (mret appRegId) _ w2 w2 appRegId eq_refl).
  rewrite (bind_Ok (GetContract _) _ w2 w2 _ eq_refl).
  destruct (contractCache_GetContract (contractCache (cw w2)) appRegId)
    as [c|] eqn:Hc.
  2: { now apply (Cscript debited w1 desAcct credited w2 appRegId). }
  cbn [require_some]. rewrite (bind_Ok (mret c) _ w2 w2 c eq_refl).
  now apply (Cengine debited w1 desAcct credited w2 appRegId c).
Qed.

End InvokeRuns.

(** The cases of a run of the invoke [ExecuteTx], with what the two writes
    of the transfer keep. *)
Ltac invoke_run_cases Hrun :=
  destruct Hrun as
    [Hget
    |srcAcct Hget Hdebit
    |srcAcct debited w1 Hget Hdebit H1
    |srcAcct debited w1 regId Hget Hdebit H1 Hdes Hreg
    |srcAcct debited w1 Hget Hdebit H1 Hdes Hreg
    |srcAcct debited w1 desAcct Hget Hdebit H1 Hdes Hcredit
    |srcAcct debited w1 desAcct credited w2 Hget Hdebit H1 Hdes Hcredit H2
    |srcAcct debited w1 desAcct credited w2 Hget Hdebit H1 Hdes Hcredit H2 Hreg
    |srcAcct debited w1 desAcct credited w2 regId Hget Hdebit H1 Hdes Hcredit H2 Hreg Hc
    |srcAcct debited w1 desAcct credited w2 regId contract Hget Hdebit H1 Hdes Hcredit H2 Hreg Hc];
  try (apply PersistSender_keeps in H1 as (Hst1 & Hn1 & Hcc1 & Htr1));
  try (apply SetAccount_keeps in H2 as (Hst2 & Hn2 & Hcc2 & Htr2)).


(** ** Invoke: the engine *)

Section NoEngine.
Context {P : Primitives} {L : Ledger} {E : Engine}.

Lemma no_engine_bind {A B} (m : M A) (k : A → M B) :
  no_engine m → (∀ a, no_engine (k a)) → no_engine (m ≫= k).
Proof.
  intros Hm Hk w. rewrite bind_unfold.
  destruct (Hm w) as (Hs & l & Hl & He).
  destruct (m w) as [w1 [a| |]]; cbn [fst] in *.
  - destruct (Hk a w1) as (Hs' & l' & Hl' & He').
    split; [congruence|]. exists (l ++ l')%list.
    rewrite Hl', Hl, <- app_assoc. split; [reflexivity|].
    rewrite engine_calls_app, He, He'. reflexivity.
  - split; [exact Hs|]. now exists l.
  - split; [exact Hs|]. now exists l.
Qed.

Lemma no_engine_silent {A} (m : M A) :
  (∀ w, nRunStep (m w).1 = nRunStep w ∧ trace (m w).1 = trace w) → no_engine m.
Proof.
  intros H w. destruct (H w) as [Hs Ht]. split; [exact Hs|].
  exists []. now rewrite app_nil_r.
Qed.

Lemma no_engine_ret {A} (a : A) : no_engine (mret a).
Proof. now apply no_engine_silent. Qed.

Lemma no_engine_reject {A} level c reason : no_engine (reject (A:=A) level c reason).
Proof. now apply no_engine_silent. Qed.

Lemma no_engine_return_false {A} : no_engine (return_false (A:=A)).
Proof. now apply no_engine_silent. Qed.

Lemma no_engine_require b level c reason : no_engine (require b level c reason).
Proof. destruct b; now apply no_engine_silent. Qed.

Lemma no_engine_GetAccount uid : no_engine (GetAccount uid).
Proof. now apply no_engine_silent. Qed.

Lemma no_engine_AccountView : no_engine Invoke.AccountView.
Proof. now apply no_engine_silent. Qed.

Lemma no_engine_SetAccount uid a : no_engine (SetAccount uid a).
Proof.
  intros w. unfold SetAccount. destruct (accountCache_SetAccount _ _ _).
  split; [reflexivity|]. now exists [EvSetAccount uid a].
Qed.

Lemma no_engine_SetTxRelAccout h s : no_engine (SetTxRelAccout h s).
Proof.
  intros w. unfold SetTxRelAccout. destruct (contractCache_SetTxRelAccout _ _ _).
  split; [reflexivity|]. now exists [EvSetTxRelAccout h s].
Qed.

Lemma no_engine_DoSaveTxAddresses height index uids :
  no_engine (DoSaveTxAddresses height index uids).
Proof.
  intros w. unfold DoSaveTxAddresses.
  destruct (SaveTxAddresses _ _ _ _ _) as [[ok c] st].
  split; [reflexivity|]. now exists [EvSaveTxAddresses height index uids].
Qed.

Lemma no_engine_UpdateAccounts vAccount vAddress :
  no_engine (Invoke.UpdateAccounts vAccount vAddress).
Proof.
  revert vAddress. induction vAccount as [|a rest IH]; intros vAddress; cbn.
  - apply no_engine_ret.
  - apply no_engine_bind; [apply no_engine_GetAccount|]. intros o.
    apply no_engine_bind.
    { destruct o; [apply no_engine_ret | apply no_engine_require]. }
    intros _. apply no_engine_bind; [apply no_engine_SetAccount|]. intros ok.
    apply no_engine_bind; [apply no_engine_require|]. intros _. apply IH.
Qed.

(** An event of a history without a call of the engine is no such call. *)
Lemma engine_calls_nil_elem (l : list Event) pTx h c fuelRate steps :
  engine_calls l = [] → EvExecuteContract pTx h c fuelRate steps ∉ l.
Proof.
  intros He Hin. induction l as [|e l IH]; [inversion Hin|].
  apply elem_of_cons in Hin as [<-|Hin]; [discriminate|].
  apply IH; [|exact Hin]. unfold engine_calls in *. cbn in He.
  destruct (match e with EvExecuteContract _ _ _ _ _ => _ | _ => _ end);
    [discriminate | exact He].
Qed.

(** [RunAndRecord] calls the engine once, on the views, the fuel rate and
    the step count it starts from; the step count it leaves is the one the
    engine left; when the engine reports a failure it stops there, with the
    error message of the engine in the reason. *)
Lemma RunAndRecord_engine (tx : CContractInvokeTx) (height index : Z) (w : World) :
  let fuelRate := GetFuelRate (contractCache (cw w)) in
  let out := ExecuteContract (InvokeTx tx) height (cw w) fuelRate (nRunStep w) in
  let call := EvExecuteContract (InvokeTx tx) height (cw w) fuelRate (nRunStep w) in
  nRunStep (Invoke.RunAndRecord tx height index w).1 = vm_nRunStep out ∧
  (∃ rest, trace (Invoke.RunAndRecord tx height index w).1
             = (trace w ++ call :: rest)%list ∧ engine_calls rest = []) ∧
  (vm_success out = false →
   Invoke.RunAndRecord tx height index w
   = reject 100 UPDATE_ACCOUNT_FAIL ("run-script-error: " ++ vm_error out)
       (RunContract (InvokeTx tx) height fuelRate w).1).
Proof.
  intros fuelRate out call. unfold Invoke.RunAndRecord.
  rewrite (bind_Ok FuelRate _ w w fuelRate eq_refl).
  set (w3 := (RunContract (InvokeTx tx) height fuelRate w).1).
  rewrite (bind_Ok (RunContract _ _ _) _ w w3 out eq_refl).
  match goal with |- context [(?m ≫= ?k) w3] =>
    assert (Htail : no_engine (m ≫= k)) end.
  { apply no_engine_bind; [apply no_engine_require|]. intros _.
    apply no_engine_bind; [apply no_engine_UpdateAccounts|]. intros accs.
    apply no_engine_bind; [apply no_engine_AccountView|]. intros view.
    apply no_engine_bind; [apply no_engine_SetTxRelAccout|]. intros ok.
    apply no_engine_bind;
      [destruct ok; [apply no_engine_ret | apply no_engine_return_false]|].
    intros _. apply no_engine_DoSaveTxAddresses. }
  destruct (Htail w3) as (Hs & rest & Hrest & He).
  split; [|split].
  - exact Hs.
  - exists rest. split; [|exact He].
    rewrite Hrest. unfold w3. cbn. now rewrite <- app_assoc.
  - intros Hfail. rewrite bind_unfold. rewrite Hfail. reflexivity.
Qed.

End NoEngine.

(** ** Invoke: what a run of [ExecuteTx] leaves behind *)

Section InvokeOutcomes.
Context {P : Primitives} {L : Ledger} {E : Engine}.

Lemma persist_sender_no_engine b a pTx h c fuelRate steps :
  persist_sender b a ≠ EvExecuteContract pTx h c fuelRate steps.
Proof. destruct b; discriminate. Qed.

Lemma SUB_FREE_None a symbol value :
  OperateBalance a symbol SUB_FREE value = None ↔ free_amount a symbol < value.
Proof.
  unfold OperateBalance. destruct (_ <? _) eqn:Hlt.
  - apply Z.ltb_lt in Hlt. tauto.
  - apply Z.ltb_ge in Hlt. split; [discriminate | lia].
Qed.

(** X10. An invoke [ExecuteTx] makes no write at all exactly when the sender
    account is missing or its free WICC balance is below the 64-bit sum
    [llFees + bcoins]; it then returns false, leaves the views and the step
    count as they were, and records one rejection of severity 100:
    [READ_ACCOUNT_FAIL] "bad-read-accountdb" or [UPDATE_ACCOUNT_FAIL]
    "operate-minus-account-failed". *)
Theorem invoke_ExecuteTx_no_write_iff
    (tx : CContractInvokeTx) (height index : Z) (w : World) :
  (trace (Invoke.ExecuteTx tx height index w).1 = trace w ↔
   accountCache_GetAccount (accountCache (cw w)) (txUid (i_base tx)) = None ∨
   ∃ srcAcct,
     accountCache_GetAccount (accountCache (cw w)) (txUid (i_base tx)) = Some srcAcct ∧
     free_amount srcAcct SYMB.WICC < Uint64.add (llFees (i_base tx)) (bcoins tx)) ∧
  (trace (Invoke.ExecuteTx tx height index w).1 = trace w →
   (Invoke.ExecuteTx tx height index w).2 = RetFalse ∧
   cw (Invoke.ExecuteTx tx height index w).1 = cw w ∧
   nRunStep (Invoke.ExecuteTx tx height index w).1 = nRunStep w ∧
   (rejected_in (state w) READ_ACCOUNT_FAIL "bad-read-accountdb"
      (state (Invoke.ExecuteTx tx height index w).1) ∨
    rejected_in (state w) UPDATE_ACCOUNT_FAIL "operate-minus-account-failed"
      (state (Invoke.ExecuteTx tx height index w).1))).
Proof.
  pose proof (invoke_ExecuteTx_run tx height index w) as Hrun.
  remember (Invoke.ExecuteTx tx height index w) as out eqn:Hout. clear Hout.
  assert (Hwritten : ∀ srcAcct debited e l,
    accountCache_GetAccount (accountCache (cw w)) (txUid (i_base tx)) = Some srcAcct →
    OperateBalance
      (Invoke.PrepareSender tx height index (accountCache (cw w)) srcAcct).1
      SYMB.WICC SUB_FREE (Uint64.add (llFees (i_base tx)) (bcoins tx))
      = Some debited →
    trace out.1 = (trace w ++ e :: l)%list →
    (trace out.1 = trace w ↔
     accountCache_GetAccount (accountCache (cw w)) (txUid (i_base tx)) = None ∨
     ∃ srcAcct,
       accountCache_GetAccount (accountCache (cw w)) (txUid (i_base tx)) = Some srcAcct ∧
       free_amount srcAcct SYMB.WICC < Uint64.add (llFees (i_base tx)) (bcoins tx)) ∧
    (trace out.1 = trace w →
     out.2 = RetFalse ∧ cw out.1 = cw w ∧ nRunStep out.1 = nRunStep w ∧
     (rejected_in (state w) READ_ACCOUNT_FAIL "bad-read-accountdb" (state out.1) ∨
      rejected_in (state w) UPDATE_ACCOUNT_FAIL "operate-minus-account-failed"
        (state out.1)))).
  { intros srcAcct debited e l Hget Hdebit Htr. rewrite Htr. split; [split|].
    - intros Hno. now apply app_not_self in Hno.
    - intros [Hnone|(a & Ha & Hlt)]; [congruence|].
      rewrite Hget in Ha. inversion Ha; subst a.
      apply OperateBalance_SUB_FREE in Hdebit as [Hle _].
      rewrite PrepareSender_free_amount in Hle. lia.
    - intros Hno. now apply app_not_self in Hno. }
  destruct Hrun as
    [Hget
    |srcAcct Hget Hdebit
    |srcAcct debited w1 Hget Hdebit H1
    |srcAcct debited w1 regId Hget Hdebit H1 Hdes Hreg
    |srcAcct debited w1 Hget Hdebit H1 Hdes Hreg
    |srcAcct debited w1 desAcct Hget Hdebit H1 Hdes Hcredit
    |srcAcct debited w1 desAcct credited w2 Hget Hdebit H1 Hdes Hcredit H2
    |srcAcct debited w1 desAcct credited w2 Hget Hdebit H1 Hdes Hcredit H2 Hreg
    |srcAcct debited w1 desAcct credited w2 appRegId Hget Hdebit H1 Hdes Hcredit H2 Hreg Hc
    |srcAcct debited w1 desAcct credited w2 appRegId c Hget Hdebit H1 Hdes Hcredit H2 Hreg Hc].
  - cbn. split; [split; auto|]. intros _. repeat split; auto. left. now split.
  - cbn. split.
    + split; [|reflexivity]. intros _. right. exists srcAcct. split; [exact Hget|].
      apply SUB_FREE_None in Hdebit.
      now rewrite PrepareSender_free_amount in Hdebit.
    + intros _. repeat split; auto. right. now split.
  - apply PersistSender_keeps in H1 as (_ & _ & _ & Htr1).
    eapply (Hwritten srcAcct debited _ [] Hget Hdebit). exact Htr1.
  - apply PersistSender_keeps in H1 as (_ & _ & _ & Htr1).
    eapply (Hwritten srcAcct debited _ [] Hget Hdebit). exact Htr1.
  - apply PersistSender_keeps in H1 as (_ & _ & _ & Htr1).
    eapply (Hwritten srcAcct debited _ [] Hget Hdebit). exact Htr1.
  - apply PersistSender_keeps in H1 as (_ & _ & _ & Htr1).
    eapply (Hwritten srcAcct debited _ [] Hget Hdebit). exact Htr1.
  - apply PersistSender_keeps in H1 as (_ & _ & _ & Htr1).
    apply SetAccount_keeps in H2 as (_ & _ & _ & Htr2).
    eapply (Hwritten srcAcct debited _ [EvSetAccount (appUid tx) credited] Hget Hdebit).
    cbn [reject fst trace]. rewrite Htr2, Htr1. now rewrite <- app_assoc.
  - apply PersistSender_keeps in H1 as (_ & _ & _ & Htr1).
    apply SetAccount_keeps in H2 as (_ & _ & _ & Htr2).
    eapply (Hwritten srcAcct debited _ [EvSetAccount (appUid tx) credited] Hget Hdebit).
    cbn [fst]. rewrite Htr2, Htr1. now rewrite <- app_assoc.
  - apply PersistSender_keeps in H1 as (_ & _ & _ & Htr1).
    apply SetAccount_keeps in H2 as (_ & _ & _ & Htr2).
    eapply (Hwritten srcAcct debited _ [EvSetAccount (appUid tx) credited] Hget Hdebit).
    cbn [reject fst trace]. rewrite Htr2, Htr1. now rewrite <- app_assoc.
  - apply PersistSender_keeps in H1 as (_ & _ & _ & Htr1).
    apply SetAccount_keeps in H2 as (_ & _ & _ & Htr2).
    destruct (RunAndRecord_engine tx height index w2) as (_ & (rest & Htr3 & _) & _).
    eapply (Hwritten srcAcct debited _ _ Hget Hdebit).
    rewrite Htr3, Htr2, Htr1. rewrite <- !app_assoc. reflexivity.
Qed.

(** X11. An invoke whose destination names no contract record always
    returns false and never calls the engine; but the lookup of the record
    comes after the two writes of the transfer, so when the rejection is
    [READ_ACCOUNT_FAIL] "bad-read-script" the debited sender and the
    credited destination have been written, and [ExecuteTx] does not undo
    them. *)
Theorem invoke_ExecuteTx_unknown_contract
    (tx : CContractInvokeTx) (height index : Z) (w : World) (appRegId : CRegID) :
  appUid tx = UidRegID appRegId →
  contractCache_GetContract (contractCache (cw w)) appRegId = None →
  (Invoke.ExecuteTx tx height index w).2 = RetFalse ∧
  nRunStep (Invoke.ExecuteTx tx height index w).1 = nRunStep w ∧
  ∃ l, added w (Invoke.ExecuteTx tx height index w) l ∧
       engine_calls l = [] ∧
       (rejected_in (state w) READ_ACCOUNT_FAIL "bad-read-script"
          (state (Invoke.ExecuteTx tx height index w).1) →
        ∃ generateRegID debited credited,
          l = [persist_sender generateRegID debited;
               EvSetAccount (appUid tx) credited]).
Proof.
  intros Happ Hnone. unfold added.
  pose proof (invoke_ExecuteTx_run tx height index w) as Hrun.
  remember (Invoke.ExecuteTx tx height index w) as out eqn:Hout. clear Hout.
  invoke_run_cases Hrun; cbn [reject fst snd trace state nRunStep].
  - repeat split. exists []. rewrite app_nil_r. repeat split.
    intros [Hentry _]. cbn in Hentry. discriminate.
  - repeat split. exists []. rewrite app_nil_r. repeat split.
    intros [Hentry _]. cbn in Hentry. discriminate.
  - repeat split; [exact Hn1|]. eexists. split; [exact Htr1|].
    split; [apply engine_calls_persist_sender|].
    intros [Hentry _]. cbn in Hentry. discriminate.
  - repeat split; [exact Hn1|]. eexists. split; [exact Htr1|].
    split; [apply engine_calls_persist_sender|].
    intros [Hentry _]. cbn in Hentry. discriminate.
  - rewrite Happ in Hreg. discriminate.
  - repeat split; [exact Hn1|]. eexists. split; [exact Htr1|].
    split; [apply engine_calls_persist_sender|].
    intros [Hentry _]. cbn in Hentry. discriminate.
  - repeat split; [congruence|]. eexists. split.
    { rewrite Htr2, Htr1, <- app_assoc. reflexivity. }
    split.
    { cbn [app]. change (engine_calls (?e :: ?l)) with (engine_calls ([e] ++ l)%list).
      rewrite engine_calls_app, engine_calls_persist_sender. reflexivity. }
    intros [Hentry _]. cbn in Hentry. discriminate.
  - rewrite Happ in Hreg. discriminate.
  - repeat split; [congruence|]. eexists. split.
    { rewrite Htr2, Htr1, <- app_assoc. reflexivity. }
    split.
    { cbn [app]. change (engine_calls (?e :: ?l)) with (engine_calls ([e] ++ l)%list).
      rewrite engine_calls_app, engine_calls_persist_sender. reflexivity. }
    intros _. cbn [app]. eauto.
  - rewrite Happ in Hreg. cbn in Hreg. inversion Hreg; subst regId.
    rewrite Hcc2, Hcc1 in Hc. congruence.
Qed.

(** X12. When the engine an invoke [ExecuteTx] called reports a failure,
    [ExecuteTx] returns false with one rejection of severity 100, code
    [UPDATE_ACCOUNT_FAIL] and the reason "run-script-error: " followed by
    the error message of the engine; the call of the engine is the last
    thing it did, and the views and the step count are as the engine left
    them. *)
Theorem invoke_ExecuteTx_engine_failure
    (tx : CContractInvokeTx) (height index : Z) (w : World) (l : list Event)
    (pTx : Tx) (h : Z) (c : CCacheWrapper) (fuelRate steps : Z) :
  added w (Invoke.ExecuteTx tx height index w) l →
  EvExecuteContract pTx h c fuelRate steps ∈ l →
  vm_success (ExecuteContract pTx h c fuelRate steps) = false →
  (Invoke.ExecuteTx tx height index w).2 = RetFalse ∧
  rejected_in (state w) UPDATE_ACCOUNT_FAIL
    ("run-script-error: " ++ vm_error (ExecuteContract pTx h c fuelRate steps))
    (state (Invoke.ExecuteTx tx height index w).1) ∧
  last l = Some (EvExecuteContract pTx h c fuelRate steps) ∧
  cw (Invoke.ExecuteTx tx height index w).1
    = vm_cw (ExecuteContract pTx h c fuelRate steps) ∧
  nRunStep (Invoke.ExecuteTx tx height index w).1
    = vm_nRunStep (ExecuteContract pTx h c fuelRate steps).
Proof.
  unfold added. intros Hadd Hin Hfail.
  pose proof (invoke_ExecuteTx_run tx height index w) as Hrun.
  remember (Invoke.ExecuteTx tx height index w) as out eqn:Hout. clear Hout.
  assert (Hshort : ∀ l', trace out.1 = (trace w ++ l')%list →
                         engine_calls l' = [] → False).
  { intros l' Hl' He. rewrite Hadd in Hl'. apply app_inv_head in Hl'. subst l'.
    now apply (engine_calls_nil_elem _ _ _ _ _ _ He) in Hin. }
  assert (Htwo : ∀ b a uid a',
            engine_calls [persist_sender b a; EvSetAccount uid a'] = []).
  { intros b a uid a'.
    change (engine_calls ([persist_sender b a] ++ [EvSetAccount uid a'])%list = []).
    rewrite engine_calls_app, engine_calls_persist_sender. reflexivity. }
  invoke_run_cases Hrun; cbn [reject fst snd trace state nRunStep] in *.
  - exfalso. apply (Hshort []); [now rewrite app_nil_r | reflexivity].
  - exfalso. apply (Hshort []); [now rewrite app_nil_r | reflexivity].
  - exfalso. eapply Hshort; [exact Htr1 | apply engine_calls_persist_sender].
  - exfalso. eapply Hshort; [exact Htr1 | apply engine_calls_persist_sender].
  - exfalso. eapply Hshort; [exact Htr1 | apply engine_calls_persist_sender].
  - exfalso. eapply Hshort; [exact Htr1 | apply engine_calls_persist_sender].
  - exfalso. eapply Hshort; [|apply Htwo].
    rewrite Htr2, Htr1, <- app_assoc. reflexivity.
  - exfalso. eapply Hshort; [|apply Htwo].
    rewrite Htr2, Htr1, <- app_assoc. reflexivity.
  - exfalso. eapply Hshort; [|apply Htwo].
    rewrite Htr2, Htr1, <- app_assoc. reflexivity.
  - destruct (RunAndRecord_engine tx height index w2)
      as (Hsteps & (rest & Htr3 & He) & Hstop).
    rewrite Htr3, Htr2, Htr1, <- !app_assoc in Hadd.
    apply app_inv_head in Hadd. cbn [app] in Hadd. subst l.
    assert (Hcall : EvExecuteContract pTx h c fuelRate steps
                    = EvExecuteContract (InvokeTx tx) height (cw w2)
                        (GetFuelRate (contractCache (cw w2))) (nRunStep w2)).
    { apply elem_of_cons in Hin as [Hin|Hin];
        [symmetry in Hin; now apply persist_sender_no_engine in Hin|].
      apply elem_of_cons in Hin as [Hin|Hin]; [discriminate|].
      apply elem_of_cons in Hin as [Hin|Hin]; [exact Hin|].
      now apply (engine_calls_nil_elem _ _ _ _ _ _ He) in Hin. }
    inversion Hcall; subst pTx h c fuelRate steps. clear Hcall Hin.
    specialize (Hstop Hfail).
    assert (Hrest : rest = []).
    { rewrite Hstop in Htr3. cbn in Htr3.
      apply app_inv_head in Htr3. now inversion Htr3. }
    subst rest. rewrite Hstop. cbn.
    repeat split; try reflexivity. now rewrite Hst2, Hst1.
Qed.

End InvokeOutcomes.

(** The sender invokes its own account: 60 are taken off, 50 put back, and
    only then is the missing contract record found out. *)
Lemma invoke_ExecuteTx_unknown_contract_witness :
  (Invoke.ExecuteTx Cases.tx_self 100 3 Scenario.w0).2 = RetFalse ∧
  ∃ generateRegID debited credited,
    trace (Invoke.ExecuteTx Cases.tx_self 100 3 Scenario.w0).1
    = (trace Scenario.w0 ++
       [persist_sender generateRegID debited;
        EvSetAccount (appUid Cases.tx_self) credited])%list.
Proof.
  destruct (invoke_ExecuteTx_unknown_contract Cases.tx_self 100 3 Scenario.w0
              Scenario.senderRegId eq_refl eq_refl)
    as (Hfalse & _ & l & Hadd & _ & Hwritten).
  split; [exact Hfalse|].
  assert (Hrej :
    rejected_in (state Scenario.w0) READ_ACCOUNT_FAIL "bad-read-script"
      (state (Invoke.ExecuteTx Cases.tx_self 100 3 Scenario.w0).1))
    by (split; vm_compute; reflexivity).
  destruct (Hwritten Hrej) as (b & debited & credited & ->).
  exists b, debited, credited. exact Hadd.
Defined.

(** The invoke of the scenarios over an engine that fails. *)
Lemma invoke_ExecuteTx_engine_failure_witness :
  (Invoke.ExecuteTx Scenario.tx_10_50 100 3 Cases.w_engine_fails).2 = RetFalse ∧
  entry (state (Invoke.ExecuteTx Scenario.tx_10_50 100 3 Cases.w_engine_fails).1)
  = Some (UPDATE_ACCOUNT_FAIL, "run-script-error: boom").
Proof.
  assert (Hcall : ∃ c fuelRate steps,
    trace (Invoke.ExecuteTx Scenario.tx_10_50 100 3 Cases.w_engine_fails).1
      !! 2%nat
    = Some (EvExecuteContract (InvokeTx Scenario.tx_10_50) 100 c fuelRate steps) ∧
    vm_success (ExecuteContract (InvokeTx Scenario.tx_10_50) 100 c fuelRate steps)
    = false ∧
    vm_error (ExecuteContract (InvokeTx Scenario.tx_10_50) 100 c fuelRate steps)
    = "boom").
  { vm_compute. do 3 eexists. split; [reflexivity|]. split; reflexivity. }
  destruct Hcall as (c & fuelRate & steps & Hnth & Hfail & Herr).
  apply list_elem_of_lookup_2 in Hnth.
  destruct (invoke_ExecuteTx_engine_failure Scenario.tx_10_50 100 3
              Cases.w_engine_fails _ _ _ _ _ _ eq_refl Hnth Hfail)
    as (Hfalse & [Hentry _] & _).
  split; [exact Hfalse|]. rewrite Hentry, Herr. reflexivity.
Defined.

(** ** Invoke: [ExecuteTx] after [CheckTx] *)

Section InvokeAfterCheck.
Context {P : Primitives} {L : Ledger} {E : Engine}.

(** What an accepting [CheckTx] has found in the views. *)
Lemma invoke_CheckTx_accepts_finds (tx : CContractInvokeTx) (height : Z) (w : World) :
  accepts (Invoke.CheckTx tx height w) →
  ∃ srcAccount appRegId contract,
    accountCache_GetAccount (accountCache (cw w)) (txUid (i_base tx)) = Some srcAccount ∧
    appUid tx = UidRegID appRegId ∧
    contractCache_GetContract (contractCache (cw w)) appRegId = Some contract.
Proof.
  unfold Invoke.CheckTx.
  rewrite !accepts_check.
  intros (_ & _ & _ & _ & H). revert H.
  assert (Hpk : ∀ k : M unit,
    accepts ((match txUid (i_base tx) with
              | UidPubKey pubKey =>
                  require (CPubKey_IsFullyValid pubKey) 100 REJECT_INVALID
                    "bad-publickey"
              | _ => mret tt
              end ;; k) w) → accepts (k w)).
  { intros k. destruct (txUid (i_base tx)) as [| | |pubKey|];
      try (now rewrite (bind_Ok (mret tt) _ w w tt eq_refl)).
    rewrite accepts_require. tauto. }
  intros H. apply Hpk in H. revert H.
  rewrite (bind_Ok (GetAccount _) _ w w _ eq_refl).
  rewrite accepts_require_some_logging.
  intros (srcAccount & Hget & H). revert H.
  rewrite accepts_require, accepts_get_or_throw.
  intros (_ & appRegId & Hreg & H). revert H.
  rewrite (bind_Ok (GetContract _) _ w w _ eq_refl).
  rewrite accepts_require_some.
  intros (contract & Hc & _).
  exists srcAccount, appRegId, contract. repeat split; try assumption.
  destruct (appUid tx); try discriminate. cbn in Hreg. now inversion Hreg.
Qed.

Lemma nothrow_RunAndRecord (tx : CContractInvokeTx) (height index : Z) :
  nothrow (Invoke.RunAndRecord tx height index).
Proof.
  pose proof nothrow_UpdateAccounts as Hloop.
  unfold Invoke.RunAndRecord. solve_nothrow.
Qed.

(** X13. After a [CheckTx] that returned true, an invoke [ExecuteTx] run on
    the same views raises no exception, and a run that stops before the
    engine returns false with one rejection for the transfer: never for a
    missing contract record, and, when it made no write, for a balance
    below [llFees + bcoins], which [CheckTx] does not look at. *)
Theorem invoke_ExecuteTx_after_CheckTx
    (tx : CContractInvokeTx) (height index : Z) (w : World) :
  accepts (Invoke.CheckTx tx height w) →
  (Invoke.ExecuteTx tx height index w).2 ≠ Thrown ∧
  ∀ l, added w (Invoke.ExecuteTx tx height index w) l →
       engine_calls l = [] →
       (Invoke.ExecuteTx tx height index w).2 = RetFalse ∧
       (l = [] →
        rejected_in (state w) UPDATE_ACCOUNT_FAIL "operate-minus-account-failed"
          (state (Invoke.ExecuteTx tx height index w).1)) ∧
       ∃ c reason,
         (c, reason) ∈ invoke_transfer_reasons ∧
         reason ≠ "bad-read-script" ∧
         rejected_in (state w) c reason
           (state (Invoke.ExecuteTx tx height index w).1).
Proof.
  intros Hacc.
  apply invoke_CheckTx_accepts_finds in Hacc
    as (srcAccount & appRegId & found & Hsrc & Happ & Hcontract).
  unfold added, invoke_transfer_reasons.
  pose proof (invoke_ExecuteTx_run tx height index w) as Hrun.
  remember (Invoke.ExecuteTx tx height index w) as out eqn:Hout. clear Hout.
  assert (Hlen : ∀ l l', trace out.1 = (trace w ++ l)%list →
                         trace out.1 = (trace w ++ l')%list → l = l').
  { intros l l' Hl Hl'. rewrite Hl in Hl'. now apply app_inv_head in Hl'. }
  invoke_run_cases Hrun; cbn [reject fst snd trace state nRunStep] in *.
  - congruence.
  - split; [discriminate|]. intros l Hadd _. split; [reflexivity|].
    split; [intros _; now split|].
    exists UPDATE_ACCOUNT_FAIL, "operate-minus-account-failed".
    split; [set_solver|]. split; [discriminate | now split].
  - split; [discriminate|]. intros l Hadd _. split; [reflexivity|]. split.
    { intros ->. rewrite app_nil_r in Hadd. rewrite Hadd in Htr1.
      symmetry in Htr1. now apply app_not_self in Htr1. }
    exists WRITE_ACCOUNT_FAIL, "bad-write-accountdb".
    split; [set_solver|]. split; [discriminate|].
    split; cbn; [reflexivity | now rewrite Hst1].
  - split; [discriminate|]. intros l Hadd _. split; [reflexivity|]. split.
    { intros ->. rewrite app_nil_r in Hadd. rewrite Hadd in Htr1.
      symmetry in Htr1. now apply app_not_self in Htr1. }
    exists READ_ACCOUNT_FAIL, "bad-read-accountdb".
    split; [set_solver|]. split; [discriminate|].
    split; cbn; [reflexivity | now rewrite Hst1].
  - rewrite Happ in Hreg. discriminate.
  - split; [discriminate|]. intros l Hadd _. split; [reflexivity|]. split.
    { intros ->. rewrite app_nil_r in Hadd. rewrite Hadd in Htr1.
      symmetry in Htr1. now apply app_not_self in Htr1. }
    exists UPDATE_ACCOUNT_FAIL, "operate-add-account-failed".
    split; [set_solver|]. split; [discriminate|].
    split; cbn; [reflexivity | now rewrite Hst1].
  - split; [discriminate|]. intros l Hadd _. split; [reflexivity|]. split.
    { intros ->. rewrite app_nil_r in Hadd. rewrite Hadd, Htr1 in Htr2.
      rewrite <- app_assoc in Htr2.
      symmetry in Htr2. now apply app_not_self in Htr2. }
    exists UPDATE_ACCOUNT_FAIL, "bad-save-account".
    split; [set_solver|]. split; [discriminate|].
    split; cbn; [reflexivity | now rewrite Hst2, Hst1].
  - rewrite Happ in Hreg. discriminate.
  - rewrite Happ in Hreg. cbn in Hreg. inversion Hreg; subst regId.
    rewrite Hcc2, Hcc1 in Hc. congruence.
  - destruct (RunAndRecord_engine tx height index w2)
      as (_ & (rest & Htr3 & He) & _).
    split.
    { apply nothrow_RunAndRecord. }
    intros l Hadd Hnone. exfalso.
    rewrite Htr3, Htr2, Htr1, <- !app_assoc in Hadd.
    apply app_inv_head in Hadd. subst l. cbn [app] in Hnone.
    change (engine_calls (?a :: ?b :: ?e :: ?r))
      with (engine_calls ([a] ++ [b] ++ [e] ++ r)%list) in Hnone.
    rewrite !engine_calls_app, engine_calls_persist_sender in Hnone.
    discriminate.
Qed.

End InvokeAfterCheck.

(** The sender of the scenarios, who holds 1000, sends 5000: [CheckTx]
    accepts, and [ExecuteTx] stops at the debit with nothing written. *)
Lemma invoke_ExecuteTx_after_CheckTx_witness :
  (Invoke.ExecuteTx Cases.tx_too_much 100 3 Scenario.w0).2 = RetFalse ∧
  rejected_in (state Scenario.w0) UPDATE_ACCOUNT_FAIL
    "operate-minus-account-failed"
    (state (Invoke.ExecuteTx Cases.tx_too_much 100 3 Scenario.w0).1).
Proof.
  assert (Hacc : accepts (Invoke.CheckTx Cases.tx_too_much 100 Scenario.w0))
    by (vm_compute; reflexivity).
  destruct (invoke_ExecuteTx_after_CheckTx Cases.tx_too_much 100 3 Scenario.w0 Hacc)
    as (_ & Hstop).
  assert (Hadd : added Scenario.w0
                   (Invoke.ExecuteTx Cases.tx_too_much 100 3 Scenario.w0) [])
    by (vm_compute; reflexivity).
  destruct (Hstop [] Hadd eq_refl) as (Hfalse & Hrej & _).
  split; [exact Hfalse | now apply Hrej].
Defined.

(** ** Invoke: the two loops after the engine *)

Section InvokeLoops.
Context {P : Primitives} {L : Ledger} {E : Engine}.



End InvokeLoops.

Section InvokeResolved.
Context {P : Primitives} {L : Ledger} {E : Engine}.

Lemma GetKeyId_true_length view s k0 k :
  GetKeyId view s k0 = (true, k) →
  (String.length s = 6%nat ∨ String.length s = 34%nat) ∧
  CKeyID_IsEmpty k = false.
Proof.
  intros H.
  destruct (decide (String.length s = 6%nat)) as [H6|H6];
    [|destruct (decide (String.length s = 34%nat)) as [H34|H34]].
  - rewrite (GetKeyId_short _ _ _ H6) in H. injection H as Hb Hk.
    split; [now left|]. subst k. now apply negb_true_iff in Hb.
  - rewrite (GetKeyId_long _ _ _ H34) in H. injection H as Hb Hk.
    split; [now right|]. subst k. now apply negb_true_iff in Hb.
  - rewrite (GetKeyId_other _ _ _ H6 H34) in H. discriminate.
Qed.

(** X15. The loop of the invoke [ExecuteTx] over the application
    sub-accounts only adds to the set it is given, and what it adds depends
    neither on the order of the sub-accounts nor on how often one occurs; a
    sub-account whose owner identifier has a length other than 6 or 34 adds
    nothing; and the loop never adds an empty key identifier. *)
Theorem ResolveAppUsers_as_set
    (view : CAccountDBCache) (l l' : list CAppUserAccount) (s : gset CKeyID) :
  Invoke.ResolveAppUsers view l s = s ∪ Invoke.ResolveAppUsers view l ∅ ∧
  Invoke.ResolveAppUsers view (l ++ l') s
    = Invoke.ResolveAppUsers view (l' ++ l) s ∧
  Invoke.ResolveAppUsers view (l ++ l) s = Invoke.ResolveAppUsers view l s ∧
  Invoke.ResolveAppUsers view
    (filter (λ item, String.length (GetAccUserId item) = 6%nat ∨
                     String.length (GetAccUserId item) = 34%nat) l) s
    = Invoke.ResolveAppUsers view l s ∧
  (∀ k, k ∈ Invoke.ResolveAppUsers view l s →
        k ∈ s ∨ CKeyID_IsEmpty k = false).
Proof.
  repeat split.
  - apply set_eq. intros k.
    rewrite elem_of_union, !elem_of_ResolveAppUsers, elem_of_empty. tauto.
  - apply set_eq. intros k. rewrite !elem_of_ResolveAppUsers.
    setoid_rewrite elem_of_app.
    split; (intros [Hs|(item & [Hin|Hin] & Hk)]; [now left | right; eauto ..]).
  - apply set_eq. intros k. rewrite !elem_of_ResolveAppUsers.
    setoid_rewrite elem_of_app. split.
    + intros [Hs|(item & [Hin|Hin] & Hk)]; [now left | right; eauto ..].
    + intros [Hs|(item & Hin & Hk)]; [now left | right; eauto].
  - apply set_eq. intros k. rewrite !elem_of_ResolveAppUsers.
    setoid_rewrite list_elem_of_filter. split.
    + intros [Hs|(item & [_ Hin] & Hk)]; [now left | right; eauto].
    + intros [Hs|(item & Hin & Hk)]; [now left | right].
      exists item. split; [|exact Hk]. split; [|exact Hin].
      now apply GetKeyId_true_length in Hk as [Hlen _].
  - intros k Hin. apply elem_of_ResolveAppUsers in Hin as [Hs|(item & _ & Hk)].
    + now left.
    + right. now apply GetKeyId_true_length in Hk as [_ Hne].
Qed.

End InvokeResolved.

(** ** The involved key identifiers and their presentation *)

Section Involved.
Context {P : Primitives} {L : Ledger} {E : Engine}.

(** X16. [GetInvolvedKeyIds] writes to the set it is handed as it goes.
    The deploy version leaves the set as it was when it fails.  The invoke
    version, when the sender resolves and the destination does not, returns
    false with the key identifier of the sender already inserted.  Neither
    inserts anything but those key identifiers; a second call on the result
    changes nothing; and for the same sender the deploy version's set is
    within the invoke version's. *)
Theorem GetInvolvedKeyIds_out_parameter
    (dtx : CContractDeployTx) (itx : CContractInvokeTx) (c : CCacheWrapper)
    (keyIds : gset CKeyID) :
  ((Deploy.GetInvolvedKeyIds dtx c keyIds).1 = false →
   (Deploy.GetInvolvedKeyIds dtx c keyIds).2 = keyIds) ∧
  (∀ keyId,
     accountCache_GetKeyId (accountCache c) (txUid (i_base itx)) = Some keyId →
     accountCache_GetKeyId (accountCache c) (appUid itx) = None →
     Invoke.GetInvolvedKeyIds itx c keyIds = (false, keyIds ∪ {[keyId]})) ∧
  (∀ k, k ∈ (Invoke.GetInvolvedKeyIds itx c keyIds).2 →
        k ∈ keyIds ∨
        accountCache_GetKeyId (accountCache c) (txUid (i_base itx)) = Some k ∨
        accountCache_GetKeyId (accountCache c) (appUid itx) = Some k) ∧
  Invoke.GetInvolvedKeyIds itx c (Invoke.GetInvolvedKeyIds itx c keyIds).2
    = Invoke.GetInvolvedKeyIds itx c keyIds ∧
  (txUid (d_base dtx) = txUid (i_base itx) →
   (Deploy.GetInvolvedKeyIds dtx c keyIds).2
     ⊆ (Invoke.GetInvolvedKeyIds itx c keyIds).2).
Proof.
  unfold Deploy.GetInvolvedKeyIds, Invoke.GetInvolvedKeyIds.
  split; [|split; [|split; [|split]]].
  - destruct (accountCache_GetKeyId _ (txUid (d_base dtx))); [discriminate | reflexivity].
  - intros keyId -> ->. reflexivity.
  - intros k.
    destruct (accountCache_GetKeyId _ (txUid (i_base itx))) as [keyId|];
      [destruct (accountCache_GetKeyId _ (appUid itx)) as [desKeyId|]|];
      cbn [snd]; rewrite ?elem_of_union, ?elem_of_singleton; intros Hin;
      repeat destruct Hin as [Hin|Hin]; subst; auto.
  - destruct (accountCache_GetKeyId _ (txUid (i_base itx))) as [keyId|];
      [destruct (accountCache_GetKeyId _ (appUid itx)) as [desKeyId|]|];
      cbn [snd]; try reflexivity; f_equal;
      apply set_eq; intros k; rewrite ?elem_of_union; tauto.
  - intros ->.
    destruct (accountCache_GetKeyId _ (txUid (i_base itx))) as [keyId|];
      [destruct (accountCache_GetKeyId _ (appUid itx)) as [desKeyId|]|];
      cbn [snd]; [apply union_subseteq_l | reflexivity | reflexivity].
Qed.

(** X17. The object the invoke [ToJson] builds has eleven fields with
    eleven different names; "money" and "fees" hold the integers [bcoins]
    and [llFees]; and on a view for which [GetInvolvedKeyIds] returns true,
    "addr" and "app_addr" hold the addresses of the two key identifiers
    [GetInvolvedKeyIds] inserts. *)
Theorem invoke_ToJson_fields {Pr : Presentation}
    (tx : CContractInvokeTx) (c : CCacheWrapper) (keyIds : gset CKeyID) :
  length (Invoke.ToJson tx (accountCache c)) = 11%nat ∧
  NoDup (fst <$> Invoke.ToJson tx (accountCache c)) ∧
  find_value "money" (Invoke.ToJson tx (accountCache c))
    = Some (Value_int (bcoins tx)) ∧
  find_value "fees" (Invoke.ToJson tx (accountCache c))
    = Some (Value_int (llFees (i_base tx))) ∧
  ((Invoke.GetInvolvedKeyIds tx c keyIds).1 = true →
   ∃ srcKeyId desKeyId,
     (Invoke.GetInvolvedKeyIds tx c keyIds).2
       = keyIds ∪ {[srcKeyId]} ∪ {[desKeyId]} ∧
     find_value "addr" (Invoke.ToJson tx (accountCache c))
       = Some (Value_str (CKeyID_ToAddress srcKeyId)) ∧
     find_value "app_addr" (Invoke.ToJson tx (accountCache c))
       = Some (Value_str (CKeyID_ToAddress desKeyId))).
Proof.
  split; [reflexivity|]. split.
  { cbn. repeat (apply NoDup_cons; split;
                 [rewrite ?elem_of_cons, elem_of_nil; intros H;
                  repeat (destruct H as [H|H]; [discriminate|]); exact H|]).
    apply NoDup_nil_2. }
  split; [reflexivity|]. split; [reflexivity|].
  unfold Invoke.GetInvolvedKeyIds, Invoke.ToJson.
  destruct (accountCache_GetKeyId _ (txUid (i_base tx))) as [srcKeyId|];
    [destruct (accountCache_GetKeyId _ (appUid tx)) as [desKeyId|]|];
    cbn [fst snd]; try discriminate.
  intros _. exists srcKeyId, desKeyId. repeat split.
Qed.

End Involved.

(** ** Invoke: the amounts of the transfer *)

Section InvokeTransferAmounts.
Context {P : Primitives} {L : Ledger} {E : Engine}.

Lemma PersistSender_view b a (w w' : World) ok :
  Invoke.PersistSender b a w = (w', Ok ok) →
  accountCache (cw w')
  = if b then (accountCache_SaveAccount (accountCache (cw w)) a).2
    else (accountCache_SetAccount (accountCache (cw w)) (UidKeyID (keyid a)) a).2.
Proof.
  destruct b; cbn [Invoke.PersistSender].
  - unfold SaveAccount. destruct (accountCache_SaveAccount _ _).
    intros H. now inversion H.
  - unfold SetAccount. destruct (accountCache_SetAccount _ _ _).
    intros H. now inversion H.
Qed.

(** X19. Where the sum [llFees + bcoins] fits 64 bits, a run of the invoke
    [ExecuteTx] that returns true has read the sender [srcAcct] under
    [txUid], with a free WICC balance of at least [llFees + bcoins], and
    written it as [debited], with exactly [llFees + bcoins] taken off; it
    has then read the destination [desAcct] under [appUid], from the
    account view that write left, and written it as [credited], with
    exactly [bcoins] added to its free WICC balance and its other balances
    and its key identifier as they were; and only then has it called the
    engine. *)
Lemma invoke_ExecuteTx_transfer_before_engine
    (tx : CContractInvokeTx) (height index : Z) (w w' : World) :
  0 <= llFees (i_base tx) → 0 <= bcoins tx →
  llFees (i_base tx) + bcoins tx < Uint64.modulus →
  Invoke.ExecuteTx tx height index w = (w', Ok tt) →
  ∃ srcAcct debited desAcct credited c fuelRate steps rest,
    accountCache_GetAccount (accountCache (cw w)) (txUid (i_base tx)) = Some srcAcct ∧
    llFees (i_base tx) + bcoins tx <= free_amount srcAcct SYMB.WICC ∧
    OperateBalance
      (Invoke.PrepareSender tx height index (accountCache (cw w)) srcAcct).1
      SYMB.WICC SUB_FREE (llFees (i_base tx) + bcoins tx) = Some debited ∧
    free_amount debited SYMB.WICC
      = free_amount srcAcct SYMB.WICC - (llFees (i_base tx) + bcoins tx) ∧
    accountCache_GetAccount
      (if (Invoke.PrepareSender tx height index (accountCache (cw w)) srcAcct).2
       then (accountCache_SaveAccount (accountCache (cw w)) debited).2
       else (accountCache_SetAccount (accountCache (cw w))
               (UidKeyID (keyid debited)) debited).2)
      (appUid tx) = Some desAcct ∧
    OperateBalance desAcct SYMB.WICC ADD_FREE (bcoins tx) = Some credited ∧
    free_amount credited SYMB.WICC = free_amount desAcct SYMB.WICC + bcoins tx ∧
    (∀ symbol, symbol ≠ SYMB.WICC →
       free_amount credited symbol = free_amount desAcct symbol) ∧
    keyid credited = keyid desAcct ∧
    trace w' =
      (trace w ++
       persist_sender
         (Invoke.PrepareSender tx height index (accountCache (cw w)) srcAcct).2
         debited ::
       EvSetAccount (appUid tx) credited ::
       EvExecuteContract (InvokeTx tx) height c fuelRate steps :: rest)%list.
Proof.
  intros Hfee Hval Hfit Hok.
  pose proof (invoke_ExecuteTx_run tx height index w) as Hrun.
  rewrite Hok in Hrun.
  remember (w', Ok tt) as out eqn:Hout.
  destruct Hrun as
    [Hget
    |srcAcct Hget Hdebit
    |srcAcct debited w1 Hget Hdebit H1
    |srcAcct debited w1 regId Hget Hdebit H1 Hdes Hreg
    |srcAcct debited w1 Hget Hdebit H1 Hdes Hreg
    |srcAcct debited w1 desAcct Hget Hdebit H1 Hdes Hcredit
    |srcAcct debited w1 desAcct credited w2 Hget Hdebit H1 Hdes Hcredit H2
    |srcAcct debited w1 desAcct credited w2 Hget Hdebit H1 Hdes Hcredit H2 Hreg
    |srcAcct debited w1 desAcct credited w2 regId Hget Hdebit H1 Hdes Hcredit H2 Hreg Hc
    |srcAcct debited w1 desAcct credited w2 regId contract Hget Hdebit H1 Hdes Hcredit H2 Hreg Hc];
    try discriminate.
  rewrite (Uint64_add_exact _ _ Hfee Hval Hfit) in Hdebit.
  pose proof (PersistSender_view _ _ _ _ _ H1) as Hview.
  apply PersistSender_keeps in H1 as (_ & _ & _ & Htr1).
  apply SetAccount_keeps in H2 as (_ & _ & _ & Htr2).
  destruct (RunAndRecord_engine tx height index w2) as (_ & (rest & Htr3 & _) & _).
  rewrite Hout in Htr3. cbn [fst] in Htr3.
  pose proof (OperateBalance_SUB_FREE _ _ _ _ Hdebit) as [Hle Hsub].
  rewrite PrepareSender_free_amount in Hle, Hsub.
  destruct (OperateBalance_ADD_FREE desAcct SYMB.WICC (bcoins tx))
    as (credited' & Hcredit' & Hadd).
  rewrite Hcredit in Hcredit'. inversion Hcredit'; subst credited'.
  pose proof (OperateBalance_fields _ _ _ _ _ Hcredit) as (Hk & _).
  rewrite Hview in Hdes.
  eexists srcAcct, debited, desAcct, credited, _, _, _, rest.
  split; [exact Hget|]. split; [exact Hle|]. split; [exact Hdebit|].
  split; [exact Hsub|]. split; [exact Hdes|]. split; [exact Hcredit|].
  split; [exact Hadd|].
  split; [intros symbol Hne; now apply (OperateBalance_other _ _ _ _ _ _ Hcredit)|].
  split; [exact Hk|].
  rewrite Htr3, Htr2, Htr1, <- !app_assoc. reflexivity.
Qed.

End InvokeTransferAmounts.

(** The invoke of the scenarios: fee 10 and value 50 from a sender who
    holds 1000 to a contract account that holds nothing. *)
Lemma invoke_ExecuteTx_transfer_before_engine_witness :
  ∃ srcAcct debited desAcct credited,
    free_amount srcAcct SYMB.WICC = 1000 ∧
    free_amount debited SYMB.WICC = 940 ∧
    free_amount desAcct SYMB.WICC = 0 ∧
    free_amount credited SYMB.WICC = 50.
Proof.
  assert (Hrun :
    Invoke.ExecuteTx Scenario.tx_10_50 100 3 Scenario.w0
    = ((Invoke.ExecuteTx Scenario.tx_10_50 100 3 Scenario.w0).1, Ok tt))
    by (vm_compute; reflexivity).
  assert (Hfee : 0 <= llFees (i_base Scenario.tx_10_50)) by (vm_compute; discriminate).
  assert (Hval : 0 <= bcoins Scenario.tx_10_50) by (vm_compute; discriminate).
  assert (Hfit : llFees (i_base Scenario.tx_10_50) + bcoins Scenario.tx_10_50
                 < Uint64.modulus) by (vm_compute; reflexivity).
  destruct (invoke_ExecuteTx_transfer_before_engine _ _ _ _ _ Hfee Hval Hfit Hrun)
    as (srcAcct & debited & desAcct & credited & c & fuelRate & steps & rest &
        Hget & _ & Hdebit & Hsub & Hdes & _ & Hadd & _).
  exists srcAcct, debited, desAcct, credited.
  assert (Hsrc : srcAcct = Scenario.sender).
  { vm_compute in Hget. inversion Hget. reflexivity. }
  subst srcAcct.
  assert (Hdeb : debited = Ref.account 83 (Some Scenario.senderRegId) (Some "K") 940).
  { vm_compute in Hdebit. inversion Hdebit. reflexivity. }
  subst debited.
  assert (Hfree : free_amount desAcct SYMB.WICC = 0).
  { vm_compute in Hdes. inversion Hdes. reflexivity. }
  split; [reflexivity|]. split; [reflexivity|]. split; [exact Hfree|].
  rewrite Hadd, Hfree. reflexivity.
Defined.

(** In the same run the call of the engine is the third event. *)
Lemma invoke_engine_after_transfer_witness :
  ∃ generateRegID debited credited c fuelRate steps rest,
    trace (Invoke.ExecuteTx Scenario.tx_10_50 100 3 Scenario.w0).1
    = persist_sender generateRegID debited ::
      EvSetAccount (appUid Scenario.tx_10_50) credited ::
      EvExecuteContract (InvokeTx Scenario.tx_10_50) 100 c fuelRate steps :: rest.
Proof.
  assert (Hcall : ∃ c fuelRate steps,
    trace (Invoke.ExecuteTx Scenario.tx_10_50 100 3 Scenario.w0).1 !! 2%nat
    = Some (EvExecuteContract (InvokeTx Scenario.tx_10_50) 100 c fuelRate steps)).
  { vm_compute. do 3 eexists. reflexivity. }
  destruct Hcall as (c & fuelRate & steps & Hnth).
  apply list_elem_of_lookup_2 in Hnth.
  exact (invoke_engine_after_transfer Scenario.tx_10_50 100 3 Scenario.w0
           _ _ _ _ _ _ eq_refl Hnth).
Defined.

(** ** Invoke: the one call of the engine *)

Section InvokeEngineCall.
Context {P : Primitives} {L : Ledger} {E : Engine}.

(** X20. An invoke [ExecuteTx] calls the engine at most once.  A run
    without the call leaves the step count and the contract view as they
    were.  The call is made for this transaction at this height, with the
    fuel rate of the contract view and the step count from before the
    transfer, since the two writes of the transfer touch neither; and the
    step count the run leaves is the one the engine left. *)
Theorem invoke_ExecuteTx_engine_call
    (tx : CContractInvokeTx) (height index : Z) (w : World) (l : list Event) :
  added w (Invoke.ExecuteTx tx height index w) l →
  (length (engine_calls l) <= 1)%nat ∧
  (engine_calls l = [] →
   nRunStep (Invoke.ExecuteTx tx height index w).1 = nRunStep w ∧
   contractCache (cw (Invoke.ExecuteTx tx height index w).1)
     = contractCache (cw w)) ∧
  (∀ pTx h c fuelRate steps,
     engine_calls l = [(pTx, h, c, fuelRate, steps)] →
     pTx = InvokeTx tx ∧ h = height ∧
     fuelRate = GetFuelRate (contractCache (cw w)) ∧
     steps = nRunStep w ∧
     nRunStep (Invoke.ExecuteTx tx height index w).1
       = vm_nRunStep (ExecuteContract pTx h c fuelRate steps)).
Proof.
  unfold added. intros Hadd.
  pose proof (invoke_ExecuteTx_run tx height index w) as Hrun.
  remember (Invoke.ExecuteTx tx height index w) as out eqn:Hout. clear Hout.
  assert (Htwo : ∀ b a uid a',
            engine_calls [persist_sender b a; EvSetAccount uid a'] = []).
  { intros b a uid a'.
    change (engine_calls ([persist_sender b a] ++ [EvSetAccount uid a'])%list = []).
    rewrite engine_calls_app, engine_calls_persist_sender. reflexivity. }
  assert (Hquiet : ∀ l',
    trace out.1 = (trace w ++ l')%list → engine_calls l' = [] →
    nRunStep out.1 = nRunStep w →
    contractCache (cw out.1) = contractCache (cw w) →
    (length (engine_calls l) <= 1)%nat ∧
    (engine_calls l = [] →
     nRunStep out.1 = nRunStep w ∧
     contractCache (cw out.1) = contractCache (cw w)) ∧
    (∀ pTx h c fuelRate steps,
       engine_calls l = [(pTx, h, c, fuelRate, steps)] →
       pTx = InvokeTx tx ∧ h = height ∧
       fuelRate = GetFuelRate (contractCache (cw w)) ∧
       steps = nRunStep w ∧
       nRunStep out.1 = vm_nRunStep (ExecuteContract pTx h c fuelRate steps))).
  { intros l' Hl' He Hsteps Hcc. rewrite Hadd in Hl'.
    apply app_inv_head in Hl'. subst l'. rewrite He.
    split; [cbn; lia|]. split; [now split | discriminate]. }
  invoke_run_cases Hrun; cbn [reject fst snd trace state nRunStep cw] in *.
  - apply (Hquiet []); [now rewrite app_nil_r | reflexivity..].
  - apply (Hquiet []); [now rewrite app_nil_r | reflexivity..].
  - eapply Hquiet; [exact Htr1 | apply engine_calls_persist_sender | assumption..].
  - eapply Hquiet; [exact Htr1 | apply engine_calls_persist_sender | assumption..].
  - eapply Hquiet; [exact Htr1 | apply engine_calls_persist_sender | assumption..].
  - eapply Hquiet; [exact Htr1 | apply engine_calls_persist_sender | assumption..].
  - eapply Hquiet; [|apply Htwo|congruence..].
    rewrite Htr2, Htr1, <- app_assoc. reflexivity.
  - eapply Hquiet; [|apply Htwo|congruence..].
    rewrite Htr2, Htr1, <- app_assoc. reflexivity.
  - eapply Hquiet; [|apply Htwo|congruence..].
    rewrite Htr2, Htr1, <- app_assoc. reflexivity.
  - clear Hquiet.
    destruct (RunAndRecord_engine tx height index w2)
      as (Hsteps & (rest & Htr3 & He) & _).
    rewrite Htr3, Htr2, Htr1, <- !app_assoc in Hadd.
    apply app_inv_head in Hadd. cbn [app] in Hadd. subst l.
    change (engine_calls (?a :: ?b :: ?e :: ?r))
      with (engine_calls ([a] ++ [b] ++ [e] ++ r)%list).
    rewrite !engine_calls_app, engine_calls_persist_sender, He.
    cbn [engine_calls omap list_omap app length].
    split; [lia|]. split; [discriminate|].
    intros pTx h c fuelRate steps Hcall.
    inversion Hcall; subst pTx h c fuelRate steps.
    rewrite Hsteps. rewrite Hcc2, Hcc1, Hn2, Hn1. repeat split.
Qed.

End InvokeEngineCall.

(** The invoke of the scenarios calls the engine once. *)
Lemma invoke_ExecuteTx_engine_call_witness :
  (length (engine_calls
             (trace (Invoke.ExecuteTx Scenario.tx_10_50 100 3 Scenario.w0).1))
   <= 1)%nat.
Proof.
  destruct (invoke_ExecuteTx_engine_call Scenario.tx_10_50 100 3 Scenario.w0
              (trace (Invoke.ExecuteTx Scenario.tx_10_50 100 3 Scenario.w0).1)
              eq_refl) as (Hlen & _).
  exact Hlen.
Defined.

(** ** Exceptions *)

Section Thrown.
Context {P : Primitives} {L : Ledger} {E : Engine}.

Lemma thrown_check {A} (o : option Rejection) (k : M A) (w : World) :
  ((check o ;; k) w).2 = Thrown ↔ o = None ∧ (k w).2 = Thrown.
Proof.
  rewrite bind_unfold. destruct o; cbn.
  - split; [discriminate | intros [? _]; discriminate].
  - tauto.
Qed.

Lemma thrown_require {A} b level c reason (k : M A) (w : World) :
  ((require b level c reason ;; k) w).2 = Thrown ↔ b = true ∧ (k w).2 = Thrown.
Proof.
  rewrite bind_unfold. destruct b; cbn.
  - tauto.
  - split; [discriminate | intros [? _]; discriminate].
Qed.

Lemma thrown_require_some {A B} (o : option A) level c reason (k : A → M B)
    (w : World) :
  ((require_some o level c reason ≫= k) w).2 = Thrown ↔
  ∃ a, o = Some a ∧ (k a w).2 = Thrown.
Proof.
  rewrite bind_unfold. destruct o as [a|]; cbn.
  - split; [eauto | intros (a' & Ha & H); now inversion Ha].
  - split; [discriminate | intros (a & ? & _); discriminate].
Qed.

Lemma thrown_require_some_logging {A B C} (o : option A) (arg : option C)
    level c reason (k : A → M B) (w : World) :
  ((require_some_logging o arg level c reason ≫= k) w).2 = Thrown ↔
  (o = None ∧ arg = None) ∨ ∃ a, o = Some a ∧ (k a w).2 = Thrown.
Proof.
  rewrite bind_unfold. destruct o as [a|].
  - cbn. split.
    + eauto.
    + intros [[? _]|(a' & Ha & H)]; [discriminate | now inversion Ha].
  - rewrite require_some_logging_None. destruct arg; cbn.
    + split; [discriminate|].
      intros [[_ ?]|(a & ? & _)]; discriminate.
    + split; [auto | reflexivity].
Qed.

Lemma thrown_get_or_throw {A B} (o : option A) (k : A → M B) (w : World) :
  ((get_or_throw o ≫= k) w).2 = Thrown ↔
  o = None ∨ ∃ a, o = Some a ∧ (k a w).2 = Thrown.
Proof.
  rewrite bind_unfold. destruct o as [a|]; cbn.
  - split.
    + eauto.
    + intros [?|(a' & Ha & H)]; [discriminate | now inversion Ha].
  - split; [auto | reflexivity].
Qed.

(** X5. [CheckTx] and [ExecuteTx] of a deploy transaction raise no
    exception.  [CheckTx] of an invoke transaction raises one exactly when
    the four macros pass, a public-key sender is fully valid, and either
    the sender account is missing while [txUid] holds no registration
    identifier (the accessor [txUid.get<CRegID>()] in the log message of
    line 364), or the sender account is found with an owner public key
    while [appUid] holds no registration identifier (the accessor
    [appUid.get<CRegID>()] of line 371).  [ExecuteTx] of an invoke
    transaction raises one only when [appUid] holds no registration
    identifier, and then after it has written the debited sender. *)
Theorem exceptions_only_from_accessors
    (dtx : CContractDeployTx) (itx : CContractInvokeTx) (height index : Z) (w : World) :
  (Deploy.CheckTx dtx height w).2 ≠ Thrown ∧
  (Deploy.ExecuteTx dtx height index w).2 ≠ Thrown ∧
  ((Invoke.CheckTx itx height w).2 = Thrown ↔
     IMPLEMENT_CHECK_TX_FEE height (InvokeTx itx) = None ∧
     IMPLEMENT_CHECK_TX_ARGUMENTS (InvokeTx itx) = None ∧
     IMPLEMENT_CHECK_TX_REGID_OR_PUBKEY (uid_type (txUid (i_base itx))) = None ∧
     IMPLEMENT_CHECK_TX_APPID (uid_type (appUid itx)) = None ∧
     (∀ pubKey, txUid (i_base itx) = UidPubKey pubKey →
        CPubKey_IsFullyValid pubKey = true) ∧
     ((accountCache_GetAccount (accountCache (cw w)) (txUid (i_base itx)) = None ∧
       get_CRegID (txUid (i_base itx)) = None) ∨
      (∃ srcAccount,
         accountCache_GetAccount (accountCache (cw w)) (txUid (i_base itx))
           = Some srcAccount ∧
         HaveOwnerPubKey srcAccount = true ∧
         get_CRegID (appUid itx) = None))) ∧
  ((Invoke.ExecuteTx itx height index w).2 = Thrown →
     get_CRegID (appUid itx) = None ∧
     ∃ srcAcct debited l,
       accountCache_GetAccount (accountCache (cw w)) (txUid (i_base itx))
         = Some srcAcct ∧
       trace (Invoke.ExecuteTx itx height index w).1
       = (trace w ++
          persist_sender
            (Invoke.PrepareSender itx height index (accountCache (cw w)) srcAcct).2
            debited :: l)%list).
Proof.
  split; [|split; [|split]].
  - assert (Hd : nothrow (Deploy.CheckTx dtx height)).
    { unfold Deploy.CheckTx, Deploy.CheckFeePerKb. solve_nothrow. }
    apply Hd.
  - assert (Hd : nothrow (Deploy.ExecuteTx dtx height index)).
    { unfold Deploy.ExecuteTx. solve_nothrow. }
    apply Hd.
  - unfold Invoke.CheckTx.
    rewrite !thrown_check.
    assert (Hpk : ∀ k : M unit,
      ((match txUid (i_base itx) with
        | UidPubKey pubKey =>
            require (CPubKey_IsFullyValid pubKey) 100 REJECT_INVALID
              "bad-publickey"
        | _ => mret tt
        end ;; k) w).2 = Thrown ↔
      (∀ pubKey, txUid (i_base itx) = UidPubKey pubKey →
         CPubKey_IsFullyValid pubKey = true) ∧ (k w).2 = Thrown).
    { intros k. destruct (txUid (i_base itx)) as [| | |pubKey|];
        try (rewrite (bind_Ok (mret tt) _ w w tt eq_refl);
             split; [intros H; split; [intros ? ?; discriminate | exact H] | tauto]).
      rewrite thrown_require. split.
      - intros [Hv Hk]. split; [intros pk Heq; congruence | exact Hk].
      - intros [Hv Hk]. split; [now apply Hv | exact Hk]. }
    rewrite Hpk.
    rewrite (bind_Ok (GetAccount _) _ w w _ eq_refl).
    rewrite thrown_require_some_logging.
    setoid_rewrite thrown_require.
    setoid_rewrite thrown_get_or_throw.
    assert (Hlook : ∀ (r : CRegID) (k : CContract → M unit),
      (∀ c, (k c w).2 ≠ Thrown) →
      ((o ← GetContract r;
        c ← require_some o 100 REJECT_INVALID "bad-read-script"; k c) w).2
      ≠ Thrown).
    { intros r k Hk. rewrite (bind_Ok (GetContract r) _ w w _ eq_refl).
      rewrite thrown_require_some. intros (c & _ & H). now apply (Hk c). }
    split.
    + intros (? & ? & ? & ? & ? & [[? ?]|(a & ? & ? & [?|(r & ? & Hthrown)])]).
      * repeat (split; [assumption|]). now left.
      * repeat (split; [assumption|]). right. eauto.
      * exfalso. revert Hthrown. apply Hlook.
        intros c. now destruct (IMPLEMENT_CHECK_TX_SIGNATURE _ _).
    + intros (? & ? & ? & ? & ? & [[? ?]|(a & ? & ? & ?)]).
      * repeat (split; [assumption|]). now left.
      * repeat (split; [assumption|]). right.
        exists a. split; [assumption|]. split; [assumption|]. now left.
  - pose proof (invoke_ExecuteTx_run itx height index w) as Hrun.
    remember (Invoke.ExecuteTx itx height index w) as out eqn:Hout. clear Hout.
    invoke_run_cases Hrun; cbn [reject fst snd trace]; try discriminate.
    + intros _. split; [exact Hreg|]. exists srcAcct, debited, []. now split.
    + intros _. split; [exact Hreg|].
      exists srcAcct, debited, [EvSetAccount (appUid itx) credited].
      split; [exact Hget|]. rewrite Htr2, Htr1, <- app_assoc. reflexivity.
    + intros Hthrown. exfalso. revert Hthrown. apply nothrow_RunAndRecord.
Qed.

End Thrown.

(** A fully valid public key that has no account yet, as the sender of an
    invoke: [CheckTx] leaves through the exception of the accessor in the
    log message, not through [state.DoS]. *)
Lemma exceptions_only_from_accessors_witness :
  (Invoke.CheckTx Scenario.tx_newcomer 100 Scenario.w0).2 = Thrown ∧
  (Invoke.ExecuteTx Scenario.tx_10_50 100 3 Scenario.w0).2 ≠ Thrown.
Proof.
  destruct (exceptions_only_from_accessors (Scenario.deploy 5 "mylib")
              Scenario.tx_newcomer 100 3 Scenario.w0)
    as (_ & _ & Hcheck & _).
  destruct (exceptions_only_from_accessors (Scenario.deploy 5 "mylib")
              Scenario.tx_10_50 100 3 Scenario.w0)
    as (_ & _ & _ & Hexec).
  split.
  - apply Hcheck. repeat split.
    + intros pubKey Hpk. inversion Hpk. vm_compute. reflexivity.
    + left. split; reflexivity.
  - intros Hthrown. apply Hexec in Hthrown as [Hreg _]. discriminate.
Defined.
